(** * LibRecommender: ranking metrics, unknown-id guard and top-N selection

    A shallow embedding of
      - [distributed/new_features/evaluate/metrics.py]
      - [libreco/algorithms/base.py]
      - [libreco/algorithms/wide_deep.py]
      - [libreco/algorithms/youtube_match.py]
    and the properties of the ranking core stated about them.

    Conventions.  Python exceptions are the [Raise] branch of [result].
    NumPy float arrays are lists of exact rationals ([Q]); the one place
    where an irrational enters ([np.log2] in NDCG) is computed in [R].
    A float that may be [nan] is an [npfloat].  Arrays that the code
    mutates in place live in a store and are passed by reference. *)

From Stdlib Require Import ZArith QArith Qabs Qminmax Qreals Reals Lra Lia.
From stdpp Require Import base list gmap sorting.

(** ** Python results and exceptions *)

Inductive exn : Set :=
  | IndexError
  | KeyError
  | ValueError
  | TypeError
  | AssertionError
  | ZeroDivisionError
  | NotSamplingError.

Inductive result (A : Type) : Type :=
  | Ok (a : A)
  | Raise (e : exn).
Arguments Ok {A} a.
Arguments Raise {A} e.

#[global] Instance result_ret : MRet result := @Ok.
#[global] Instance result_bind : MBind result := fun A B f m =>
  match m with
  | Ok a => f a
  | Raise e => Raise e
  end.
#[global] Instance result_fmap : FMap result := fun A B f m =>
  match m with
  | Ok a => Ok (f a)
  | Raise e => Raise e
  end.

(** [for x in xs: out.append(f x)], stopping at the first exception. *)
Fixpoint for_each {A B} (f : A -> result B) (xs : list A) : result (list B) :=
  match xs with
  | [] => Ok []
  | x :: xs' => y ← f x; ys ← for_each f xs'; Ok (y :: ys)
  end.

(** [d[key]] on a Python dict. *)
Definition getitem {V} (d : gmap nat V) (key : nat) : result V :=
  match d !! key with
  | Some v => Ok v
  | None => Raise KeyError
  end.

(** A float64 that is either an exact finite value or [nan]. *)
Inductive npfloat (T : Type) : Type :=
  | fin (x : T)
  | nan.
Arguments fin {T} x.
Arguments nan {T}.

(** ** The NumPy primitives the sources call *)
Module Numpy.

(** [np.zeros(k)] *)
Definition zeros (k : nat) : list Q := replicate k 0%Q.

(** [np.arange(lo, hi)] *)
Definition arange (lo hi : nat) : list nat := seq lo (hi - lo).

(** Position of the first occurrence of [x] in [l]. *)
Fixpoint index_of (x : nat) (l : list nat) : nat :=
  match l with
  | [] => 0
  | y :: l' => if decide (x = y) then 0 else S (index_of x l')
  end.

(** Ascending sort ([np.sort]); insertion of [x] goes in front of the first
    element that is not below it, so equal keys keep their order: the same
    function serves for Python's stable [sorted]. *)
Fixpoint insert_by {A} (leb : A -> A -> bool) (x : A) (l : list A) : list A :=
  match l with
  | [] => [x]
  | y :: l' => if leb x y then x :: l else y :: insert_by leb x l'
  end.

Definition sort_by {A} (leb : A -> A -> bool) (l : list A) : list A :=
  foldr (insert_by leb) [] l.

Definition sort (l : list Q) : list Q := sort_by Qle_bool l.

(** [np.intersect1d(ar1, ar2, assume_unique=True, return_indices=True)] on
    duplicate-free arguments: the sorted common values, and for each of them
    its position in [ar1] and in [ar2].  (With [assume_unique=True] NumPy
    documents the result on arguments with repeats as unspecified; every
    statement about it below carries the duplicate-freeness of the
    arguments.) *)
Definition intersect1d (ar1 ar2 : list nat)
  : list nat * list nat * list nat :=
  let common := sort_by Nat.leb (filter (λ x, x ∈ ar2) ar1) in
  (common, (λ x, index_of x ar1) <$> common,
   (λ x, index_of x ar2) <$> common).

(** [a[idx] = v] with an integer index array [idx]; an index outside the
    array raises. *)
Fixpoint set_items {A} (a : list A) (idx : list nat) (v : A) : result (list A) :=
  match idx with
  | [] => Ok a
  | i :: idx' =>
      if decide (i < length a)%nat then set_items (<[i:=v]> a) idx' v
      else Raise IndexError
  end.

Definition sumQ (l : list Q) : Q := foldr Qplus 0%Q l.
Definition sumR (l : list R) : R := foldr Rplus 0%R l.

(** [np.mean] of an array of finite numbers; the mean of an empty array is
    [nan]. *)
Definition mean_arr (l : list Q) : npfloat Q :=
  match l with
  | [] => nan
  | _ => fin (sumQ l / inject_Z (Z.of_nat (length l)))%Q
  end.

Definition mean_arrR (l : list R) : npfloat R :=
  match l with
  | [] => nan
  | _ => fin (sumR l / INR (length l))%R
  end.

(** All entries finite, or [None] when one of them is [nan]. *)
Fixpoint finite_all {T} (l : list (npfloat T)) : option (list T) :=
  match l with
  | [] => Some []
  | fin x :: l' => cons x <$> finite_all l'
  | nan :: _ => None
  end.

(** [np.mean] of a Python list of floats: [nan] propagates. *)
Definition mean (l : list (npfloat Q)) : npfloat Q :=
  match finite_all l with
  | Some xs => mean_arr xs
  | None => nan
  end.

Definition meanR (l : list (npfloat R)) : npfloat R :=
  match finite_all l with
  | Some xs => mean_arrR xs
  | None => nan
  end.

(** [np.log2] *)
Definition log2 (x : R) : R := (ln x / ln 2)%R.

(** [a[ids]] for an integer array [ids], along the first axis: an index from
    [-len(a)] to [-1] counts from the end, and one outside
    [-len(a) .. len(a) - 1] raises. *)
Definition take_rows {A} (a : list A) (ids : list Z) : result (list A) :=
  for_each (λ i,
      let n := Z.of_nat (length a) in
      let j := if (i <? 0)%Z then (i + n)%Z else i in
      match (if (j <? 0)%Z then None else a !! Z.to_nat j) with
      | Some r => Ok r
      | None => Raise IndexError
      end) ids.

(** Broadcasting along one axis: two arrays go together when they have the
    same length along it, or when one of them has length 1 and is repeated;
    otherwise the operation raises. *)
Definition broadcast {A B C} (f : A -> B -> result C) (l : list A) (k : list B)
  : result (list C) :=
  if decide (length l = length k) then for_each (λ p, f p.1 p.2) (zip l k)
  else
    match l, k with
    | [x], _ => for_each (f x) k
    | _, [y] => for_each (λ x, f x y) l
    | _, _ => Raise ValueError
    end.

(** [np.multiply] on two 2-D arrays, given by their rows.  (The width of an
    array without rows is not represented: two arrays without rows go
    together.) *)
Definition multiply (u w : list (list Q)) : result (list (list Q)) :=
  broadcast (broadcast (λ x y, Ok (x * y)%Q)) u w.

(** [np.sum(a, axis=1)] *)
Definition sum_axis1 (a : list (list Q)) : list Q := sumQ <$> a.

(** A float tensor of no axis (a scalar) or of one axis. *)
Inductive tensor : Type :=
  | Zero_d (x : Q)
  | One_d (l : list Q).

(** [tf.squeeze] without [axis], on the column of shape [(n, 1)] that holds
    the numbers of [column]: every axis of length 1 goes, so a column of one
    number is left as a scalar. *)
Definition squeeze (column : list Q) : tensor :=
  match column with
  | [x] => Zero_d x
  | _ => One_d column
  end.

(** An elementwise function ([np.clip], the logistic function) keeps the
    shape. *)
Definition tensor_map (f : Q -> Q) (t : tensor) : tensor :=
  match t with
  | Zero_d x => Zero_d (f x)
  | One_d l => One_d (f <$> l)
  end.

(** [t[idx] = v] with an integer index array [idx]: a NumPy scalar does not
    support item assignment. *)
Definition tensor_set_items (t : tensor) (idx : list nat) (v : Q)
  : result tensor :=
  match t with
  | Zero_d _ => Raise TypeError
  | One_d l => One_d <$> set_items l idx v
  end.

(** The dtypes [np.asarray] gives a list of Python ints. *)
Inductive dtype : Set := int64 | uint64 | float64 | object.

(** One Python int: [int64] when it fits, else [uint64] when it fits, else
    the int is kept as a Python object. *)
Definition int_dtype (z : Z) : dtype :=
  if ((- 2 ^ 63 <=? z) && (z <? 2 ^ 63))%Z then int64
  else if ((0 <=? z) && (z <? 2 ^ 64))%Z then uint64
  else object.

(** The common dtype of two entries: [int64] and [uint64] have none among
    the integers and meet in [float64]. *)
Definition promote (a b : dtype) : dtype :=
  match a, b with
  | object, _ | _, object => object
  | int64, int64 => int64
  | uint64, uint64 => uint64
  | _, _ => float64
  end.

(** The dtype of [np.asarray(l)]; the empty list gives a [float64] array. *)
Definition list_dtype (l : list Z) : dtype :=
  match l with
  | [] => float64
  | z :: l' => foldr (λ x t, promote (int_dtype x) t) (int_dtype z) l'
  end.

(** The float64 nearest to an integer, ties going to the even mantissa;
    integers below [2 ^ 53] in absolute value are floats themselves. *)
Definition to_float64 (z : Z) : Z :=
  let a := Z.abs z in
  if (a <? 2 ^ 53)%Z then z
  else
    let e := (Z.log2 a - 52)%Z in
    let q := Z.shiftr a e in
    let r := Z.land a (Z.ones e) in
    let half := (2 ^ (e - 1))%Z in
    let q := if (half <? r)%Z || ((r =? half)%Z && Z.odd q) then (q + 1)%Z
             else q in
    (Z.sgn z * Z.shiftl q e)%Z.

(** The entries of [np.asarray(l)], as the array of dtype [t] holds them. *)
Definition cast (t : dtype) (l : list Z) : list Z :=
  match t with
  | float64 => to_float64 <$> l
  | _ => l
  end.

(** Only an array of integers is an index array. *)
Definition is_index (t : dtype) : bool :=
  match t with
  | int64 | uint64 => true
  | float64 | object => false
  end.

(** [a[ids]] for an array [ids] of dtype [t]. *)
Definition index_rows {A} (a : list A) (t : dtype) (ids : list Z)
  : result (list A) :=
  if is_index t then take_rows a ids else Raise IndexError.

End Numpy.

(** ** metrics.py *)
Module Metrics.
Import Numpy.

(** Body of the loop of [precision_at_k] for one user. *)
Definition precision_user (y_true y_reco : list nat) (k : nat)
  : result (npfloat Q) :=
  let rank_list := zeros k in
  let '(common_items, indices_in_true, indices_in_reco) :=
    intersect1d y_true y_reco in
  if decide (0 < length common_items)%nat then
    rank_list ← set_items rank_list indices_in_reco 1%Q;
    Ok (mean_arr rank_list)
  else Ok (fin 0%Q).

Definition precision_at_k (y_true_list y_reco_list : gmap nat (list nat))
    (users : list nat) (k : nat) : result (npfloat Q) :=
  precision_all ← for_each (λ u,
      y_true ← getitem y_true_list u;
      y_reco ← getitem y_reco_list u;
      precision_user y_true y_reco k) users;
  Ok (mean precision_all).

(** Body of the loop of [recall_at_k]; [/] on two Python ints. *)
Definition recall_user (y_true y_reco : list nat) : result (npfloat Q) :=
  let '(common_items, _, _) := intersect1d y_true y_reco in
  if decide (0 < length common_items)%nat then
    if decide (length y_true = 0)%nat then Raise ZeroDivisionError
    else Ok (fin (inject_Z (Z.of_nat (length common_items))
                  / inject_Z (Z.of_nat (length y_true)))%Q)
  else Ok (fin 0%Q).

Definition recall_at_k (y_true_list y_reco_list : gmap nat (list nat))
    (users : list nat) (k : nat) : result (npfloat Q) :=
  recall_all ← for_each (λ u,
      y_true ← getitem y_true_list u;
      y_reco ← getitem y_reco_list u;
      recall_user y_true y_reco) users;
  Ok (mean recall_all).

(** [[np.mean(rank_list[:i+1]) for i in range(k) if rank_list[i]]] *)
Definition prefix_precisions (rank_list : list Q) (k : nat)
  : result (list (npfloat Q)) :=
  picked ← for_each (λ i,
      match rank_list !! i with
      | None => Raise IndexError
      | Some r => Ok (if Qeq_bool r 0%Q then []
                      else [mean_arr (take (i + 1) rank_list)])
      end) (seq 0 k);
  Ok (List.concat picked).

Definition average_precision_at_k (y_true y_reco : list nat) (k : nat)
  : result (npfloat Q) :=
  let '(common_items, indices_in_true, indices_in_reco) :=
    intersect1d y_true y_reco in
  let rank_list := zeros k in
  if decide (0 < length common_items)%nat then
    rank_list ← set_items rank_list indices_in_reco 1%Q;
    ap ← prefix_precisions rank_list k;
    if decide (length ap = length common_items) then Ok (mean ap)
    else Raise AssertionError
  else Ok (fin 0%Q).

Definition map_at_k (y_true_list y_reco_list : gmap nat (list nat))
    (users : list nat) (k : nat) : result (npfloat Q) :=
  map_all ← for_each (λ u,
      y_true ← getitem y_true_list u;
      y_reco ← getitem y_reco_list u;
      average_precision_at_k y_true y_reco k) users;
  Ok (mean map_all).

(** [l[0] + np.sum(l[1:] / np.log2(np.arange(2, k+1)))]; the two operands
    of [/] must have the same length. *)
Definition dcg (l : list R) (k : nat) : result R :=
  match l !! 0%nat with
  | None => Raise IndexError
  | Some l0 =>
      let discounts := (λ j, log2 (INR j)) <$> arange 2 (k + 1) in
      if decide (length (drop 1 l) = length discounts) then
        Ok (l0 + sumR (zip_with Rdiv (drop 1 l) discounts))%R
      else Raise ValueError
  end.

(** Body of the loop of [ndcg_at_k] for one user.  A float division by 0
    raises nothing: [0 / 0] is [nan]. *)
Definition ndcg_user (y_true y_reco : list nat) (k : nat)
  : result (npfloat R) :=
  let rank_list := zeros k in
  let '(common_items, indices_in_true, indices_in_reco) :=
    intersect1d y_true y_reco in
  if decide (0 < length common_items)%nat then
    rank_list ← set_items rank_list indices_in_reco 1%Q;
    let ideal_list := reverse (sort rank_list) in
    dcg_v ← dcg (Q2R <$> rank_list) k;
    idcg_v ← dcg (Q2R <$> ideal_list) k;
    Ok (if Req_dec_T idcg_v 0 then nan else fin (dcg_v / idcg_v)%R)
  else Ok (fin 0%R).

Definition ndcg_at_k (y_true_list y_reco_list : gmap nat (list nat))
    (users : list nat) (k : nat) : result (npfloat R) :=
  ndcg_all ← for_each (λ u,
      y_true ← getitem y_true_list u;
      y_reco ← getitem y_reco_list u;
      ndcg_user y_true y_reco k) users;
  Ok (meanR ndcg_all).

End Metrics.

(** ** The interpreter state: NumPy arrays held by reference, and the
       sequence of outputs and calls to the tensor engine *)
Module Store.

(** A reference to an array is its position in the store. *)
Abbreviation loc := nat (only parsing).

Inductive event : Type :=
  | PrintUnknownInteractions (unknown_num : nat)
      (unknown_user unknown_item : option (list Z))
  | PrintUnknownUser (user : Z)
  | ShowStartTime
  | BuildModel
  | BuildTrainOps
  | TrainEpoch (epoch : nat) (batch_sampling : bool)
  | PrintMetrics (epoch : nat).

Record state : Type := mkState {
  arrays : list (list Z);
  trace : list event
}.

(** A computation that may mutate the state and may raise; what was
    written before an exception stays written. *)
Definition M (A : Type) : Type := state -> result A * state.

#[global] Instance M_ret : MRet M := fun A a s => (Ok a, s).
#[global] Instance M_bind : MBind M := fun A B f m s =>
  match m s with
  | (Ok a, s') => f a s'
  | (Raise e, s') => (Raise e, s')
  end.

Definition lift {A} (r : result A) : M A := fun s => (r, s).

Definition emit (e : event) : M unit :=
  fun s => (Ok tt, mkState (arrays s) (trace s ++ [e])).

Definition alloc (a : list Z) : M loc :=
  fun s => (Ok (length (arrays s)), mkState (arrays s ++ [a]) (trace s)).

Definition load (a : loc) : M (list Z) :=
  fun s => (Ok (default [] (arrays s !! a)), s).

(** [a[idx] = v] on the array behind [a]. *)
Definition setitems (a : loc) (idx : list nat) (v : Z) : M unit :=
  fun s =>
    match Numpy.set_items (default [] (arrays s !! a)) idx v with
    | Ok a' => (Ok tt, mkState (<[a:=a']> (arrays s)) (trace s))
    | Raise e => (Raise e, s)
    end.

(** What a caller may pass where an int or an array_like is expected. *)
Inductive pyarg : Type :=
  | PyInt (z : Z)
  | PyList (l : list Z)
  | NdArray (a : loc).

(** The dtype of the array an argument becomes; the arrays that callers
    hold in the store are [int64] arrays. *)
Definition dtype_of (x : pyarg) : Numpy.dtype :=
  match x with
  | PyInt z => Numpy.list_dtype [z]
  | PyList l => Numpy.list_dtype l
  | NdArray _ => Numpy.int64
  end.

(** [np.asarray(l)] on a Python list: a new array, of the dtype that fits
    the entries. *)
Definition from_list (l : list Z) : M (loc * Numpy.dtype) :=
  let t := Numpy.list_dtype l in
  a ← alloc (Numpy.cast t l);
  mret (a, t).

(** [np.asarray([x]) if isinstance(x, int) else np.asarray(x)]: a list is
    copied into a new array, an array is returned as it is. *)
Definition asarray (x : pyarg) : M (loc * Numpy.dtype) :=
  match x with
  | PyInt z => from_list [z]
  | PyList l => from_list l
  | NdArray a => mret (a, Numpy.int64)
  end.

End Store.

(** ** base.py *)
Module Base.
Import Store.

Inductive task_t : Set := rating | ranking.

(** The attributes of a model instance that the modelled methods read. *)
Record model : Type := mkModel {
  task : task_t;
  n_users : nat;
  n_items : nat;
  lower_bound : Q;
  upper_bound : Q;
  default_prediction : Q;
  user_consumed : gmap nat (list nat);
  batch_sampling : bool;
  n_epochs : nat;
  (** the network's output for a pair (WideDeep) *)
  output : nat -> nat -> Q;
  (** the cached latent vectors (YouTubeMatch) *)
  user_vector : list (list Q);
  item_weights : list (list Q);
  (** [1 / (1 + np.exp(-x))] as computed by the float unit *)
  sigmoid : Q -> Q;
  (** the selection routine behind [np.argpartition]: the order it leaves
      inside the two parts is not part of NumPy's contract *)
  introselect : list Q -> nat -> list nat
}.

Record dataset : Type := mkData {
  has_sampled : bool
}.

(** [np.where(cond)[0]], positions counted from [i]. *)
Fixpoint where_from (p : Z -> bool) (i : nat) (a : list Z) : list nat :=
  match a with
  | [] => []
  | x :: a' =>
      if p x then i :: where_from p (S i) a' else where_from p (S i) a'
  end.

Definition unknown_id (n : nat) (x : Z) : bool :=
  (Z.of_nat n <=? x)%Z || (x <? 0)%Z.

(** [list(a[idx])] *)
Definition items_at (a : list Z) (idx : list nat) : list Z :=
  omap (λ i, a !! i) idx.

Definition _check_unknown (self : model) (user item : loc)
  : M (nat * list nat * loc * loc) :=
  user_v ← load user;
  item_v ← load item;
  let unknown_user_indices := where_from (unknown_id (n_users self)) 0 user_v in
  let unknown_item_indices := where_from (unknown_id (n_items self)) 0 item_v in
  let unknown_user :=
    match unknown_user_indices with
    | [] => None
    | _ => Some (items_at user_v unknown_user_indices)
    end in
  let unknown_item :=
    match unknown_item_indices with
    | [] => None
    | _ => Some (items_at item_v unknown_item_indices)
    end in
  let unknown_index : list nat :=
    elements (list_to_set unknown_user_indices
              ∪ list_to_set unknown_item_indices : gset nat) in
  let unknown_num := length unknown_index in
  (if decide (0 < unknown_num)%nat then
     setitems user unknown_index 0%Z;;
     setitems item unknown_index 0%Z;;
     emit (PrintUnknownInteractions unknown_num unknown_user unknown_item)
   else mret tt);;
  mret (unknown_num, unknown_index, user, item).

Definition _check_unknown_user (self : model) (user : Z) : M (option Z) :=
  if decide (0 ≤ user < Z.of_nat (n_users self))%Z then mret (Some user)
  else emit (PrintUnknownUser user);; mret None.

Definition _check_has_sampled (data : dataset) (verbose : Z) : result unit :=
  if negb (has_sampled data) && (1 <? verbose)%Z then Raise NotSamplingError
  else Ok tt.

(** [TfMixin.train_feat]: one pass over the batches per epoch, and the
    metrics printed after the epoch when [verbose > 1]. *)
Fixpoint train_epochs (sampling : bool) (verbose : Z) (epochs : list nat)
  : M unit :=
  match epochs with
  | [] => mret tt
  | epoch :: rest =>
      emit (TrainEpoch epoch sampling);;
      (if (1 <? verbose)%Z then emit (PrintMetrics epoch) else mret tt);;
      train_epochs sampling verbose rest
  end.

Definition train_feat (self : model) (sampling : bool) (verbose : Z)
  : M unit :=
  train_epochs sampling verbose (seq 1 (n_epochs self)).

(** Python's [not x] for [x] an int or [None]. *)
Definition py_not (x : option Z) : bool :=
  match x with
  | None => true
  | Some z => (z =? 0)%Z
  end.

End Base.

(** ** Top-N selection, the code shared by [WideDeep.recommend_user] and
       [YouTubeMatch.recommend_user] *)
Module TopN.
Import Store Base.

(** [np.argpartition(a, kth)]: a negative [kth] counts from the end; a
    [kth] outside a non-empty array is a [ValueError]. *)
Definition argpartition (self : model) (a : list Q) (kth : Z)
  : result (list nat) :=
  let n := Z.of_nat (length a) in
  let kth := if (kth <? 0)%Z then (kth + n)%Z else kth in
  if decide (n ≠ 0 ∧ (kth < 0 ∨ n ≤ kth))%Z then Raise ValueError
  else Ok (introselect self a (Z.to_nat kth)).

(** The Python slice [l[start:]]. *)
Definition slice_from {A} (l : list A) (start : Z) : list A :=
  let n := Z.of_nat (length l) in
  let start := if (start <? 0)%Z then Z.max 0 (start + n) else Z.min start n in
  drop (Z.to_nat start) l.

(** [a[ids]] for an index array [ids]. *)
Fixpoint take_items (a : list Q) (ids : list nat) : result (list Q) :=
  match ids with
  | [] => Ok []
  | i :: ids' =>
      match a !! i with
      | Some x => xs ← take_items a ids'; Ok (x :: xs)
      | None => Raise IndexError
      end
  end.

(** [sorted(pairs, key=lambda x: -x[1])]; Python's sort is stable. *)
Definition by_neg_score (x y : nat * Q) : bool := Qle_bool (- x.2) (- y.2).

Definition sorted_by_neg_score (pairs : list (nat * Q)) : list (nat * Q) :=
  Numpy.sort_by by_neg_score pairs.

(** From [count = n_rec + len(consumed)] to the returned list. *)
Definition select (self : model) (recos : list Q) (consumed : list nat)
    (n_rec : nat) : result (list (nat * Q)) :=
  let count := Z.of_nat (n_rec + length consumed) in
  part ← argpartition self recos (- count);
  let ids := slice_from part (- count) in
  scores ← take_items recos ids;
  let rank := sorted_by_neg_score (zip ids scores) in
  Ok (take n_rec (filter (λ rec, rec.1 ∉ consumed) rank)).

(** The same lines when [recos] is a scalar: [np.argpartition] takes it for
    an array of one entry, and [recos[ids]] on a scalar raises. *)
Definition select_scalar (self : model) (recos : Q) (consumed : list nat)
    (n_rec : nat) : result (list (nat * Q)) :=
  let count := Z.of_nat (n_rec + length consumed) in
  part ← argpartition self [recos] (- count);
  Raise IndexError.

End TopN.

(** ** wide_deep.py *)
Module WideDeep.
Import Store Base TopN.

(** [fit], as far as the guard and the epochs go: the graph and the training
    operations are built by the tensor engine ([BuildModel],
    [BuildTrainOps]); the copy of [train_data.user_consumed] into the model
    and the learning-rate schedule are left out. *)
Definition fit (self : model) (train_data : dataset) (verbose : Z) : M unit :=
  emit ShowStartTime;;
  emit BuildModel;;
  emit BuildTrainOps;;
  (if match task self with ranking => batch_sampling self | rating => false end
   then
     lift (_check_has_sampled train_data verbose);;
     train_feat self true verbose
   else
     train_feat self false verbose).

Section Predict.

(** What the feeding code and the session make of id arrays that are not
    both [int64] arrays: the sources do not hold that code and the spec
    gives the interface on arrays of ints only. *)
Variable other_dtype : list Z -> list Z -> result Numpy.tensor.

(** Modelled from the spec: the scoring interface behind
    [get_predict_indices_and_values] and [sess.run(self.output, feed_dict)],
    which are not among the sources: pairwise, one score per input pair,
    defined on ids inside the vocabulary.  The shape of what comes back is
    the source's: [self.output = tf.squeeze(tf.add(wide_term, deep_term))]
    squeezes the column that holds one score per pair. *)
Definition run_output (self : model) (user_t item_t : Numpy.dtype)
    (user item : list Z) : result Numpy.tensor :=
  match user_t, item_t with
  | Numpy.int64, Numpy.int64 =>
      if decide (length user ≠ length item) then Raise ValueError
      else if forallb (λ u, negb (unknown_id (n_users self) u)) user
              && forallb (λ i, negb (unknown_id (n_items self) i)) item
      then Ok (Numpy.squeeze
                 (zip_with (λ u i, output self (Z.to_nat u) (Z.to_nat i))
                    user item))
      else Raise IndexError
  | _, _ => other_dtype user item
  end.

(** [np.clip(x, lo, hi)] *)
Definition clip (lo hi x : Q) : Q := Qmin (Qmax x lo) hi.

Definition predict (self : model) (user item : pyarg) : M Numpy.tensor :=
  '(user, user_t) ← asarray user;
  '(item, item_t) ← asarray item;
  '(unknown_num, unknown_index, user, item) ← _check_unknown self user item;
  user_v ← load user;
  item_v ← load item;
  preds ← lift (run_output self user_t item_t user_v item_v);
  let preds :=
    match task self with
    | rating =>
        Numpy.tensor_map (clip (lower_bound self) (upper_bound self)) preds
    | ranking => Numpy.tensor_map (sigmoid self) preds
    end in
  if decide (0 < unknown_num)%nat then
    lift (Numpy.tensor_set_items preds unknown_index (default_prediction self))
  else mret preds.

End Predict.

(** Modelled from the spec: [score_all_items(user)], the output of the
    network for one user against the whole catalog
    ([get_recommend_indices_and_values] and [sess.run] are not among the
    sources); its shape is again that of the squeezed [self.output]. *)
Definition run_output_all (self : model) (user : nat) : Numpy.tensor :=
  Numpy.squeeze (output self user <$> seq 0 (n_items self)).

Definition recommend_user (self : model) (user : Z) (n_rec : nat)
  : M (option (list (nat * Q))) :=
  user ← _check_unknown_user self user;
  if py_not user then mret None
  else
    let user := Z.to_nat (default 0%Z user) in
    let recos := run_output_all self user in
    let recos :=
      match task self with
      | ranking => Numpy.tensor_map (sigmoid self) recos
      | rating => recos
      end in
    consumed ← lift (getitem (user_consumed self) user);
    rank ← lift (match recos with
                 | Numpy.One_d recos => select self recos consumed n_rec
                 | Numpy.Zero_d recos => select_scalar self recos consumed n_rec
                 end);
    mret (Some rank).

End WideDeep.

(** ** youtube_match.py *)
Module YouTubeMatch.
Import Store Base TopN.

(** The dot product of two rows. *)
Definition dot (u w : list Q) : Q := Numpy.sumQ (zip_with Qmult u w).

Definition recommend_user (self : model) (user : Z) (n_rec : nat)
  : M (option (list (nat * Q))) :=
  user ← _check_unknown_user self user;
  if py_not user then mret None
  else
    let user := Z.to_nat (default 0%Z user) in
    consumed ← lift (getitem (user_consumed self) user);
    match user_vector self !! user with
    | None => lift (Raise IndexError)
    | Some row =>
        let recos := dot row <$> item_weights self in
        let recos := sigmoid self <$> recos in
        rank ← lift (select self recos consumed n_rec);
        mret (Some rank)
    end.

(** What [predict] returns: a float for a batch of one user, an array
    otherwise. *)
Inductive prediction : Type :=
  | Scalar (x : Q)
  | Array (l : list Q).

Definition predict (self : model) (user item : pyarg) : M prediction :=
  '(user, user_t) ← asarray user;
  '(item, item_t) ← asarray item;
  '(unknown_num, unknown_index, user, item) ← _check_unknown self user item;
  user_v ← load user;
  item_v ← load item;
  user_rows ← lift (Numpy.index_rows (user_vector self) user_t user_v);
  item_rows ← lift (Numpy.index_rows (item_weights self) item_t item_v);
  products ← lift (Numpy.multiply user_rows item_rows);
  let preds := Numpy.sum_axis1 products in
  let preds := sigmoid self <$> preds in
  preds ← (if decide (0 < unknown_num)%nat then
             lift (Numpy.set_items preds unknown_index
                     (default_prediction self))
           else mret preds);
  if decide (length user_v = 1%nat) then
    match preds !! 0%nat with
    | Some p => mret (Scalar p)
    | None => lift (Raise IndexError)
    end
  else mret (Array preds).

End YouTubeMatch.

(** ** A selection routine to run the model on: selection by repeated
       minimum, which NumPy's introselect uses when [kth] is below 3 *)
Module Select.

Definition swap (p : list nat) (i j : nat) : list nat :=
  match p !! i, p !! j with
  | Some x, Some y => <[i:=y]> (<[j:=x]> p)
  | _, _ => p
  end.

(** Position of the first strict minimum of [a] over the indices in [rest],
    which start at position [k] of the index array. *)
Fixpoint min_pos (a : list Q) (k minidx : nat) (minval : Q) (rest : list nat)
  : nat :=
  match rest with
  | [] => minidx
  | x :: rest' =>
      let v := default 0%Q (a !! x) in
      if Qle_bool minval v then min_pos a (S k) minidx minval rest'
      else min_pos a (S k) k v rest'
  end.

Definition dumb_select (a : list Q) (kth : nat) : list nat :=
  foldl (λ p i,
      match p !! i with
      | Some x =>
          swap p i (min_pos a (S i) i (default 0%Q (a !! x)) (drop (S i) p))
      | None => p
      end)
    (seq 0 (length a)) (seq 0 (S kth)).

End Select.

(** ** Vocabulary of the statements *)
Module Props.
Import Numpy Store Base TopN.

(** [a] with the entries at the positions in [idx] replaced by [v]. *)
Definition mask {A} (idx : list nat) (v : A) (a : list A) : list A :=
  imap (λ j x, if decide (j ∈ idx) then v else x) a.

(** Position [i] of a batch holds a user id or an item id outside the
    vocabulary. *)
Definition flagged (self : model) (user_v item_v : list Z) (i : nat) : bool :=
  from_option (unknown_id (n_users self)) false (user_v !! i)
  || from_option (unknown_id (n_items self)) false (item_v !! i).

(** The batch an argument of [predict] stands for. *)
Definition denotes (s : state) (x : pyarg) (l : list Z) : Prop :=
  match x with
  | PyInt z => l = [z]
  | PyList l' => l = l'
  | NdArray a => arrays s !! a = Some l
  end.

(** A rational stand-in for the logistic function, to run the models on. *)
Definition sample_sigmoid (x : Q) : Q := ((1 + x / (1 + Qabs x)) / 2)%Q.

(** A small trained model: two users, three items; user 1 has consumed
    nothing. *)
Definition sample_model (t : task_t) (sampling : bool) : model :=
  mkModel t 2 3 0 5 (1 # 2) {[ 1%nat := [] ]} sampling 2
    (λ u i, default 0%Q ([9 # 10; 9 # 10; 1 # 10] !! i))
    [[1%Q]; [1%Q]] [[9 # 10]; [9 # 10]; [1 # 10]]
    sample_sigmoid Select.dumb_select.


Definition empty_state : state := mkState [] [].

(** A store holding a batch of four pairs: user ids at 0, item ids at 1. *)
Definition sample_batch : state :=
  mkState [[0; 5; 1; -1]%Z; [0; 1; 7; 2]%Z] [].

(** The score vector [recos] that [WideDeep.recommend_user] ranks: the
    output of the network for the user against every item, through the
    logistic function in a ranking task. *)
Definition widedeep_scores (self : model) (user : nat) : list Q :=
  match task self with
  | ranking => sigmoid self <$> (output self user <$> seq 0 (n_items self))
  | rating => output self user <$> seq 0 (n_items self)
  end.

(** The score vector [recos] that [YouTubeMatch.recommend_user] ranks. *)
Definition youtube_scores (self : model) (row : list Q) : list Q :=
  sigmoid self <$> (YouTubeMatch.dot row <$> item_weights self).

(** The outcome of [recommend_user] once the scores are selected from. *)
Definition returned (r : result (list (nat * Q)))
  : result (option (list (nat * Q))) :=
  match r with
  | Ok rank => Ok (Some rank)
  | Raise e => Raise e
  end.

(** [x] occurs in [l] at an earlier position than [y]. *)
Definition before {A} (l : list A) (x y : A) : Prop := [x; y] `sublist_of` l.

(** The index array [np.argpartition(recos, -count)] returns when it does
    not raise. *)
Definition partition_call (self : model) (recos : list Q) (count : nat)
  : list nat :=
  introselect self recos
    (match count with
     | O => 0
     | _ => length recos - count
     end).

(** What C3 asks of a returned list: of two entries with equal scores the
    one with the lower item id comes first. *)
Definition ties_by_ascending_id (res : list (nat * Q)) : Prop :=
  forall a sa b sb,
    before res (a, sa) (b, sb) -> (sa == sb)%Q -> (a < b)%nat.


(** Entries with equal scores come in the order the index array [part] has
    them. *)
Definition ties_in_selection_order (part : list nat) (res : list (nat * Q))
  : Prop :=
  forall a sa b sb,
    before res (a, sa) (b, sb) -> (sa == sb)%Q -> before part a b.

(** The body of the loop over [users]: look both lists up, then compute the
    value for the user. *)
Definition per_user {T} (f : list nat -> list nat -> result (npfloat T))
    (y_true_list y_reco_list : gmap nat (list nat)) (u : nat)
  : result (npfloat T) :=
  y_true ← getitem y_true_list u;
  y_reco ← getitem y_reco_list u;
  f y_true y_reco.



(** Two users with ground truth and recommendations, and a third without
    ground truth. *)
Definition sample_true : gmap nat (list nat) :=
  {[ 0%nat := [3; 7]%nat; 1%nat := [5]%nat; 2%nat := [] ]}.
Definition sample_reco : gmap nat (list nat) :=
  {[ 0%nat := [7; 1; 3]%nat; 1%nat := [5; 9; 2]%nat; 2%nat := [4; 8; 6]%nat ]}.

(** A value in the closed interval from 0 to 1. *)
Definition unit_value (v : npfloat Q) : Prop :=
  exists x, v = fin x /\ (0 <= x <= 1)%Q.

Definition unit_valueR (v : npfloat R) : Prop :=
  exists x, v = fin x /\ (0 <= x <= 1)%R.

(** The weight DCG gives to the relevance at position [i], counted from 0:
    the code leaves position 0 as it is and divides position [i >= 1] by
    [log2 (i + 1)]. *)
Definition discount (i : nat) : R :=
  match i with
  | O => 1
  | _ => / Numpy.log2 (INR (i + 1))
  end.

(** The sum of the entries of [l], each weighted by the discount of its
    position, positions counted from [s]. *)
Fixpoint weighted (s : nat) (l : list R) : R :=
  match l with
  | [] => 0
  | x :: l' => x * discount s + weighted (S s) l'
  end.

(** The sum of the [h] discounts from position [s] on. *)
Fixpoint top_discounts (s h : nat) : R :=
  match h with
  | O => 0
  | S h' => discount s + top_discounts (S s) h'
  end.

(** DCG as C1 words it, by position: [rel[0]] plus, for [i] from 1 to
    [k - 1], [rel[i] / log2 (i + 2)]. *)
Definition dcg_spec (rel : list R) (k : nat) : R :=
  (nth 0 rel 0
   + Numpy.sumR ((λ i, nth i rel 0 / Numpy.log2 (INR (i + 2))) <$> seq 1 (k - 1)))%R.

(** DCG by position, with the discount of the code: [rel[i] / log2 (i + 1)]
    for [i] from 1 to [k - 1]. *)
Definition dcg_by_position (rel : list R) (k : nat) : R :=
  (nth 0 rel 0
   + Numpy.sumR ((λ i, nth i rel 0 / Numpy.log2 (INR (i + 1))) <$> seq 1 (k - 1)))%R.

(** The example of C1: one user, ground truth 3 and 7, recommended 7, 1, 3. *)
Definition example_true : gmap nat (list nat) := {[ 0%nat := [3; 7]%nat ]}.
Definition example_reco : gmap nat (list nat) := {[ 0%nat := [7; 1; 3]%nat ]}.

(** The relevance indicator of a user over [k] recommendation positions: 1
    at a position that holds an item of the ground truth, 0 elsewhere. *)
Definition indicator (y_true y_reco : list nat) (k : nat) : list Q :=
  (λ i, match y_reco !! i with
        | Some x => if decide (x ∈ y_true) then 1%Q else 0%Q
        | None => 0%Q
        end) <$> seq 0 k.

(** The number of hits: the items of the ground truth that are
    recommended. *)
Definition hit_count (y_true y_reco : list nat) : nat :=
  length (filter (λ x, x ∈ y_reco) y_true).

(** The indicator sorted descending: as many ones as there are hits, then
    zeros. *)
Definition sorted_indicator (y_true y_reco : list nat) (k : nat) : list Q :=
  replicate (hit_count y_true y_reco) 1%Q
  ++ replicate (k - hit_count y_true y_reco) 0%Q.

(** NDCG of one user by position, with the discount of the code: 0 for a
    user without hits, and else the DCG of the indicator over the DCG of the
    indicator sorted descending. *)
Definition ndcg_by_position (y_true y_reco : list nat) (k : nat) : npfloat R :=
  if decide (hit_count y_true y_reco = 0%nat) then fin 0%R
  else fin (dcg_by_position (Q2R <$> indicator y_true y_reco k) k
            / dcg_by_position (Q2R <$> sorted_indicator y_true y_reco k) k)%R.

(** A user of whose three ground-truth items two are recommended. *)
Definition partial_true : gmap nat (list nat) := {[ 0%nat := [3; 7; 8]%nat ]}.

(** The contract of [np.argpartition(a, kth)] for the index array [p] it
    returns: [p] is a permutation of the positions of [a], and no entry of
    [a] at a position that [p] lists up to [kth] is above an entry at a
    position that [p] lists from [kth] on. *)
Definition is_partitioned (a : list Q) (kth : nat) (p : list nat) : bool :=
  bool_decide (p ≡ₚ seq 0 (length a))
  && forallb (λ x,
       forallb (λ y, Qle_bool (default 0%Q (a !! x)) (default 0%Q (a !! y)))
         (drop kth p))
       (take (S kth) p).

(** No item that was left out beats an item of [res]: an item that is
    neither consumed nor returned has at most the score of every returned
    item. *)
Definition best_unconsumed (recos : list Q) (consumed : list nat)
    (res : list (nat * Q)) : Prop :=
  forall j y, recos !! j = Some y -> j ∉ consumed -> j ∉ res.*1 ->
    forall i x, (i, x) ∈ res -> (y <= x)%Q.

(** The predictions as a list, in whichever form [YouTubeMatch.predict]
    returned them. *)
Definition as_array (r : YouTubeMatch.prediction) : list Q :=
  match r with
  | YouTubeMatch.Scalar x => [x]
  | YouTubeMatch.Array l => l
  end.

(** The score of [YouTubeMatch] for a pair of known ids: the logistic
    function of the dot product of the user's vector and the item's
    weights. *)
Definition youtube_score (self : model) (u v : Z) : Q :=
  sigmoid self
    (YouTubeMatch.dot (default [] (user_vector self !! Z.to_nat u))
       (default [] (item_weights self !! Z.to_nat v))).

(** The numbers a tensor holds. *)
Definition entries (t : tensor) : list Q :=
  match t with
  | Zero_d x => [x]
  | One_d l => l
  end.

End Props.

(** * Properties *)

Import Numpy Store Base TopN.

(** ** Index-array assignment *)

Lemma set_items_inv {A} (idx : list nat) : forall (a a' : list A) (v : A),
  set_items a idx v = Ok a' ->
  length a' = length a /\
  Forall (λ i, i < length a)%nat idx /\
  forall j x, a !! j = Some x ->
    a' !! j = Some (if decide (j ∈ idx) then v else x).
Proof.
  induction idx as [|i idx IH]; intros a a' v H; simpl in H.
  - injection H as <-. repeat split; [constructor|].
    intros j x Hj. case_decide as Hin; [|done].
    by apply not_elem_of_nil in Hin.
  - destruct (decide (i < length a)%nat) as [Hi|Hi]; [|discriminate].
    apply IH in H as (Hlen & Hall & Hlk).
    rewrite length_insert in Hlen, Hall.
    repeat split; [done | by constructor |].
    intros j x Hj. destruct (decide (i = j)) as [->|Hne].
    + rewrite (Hlk j v) by (by rewrite list_lookup_insert_eq).
      rewrite (decide_True (P := j ∈ j :: idx)) by apply list_elem_of_here.
      by case_decide.
    + rewrite (Hlk j x) by (by rewrite list_lookup_insert_ne).
      f_equal. case_decide as H1; case_decide as H2; try done.
      * exfalso. apply H2. by apply list_elem_of_further.
      * by apply elem_of_cons in H2 as [->|?].
Qed.

Lemma set_items_is_Ok {A} (idx : list nat) : forall (a : list A) (v : A),
  Forall (λ i, i < length a)%nat idx -> exists a', set_items a idx v = Ok a'.
Proof.
  induction idx as [|i idx IH]; intros a v H; simpl; [by eexists|].
  inversion H as [|? ? Hi Hall]; subst.
  rewrite decide_True by done. apply IH. by rewrite length_insert.
Qed.

(** ** The unknown-id guard *)

Lemma elem_of_where_from p : forall a k i,
  i ∈ where_from p k a <->
  exists j x, i = (k + j)%nat /\ a !! j = Some x /\ p x = true.
Proof.
  induction a as [|y a IH]; intros k i; simpl.
  - split; [by intros ?%not_elem_of_nil | by intros (j & x & _ & ? & _)].
  - destruct (p y) eqn:Hp.
    + rewrite elem_of_cons, IH. split.
      * intros [->|(j & x & -> & Hj & Hx)].
        -- exists 0%nat, y. split; [lia | done].
        -- exists (S j), x. split; [lia | done].
      * intros ([|j] & x & -> & Hj & Hx).
        -- left. lia.
        -- right. exists j, x. split; [lia | done].
    + rewrite IH. split.
      * intros (j & x & -> & Hj & Hx). exists (S j), x. split; [lia | done].
      * intros ([|j] & x & -> & Hj & Hx).
        -- simpl in Hj. congruence.
        -- exists j, x. split; [lia | done].
Qed.

Lemma where_from_lt p a k i :
  i ∈ where_from p k a -> (i < k + length a)%nat.
Proof.
  intros (j & x & -> & Hj & _)%elem_of_where_from.
  apply lookup_lt_Some in Hj. lia.
Qed.

Import Props.

Lemma lookup_mask {A} idx (v : A) a j :
  mask idx v a !! j = (λ x, if decide (j ∈ idx) then v else x) <$> a !! j.
Proof. unfold mask. by rewrite list_lookup_imap. Qed.

Lemma length_mask {A} idx (v : A) a : length (mask idx v a) = length a.
Proof. unfold mask. by rewrite length_imap. Qed.

Lemma set_items_mask {A} idx (a : list A) v :
  Forall (λ i, i < length a)%nat idx -> set_items a idx v = Ok (mask idx v a).
Proof.
  intros H. destruct (set_items_is_Ok idx a v H) as [a' Ha'].
  rewrite Ha'. f_equal. apply set_items_inv in Ha' as (Hlen & _ & Hlk).
  apply list_eq. intros j. rewrite lookup_mask.
  destruct (a !! j) as [x|] eqn:Hj; simpl.
  - by apply Hlk.
  - apply lookup_ge_None. rewrite Hlen. by apply lookup_ge_None.
Qed.

Lemma mask_idemp {A} idx (v : A) a : mask idx v (mask idx v a) = mask idx v a.
Proof.
  apply list_eq. intros j. rewrite !lookup_mask.
  destruct (a !! j); simpl; [|done]. by case_decide.
Qed.

Lemma mask_nil {A} (v : A) a : mask [] v a = a.
Proof.
  apply list_eq. intros j. rewrite lookup_mask.
  destruct (a !! j) as [x|]; [|done].
  change (Some (if decide (j ∈ []) then v else x) = Some x).
  case_decide as H; [|done]. by apply not_elem_of_nil in H.
Qed.

(** The positions [_check_unknown] collects. *)
Lemma unknown_index_spec (self : model) (uv iv : list Z) :
  let idx := elements
    (list_to_set (where_from (unknown_id (n_users self)) 0 uv)
     ∪ list_to_set (where_from (unknown_id (n_items self)) 0 iv) : gset nat) in
  NoDup idx /\
  (forall i, i ∈ idx <-> flagged self uv iv i = true) /\
  Forall (λ i, i < length uv `max` length iv)%nat idx.
Proof.
  intros idx. split; [apply NoDup_elements|].
  assert (Hin : forall i, i ∈ idx <-> flagged self uv iv i = true).
  { intros i. unfold idx, flagged.
    rewrite elem_of_elements, elem_of_union, !elem_of_list_to_set.
    rewrite !elem_of_where_from, orb_true_iff.
    split.
    - intros [H|H]; destruct H as (j & x & Hij & Hj & Hx);
        simpl in Hij; subst j; [left|right]; by rewrite Hj.
    - intros [H|H]; [left|right].
      + destruct (uv !! i) as [x|] eqn:Hi; [|done]. by exists i, x.
      + destruct (iv !! i) as [x|] eqn:Hi; [|done]. by exists i, x. }
  split; [done|].
  apply Forall_forall. intros i Hi%Hin. unfold flagged in Hi.
  apply orb_true_iff in Hi as [Hi|Hi].
  - destruct (uv !! i) eqn:E; [|done]. apply lookup_lt_Some in E. lia.
  - destruct (iv !! i) eqn:E; [|done]. apply lookup_lt_Some in E. lia.
Qed.

(** What [_check_unknown] does to the store and what it returns, for a
    batch whose two arrays have the same length. *)
Lemma check_unknown_run (self : model) (user item : loc) (s : state)
    (uv iv : list Z) :
  arrays s !! user = Some uv ->
  arrays s !! item = Some iv ->
  length uv = length iv ->
  exists idx s',
    _check_unknown self user item s = (Ok (length idx, idx, user, item), s') /\
    NoDup idx /\
    (forall i, i ∈ idx <-> flagged self uv iv i = true) /\
    arrays s' = <[item := mask idx 0%Z iv]> (<[user := mask idx 0%Z uv]> (arrays s)) /\
    (idx = [] -> s' = s) /\
    (idx <> [] -> exists e, trace s' = trace s ++ [e]).
Proof.
  intros Hu Hi Hlen.
  destruct (unknown_index_spec self uv iv) as (Hnd & Hin & Hlt).
  set (idx := elements _) in Hnd, Hin, Hlt.
  rewrite <- Hlen, Nat.max_id in Hlt.
  assert (Hlt' : Forall (λ i, i < length iv)%nat idx) by (by rewrite <- Hlen).
  unfold _check_unknown, mbind, M_bind, load. simpl.
  rewrite Hu, Hi. simpl. fold idx.
  destruct (decide (0 < length idx)%nat) as [Hpos|Hpos].
  - unfold setitems at 1. simpl. rewrite Hu. simpl.
    rewrite (set_items_mask idx uv 0%Z Hlt).
    unfold setitems at 1. simpl.
    assert (Hitem : exists w, <[user:=mask idx 0%Z uv]> (arrays s) !! item = Some w
                    /\ mask idx 0%Z w = mask idx 0%Z iv /\ length w = length iv).
    { destruct (decide (user = item)) as [->|Hne].
      - exists (mask idx 0%Z uv). rewrite list_lookup_insert_eq
          by (by apply lookup_lt_Some in Hu).
        assert (uv = iv) by congruence. subst iv.
        by rewrite mask_idemp, length_mask.
      - exists iv. by rewrite list_lookup_insert_ne. }
    destruct Hitem as (w & Hw & Hmask & Hwlen).
    rewrite Hw. simpl.
    rewrite (set_items_mask idx w 0%Z) by (by rewrite Hwlen).
    rewrite Hmask. unfold emit, mret, M_ret. simpl.
    eexists idx, _. split; [reflexivity|].
    split_and!; [done | done | done | | ].
    + intros Hnil. rewrite Hnil in Hpos. simpl in Hpos. lia.
    + intros _. by eexists.
  - unfold mret, M_ret. simpl.
    assert (idx = []) as Hnil by (destruct idx; [done | simpl in Hpos; lia]).
    exists idx, s. split; [by rewrite Hnil|].
    split_and!.
    all: try done.
    rewrite Hnil, !mask_nil.
    by rewrite (list_insert_id _ user uv Hu), (list_insert_id _ item iv Hi).
Qed.

Lemma check_unknown_lookup (self : model) (user item : loc) (s : state)
    (uv iv : list Z) :
  arrays s !! user = Some uv ->
  arrays s !! item = Some iv ->
  length uv = length iv ->
  exists idx s',
    _check_unknown self user item s = (Ok (length idx, idx, user, item), s') /\
    NoDup idx /\
    (forall i, i ∈ idx <-> flagged self uv iv i = true) /\
    arrays s' !! user = Some (mask idx 0%Z uv) /\
    arrays s' !! item = Some (mask idx 0%Z iv) /\
    (forall a, a <> user -> a <> item -> arrays s' !! a = arrays s !! a) /\
    length (arrays s') = length (arrays s) /\
    (idx = [] -> s' = s).
Proof.
  intros Hu Hi Hlen.
  destruct (check_unknown_run self user item s uv iv Hu Hi Hlen)
    as (idx & s' & Hrun & Hnd & Hin & Harr & Hnil & _).
  exists idx, s'. split_and!; try done.
  - rewrite Harr. destruct (decide (item = user)) as [->|Hne].
    + assert (uv = iv) by congruence. subst iv.
      rewrite list_lookup_insert_eq; [done|].
      rewrite length_insert. by apply lookup_lt_Some in Hu.
    + rewrite list_lookup_insert_ne by done.
      rewrite list_lookup_insert_eq; [done|]. by apply lookup_lt_Some in Hu.
  - rewrite Harr. rewrite list_lookup_insert_eq; [done|].
    rewrite length_insert. by apply lookup_lt_Some in Hi.
  - intros a Hau Hai. rewrite Harr.
    by rewrite !list_lookup_insert_ne.
  - by rewrite Harr, !length_insert.
Qed.

Lemma asarray_run (s : state) (x : pyarg) (l : list Z) :
  denotes s x l ->
  exists r s1,
    asarray x s = (Ok (r, dtype_of x), s1) /\
    arrays s1 !! r = Some (cast (dtype_of x) l) /\
    (forall y l', denotes s y l' -> denotes s1 y l').
Proof.
  assert (Hext : forall a (y : pyarg) l',
    denotes s y l' -> denotes (mkState (arrays s ++ [a]) (trace s)) y l').
  { intros a [z|l0|b] l' H; simpl in *; try done.
    by apply lookup_app_l_Some. }
  destruct x as [z|l0|a]; simpl; intros H.
  - subst l. eexists _, _. split; [reflexivity|]. split; [|by apply Hext].
    simpl. by rewrite lookup_app_r, Nat.sub_diag.
  - subst l. eexists _, _. split; [reflexivity|]. split; [|by apply Hext].
    simpl. by rewrite lookup_app_r, Nat.sub_diag.
  - exists a, s. by split.
Qed.

(** An argument that becomes an [int64] array holds its ids as they are. *)
Lemma asarray_int64 (s : state) (x : pyarg) (l : list Z) :
  denotes s x l ->
  dtype_of x = int64 ->
  exists r s1,
    asarray x s = (Ok (r, int64), s1) /\
    arrays s1 !! r = Some l /\
    (forall y l', denotes s y l' -> denotes s1 y l').
Proof.
  intros Hd Ht.
  destruct (asarray_run s x l Hd) as (r & s1 & Hrun & Harr & Hkeep).
  rewrite Ht in Hrun, Harr. by exists r, s1.
Qed.

Lemma mask_known (self : model) (uv iv : list Z) idx :
  (forall i, i ∈ idx <-> flagged self uv iv i = true) ->
  (0 < n_users self)%nat -> (0 < n_items self)%nat ->
  forallb (λ u, negb (unknown_id (n_users self) u)) (mask idx 0%Z uv) = true /\
  forallb (λ i, negb (unknown_id (n_items self) i)) (mask idx 0%Z iv) = true.
Proof.
  intros Hin Hnu Hni.
  assert (Hz : forall n, (0 < n)%nat -> unknown_id n 0 = false).
  { intros n Hn. unfold unknown_id.
    apply orb_false_iff. split; [apply Z.leb_gt; lia | done]. }
  split; apply forallb_forall; intros x Hx%list_elem_of_In;
    apply list_elem_of_lookup in Hx as [j Hj];
    rewrite lookup_mask in Hj;
    apply fmap_Some in Hj as (y & Hy & ->);
    case_decide as Hidx.
  - by rewrite Hz.
  - apply negb_true_iff. apply not_true_is_false. intros Hk.
    apply Hidx, Hin. unfold flagged. by rewrite Hy; simpl; rewrite Hk.
  - by rewrite Hz.
  - apply negb_true_iff. apply not_true_is_false. intros Hk.
    apply Hidx, Hin. unfold flagged. rewrite Hy; simpl. rewrite Hk.
    apply orb_true_r.
Qed.

(** ** C10: the guard writes into the arrays it is given *)

(** C10, as stated, fails: on a batch whose user array holds the unknown id
    5, [_check_unknown] overwrites that entry of the caller's array with 0. *)
Lemma check_unknown_mutates_caller_arrays :
  let self := sample_model rating false in
  arrays sample_batch !! 0%nat = Some [0; 5; 1; -1]%Z /\
  arrays sample_batch !! 1%nat = Some [0; 1; 7; 2]%Z /\
  exists s',
    _check_unknown self 0%nat 1%nat sample_batch
      = (Ok (3%nat, [2; 3; 1]%nat, 0%nat, 1%nat), s') /\
    arrays s' !! 0%nat = Some [0; 0; 0; 0]%Z /\
    arrays s' !! 1%nat = Some [0; 0; 0; 0]%Z.
Proof. simpl. split_and!; [done | done |]. eexists. by vm_compute. Qed.

(** C10, amended: [_check_unknown] writes in place.  For a batch of equal
    lengths it returns the very references it was given; afterwards both
    arrays hold 0 at exactly the recorded positions and their old entries
    elsewhere; every other array of the store is untouched, and when no id
    is unknown the state is unchanged altogether. *)
Theorem check_unknown_in_place (self : model) (user item : loc) (s : state)
    (uv iv : list Z) :
  arrays s !! user = Some uv ->
  arrays s !! item = Some iv ->
  length uv = length iv ->
  exists idx s',
    _check_unknown self user item s = (Ok (length idx, idx, user, item), s') /\
    (forall i, i ∈ idx <-> flagged self uv iv i = true) /\
    arrays s' !! user = Some (mask idx 0%Z uv) /\
    arrays s' !! item = Some (mask idx 0%Z iv) /\
    (forall a, a <> user -> a <> item -> arrays s' !! a = arrays s !! a) /\
    (idx = [] -> s' = s).
Proof.
  intros Hu Hi Hlen.
  destruct (check_unknown_lookup self user item s uv iv Hu Hi Hlen)
    as (idx & s' & Hrun & _ & Hin & Hus & His & Hfr & _ & Hnil).
  by exists idx, s'.
Qed.

Lemma check_unknown_in_place_witness :
  exists idx s',
    _check_unknown (sample_model rating false) 0%nat 1%nat sample_batch
      = (Ok (length idx, idx, 0%nat, 1%nat), s') /\
    (forall i, i ∈ idx <->
       flagged (sample_model rating false)
         [0; 5; 1; -1]%Z [0; 1; 7; 2]%Z i = true) /\
    arrays s' !! 0%nat = Some (mask idx 0%Z [0; 5; 1; -1]%Z) /\
    arrays s' !! 1%nat = Some (mask idx 0%Z [0; 1; 7; 2]%Z) /\
    (forall a, a <> 0%nat -> a <> 1%nat ->
       arrays s' !! a = arrays sample_batch !! a) /\
    (idx = [] -> s' = sample_batch).
Proof.
  apply (check_unknown_in_place (sample_model rating false) 0%nat 1%nat
           sample_batch); reflexivity.
Defined.

(** ** C8: a batch with unknown ids, sanitised and scored *)

Lemma squeeze_array (l : list Q) :
  length l <> 1%nat -> squeeze l = One_d l.
Proof. by destruct l as [|x [|y l]]. Qed.

Lemma squeeze_scalar (l : list Q) :
  length l = 1%nat -> exists x, l = [x] /\ squeeze l = Zero_d x.
Proof. destruct l as [|x [|y l]]; [done | by exists x | done]. Qed.

Lemma tensor_map_squeeze (f : Q -> Q) (l : list Q) :
  tensor_map f (squeeze l) = squeeze (f <$> l).
Proof. by destruct l as [|x [|y l]]. Qed.

(** What [WideDeep.predict] does on a batch of pairs held in [int64]
    arrays: the ids are sanitised, the squeezed output of the network goes
    through [np.clip] or the logistic function, and when an id was unknown
    [default_prediction] is assigned into it. *)
Lemma predict_run (other : list Z -> list Z -> result tensor) (self : model)
    (user item : pyarg) (s : state) (uv iv : list Z) :
  (0 < n_users self)%nat ->
  (0 < n_items self)%nat ->
  denotes s user uv ->
  denotes s item iv ->
  dtype_of user = int64 ->
  dtype_of item = int64 ->
  length uv = length iv ->
  exists idx user_r item_r s',
    (forall i, i ∈ idx <-> flagged self uv iv i = true) /\
    Forall (λ i, i < length uv)%nat idx /\
    arrays s' !! user_r = Some (mask idx 0%Z uv) /\
    arrays s' !! item_r = Some (mask idx 0%Z iv) /\
    (forall a, user = NdArray a -> user_r = a) /\
    (forall a, item = NdArray a -> item_r = a) /\
    WideDeep.predict other self user item s
    = (let scores :=
         squeeze
           ((match task self with
             | rating => WideDeep.clip (lower_bound self) (upper_bound self)
             | ranking => sigmoid self
             end)
            <$> zip_with (λ u i, output self (Z.to_nat u) (Z.to_nat i))
                  (mask idx 0%Z uv) (mask idx 0%Z iv)) in
       if decide (0 < length idx)%nat
       then tensor_set_items scores idx (default_prediction self)
       else Ok scores, s').
Proof.
  intros Hnu Hni Hdu Hdi Htu Hti Hlen.
  destruct (asarray_int64 s user uv Hdu Htu) as (ur & s1 & Hau & Hur & Hkeep1).
  destruct (asarray_int64 s1 item iv (Hkeep1 _ _ Hdi) Hti)
    as (ir & s2 & Hai & Hir & Hkeep2).
  assert (Hur2 : arrays s2 !! ur = Some uv) by apply (Hkeep2 (NdArray ur) uv Hur).
  destruct (check_unknown_lookup self ur ir s2 uv iv Hur2 Hir Hlen)
    as (idx & s' & Hrun & Hnd & Hin & Hus & His & _ & _ & _).
  destruct (mask_known self uv iv idx Hin Hnu Hni) as [Hku Hki].
  exists idx, ur, ir, s'. split_and!; [done | | done | done | | |].
  - apply Forall_forall. intros i Hi%Hin.
    unfold flagged in Hi. apply orb_true_iff in Hi as [Hi|Hi].
    + destruct (uv !! i) eqn:E; [|done]. by apply lookup_lt_Some in E.
    + destruct (iv !! i) eqn:E; [|done]. apply lookup_lt_Some in E. lia.
  - intros a ->. simpl in Hau. by injection Hau as <- _.
  - intros a ->. simpl in Hai. by injection Hai as <- _.
  - unfold WideDeep.predict, mbind, M_bind.
    rewrite Hau, Hai, Hrun. unfold load, lift. rewrite Hus, His. simpl.
    rewrite decide_False by (rewrite !length_mask; intros ?; done).
    rewrite Hku, Hki. simpl.
    destruct (task self); rewrite tensor_map_squeeze;
      by destruct (decide (0 < length idx)%nat).
Qed.

(** C8 (the code departs from it on a single pair): for a batch of pairs
    held in [int64] arrays, with a vocabulary that is not empty,
    [_check_unknown] records every position at which the user id or the
    item id is outside the vocabulary and overwrites both ids there with 0.
    Let [preds] be the predictions C8 describes, one per pair, with
    [default_prediction] at every recorded position.  When the batch does
    not consist of exactly one pair, [WideDeep.predict] returns [preds], as
    C8 says.  For a batch of one pair the squeezed output of the network is
    a scalar: [predict] returns a bare float when both ids are known, and
    when one of them is unknown the assignment
    [preds[unknown_index] = self.default_prediction] raises [TypeError],
    after the ids have been overwritten. *)
Theorem predict_after_sanitizing (other : list Z -> list Z -> result tensor)
    (self : model) (user item : pyarg) (s : state) (uv iv : list Z) :
  (0 < n_users self)%nat ->
  (0 < n_items self)%nat ->
  denotes s user uv ->
  denotes s item iv ->
  dtype_of user = int64 ->
  dtype_of item = int64 ->
  length uv = length iv ->
  exists idx user_r item_r preds s',
    (forall i, i ∈ idx <-> flagged self uv iv i = true) /\
    arrays s' !! user_r = Some (mask idx 0%Z uv) /\
    arrays s' !! item_r = Some (mask idx 0%Z iv) /\
    length preds = length uv /\
    (forall i, i ∈ idx -> preds !! i = Some (default_prediction self)) /\
    WideDeep.predict other self user item s
    = (match preds with
       | [x] => if decide (idx = []) then Ok (Zero_d x) else Raise TypeError
       | _ => Ok (One_d preds)
       end, s').
Proof.
  intros Hnu Hni Hdu Hdi Htu Hti Hlen.
  destruct (predict_run other self user item s uv iv Hnu Hni Hdu Hdi Htu Hti
              Hlen)
    as (idx & ur & ir & s' & Hin & Hlt & Hus & His & _ & _ & Hrun).
  set (post := match task self with
               | rating => WideDeep.clip (lower_bound self) (upper_bound self)
               | ranking => sigmoid self
               end) in Hrun.
  set (scores := post <$> zip_with (λ u i, output self (Z.to_nat u) (Z.to_nat i))
                            (mask idx 0%Z uv) (mask idx 0%Z iv)) in Hrun.
  assert (Hslen : length scores = length uv).
  { unfold scores. rewrite length_fmap, length_zip_with, !length_mask. lia. }
  rewrite <- Hslen in Hlt.
  set (preds := mask idx (default_prediction self) scores).
  assert (Hplen : length preds = length uv)
    by (unfold preds; by rewrite length_mask).
  exists idx, ur, ir, preds, s'. split_and!; [done | done | done | done | |].
  - intros i Hi. unfold preds. rewrite lookup_mask.
    rewrite Forall_forall in Hlt.
    destruct (lookup_lt_is_Some_2 scores i (Hlt i Hi)) as [x ->]. simpl.
    by rewrite decide_True.
  - rewrite Hrun. cbv zeta. f_equal.
    destruct (decide (length uv = 1%nat)) as [H1|H1].
    + destruct (squeeze_scalar scores) as (x & Hx & ->); [by rewrite Hslen|].
      destruct (decide (0 < length idx)%nat) as [Hpos|Hpos].
      * destruct preds as [|p [|p' l]]; simpl in Hplen; try lia.
        rewrite decide_False; [done|]. intros ->. simpl in Hpos. lia.
      * assert (idx = []) as Hnil
          by (destruct idx; [done | simpl in Hpos; lia]).
        unfold preds. rewrite Hnil, mask_nil, Hx. by rewrite decide_True.
    + rewrite squeeze_array by (by rewrite Hslen).
      assert (match preds with
              | [x] => if decide (idx = []) then Ok (Zero_d x)
                       else Raise TypeError
              | _ => Ok (One_d preds)
              end = Ok (One_d preds)) as ->.
      { destruct preds as [|p [|p' l]]; simpl in Hplen; [done | lia | done]. }
      destruct (decide (0 < length idx)%nat) as [Hpos|Hpos].
      * simpl. by rewrite (set_items_mask idx scores _ Hlt).
      * assert (idx = []) as Hnil
          by (destruct idx; [done | simpl in Hpos; lia]).
        unfold preds. by rewrite Hnil, mask_nil.
Qed.

Lemma predict_after_sanitizing_witness :
  exists idx user_r item_r preds s',
    (forall i, i ∈ idx <->
       flagged (sample_model ranking false) [5]%Z [0]%Z i = true) /\
    arrays s' !! user_r = Some (mask idx 0%Z [5]%Z) /\
    arrays s' !! item_r = Some (mask idx 0%Z [0]%Z) /\
    length preds = length [5]%Z /\
    (forall i, i ∈ idx ->
       preds !! i = Some (default_prediction (sample_model ranking false))) /\
    WideDeep.predict (λ _ _, Raise ValueError) (sample_model ranking false)
      (PyInt 5) (PyInt 0) empty_state
    = (match preds with
       | [x] => if decide (idx = []) then Ok (Zero_d x) else Raise TypeError
       | _ => Ok (One_d preds)
       end, s').
Proof.
  apply (predict_after_sanitizing (λ _ _, Raise ValueError)
           (sample_model ranking false) (PyInt 5) (PyInt 0) empty_state);
    simpl; first [lia | reflexivity].
Defined.

(** C8 at a single pair: user 5 is unknown to a model of two users;
    [predict(5, 0)] overwrites the id with 0, prints the diagnostic and then
    raises [TypeError], whatever the scoring interface does with other
    dtypes. *)
Lemma predict_single_unknown_pair_raises
    (other : list Z -> list Z -> result tensor) :
  WideDeep.predict other (sample_model ranking false) (PyInt 5) (PyInt 0)
    empty_state
  = (Raise TypeError,
     mkState [[0]; [0]]%Z [PrintUnknownInteractions 1 (Some [5]%Z) None]).
Proof. reflexivity. Qed.

(** ** Single-user recommendation: the guard and the selection *)

Lemma check_unknown_user_known (self : model) (user : Z) (s : state) :
  (0 <= user < Z.of_nat (n_users self))%Z ->
  _check_unknown_user self user s = (Ok (Some user), s).
Proof. intros H. unfold _check_unknown_user. by rewrite decide_True. Qed.

Lemma length_widedeep_scores (self : model) (user : nat) :
  length (widedeep_scores self user) = n_items self.
Proof.
  unfold widedeep_scores.
  destruct (task self); by rewrite ?length_fmap, length_seq.
Qed.

(** What [WideDeep.recommend_user] has in [recos]: the squeezed scores. *)
Lemma widedeep_recos (self : model) (user : nat) :
  match task self with
  | ranking => tensor_map (sigmoid self) (WideDeep.run_output_all self user)
  | rating => WideDeep.run_output_all self user
  end = squeeze (widedeep_scores self user).
Proof.
  unfold WideDeep.run_output_all, widedeep_scores.
  destruct (task self); by rewrite ?tensor_map_squeeze.
Qed.

(** With a catalog that does not consist of one item, [recos] is the score
    vector. *)
Lemma widedeep_recommend_known (self : model) (user : Z) (n_rec : nat)
    (s : state) (consumed : list nat) :
  (0 < user < Z.of_nat (n_users self))%Z ->
  user_consumed self !! Z.to_nat user = Some consumed ->
  n_items self <> 1%nat ->
  WideDeep.recommend_user self user n_rec s =
    (returned (select self (widedeep_scores self (Z.to_nat user))
                 consumed n_rec), s).
Proof.
  intros Hu Hc Hn. unfold WideDeep.recommend_user, mbind, M_bind.
  rewrite check_unknown_user_known by lia.
  assert (py_not (Some user) = false) as -> by (apply Z.eqb_neq; lia).
  unfold lift, getitem. simpl. rewrite Hc.
  rewrite widedeep_recos, squeeze_array by (by rewrite length_widedeep_scores).
  by destruct (select _ _ _ _).
Qed.

(** With a catalog of one item, [recos] is a scalar. *)
Lemma widedeep_recommend_one_item (self : model) (user : Z) (n_rec : nat)
    (s : state) (consumed : list nat) :
  (0 < user < Z.of_nat (n_users self))%Z ->
  user_consumed self !! Z.to_nat user = Some consumed ->
  n_items self = 1%nat ->
  exists x,
    WideDeep.recommend_user self user n_rec s =
      (returned (select_scalar self x consumed n_rec), s).
Proof.
  intros Hu Hc Hn. unfold WideDeep.recommend_user, mbind, M_bind.
  rewrite check_unknown_user_known by lia.
  assert (py_not (Some user) = false) as -> by (apply Z.eqb_neq; lia).
  unfold lift, getitem. simpl. rewrite Hc.
  rewrite widedeep_recos.
  destruct (squeeze_scalar (widedeep_scores self (Z.to_nat user)))
    as (x & _ & ->); [by rewrite length_widedeep_scores|].
  exists x. by destruct (select_scalar _ _ _ _).
Qed.

Lemma youtube_recommend_known (self : model) (user : Z) (n_rec : nat)
    (s : state) (consumed : list nat) (row : list Q) :
  (0 < user < Z.of_nat (n_users self))%Z ->
  user_consumed self !! Z.to_nat user = Some consumed ->
  user_vector self !! Z.to_nat user = Some row ->
  YouTubeMatch.recommend_user self user n_rec s =
    (returned (select self (youtube_scores self row) consumed n_rec), s).
Proof.
  intros Hu Hc Hr. unfold YouTubeMatch.recommend_user, mbind, M_bind.
  rewrite check_unknown_user_known by lia.
  assert (py_not (Some user) = false) as -> by (apply Z.eqb_neq; lia).
  unfold lift, getitem. simpl. rewrite Hc, Hr.
  fold (youtube_scores self row).
  by destruct (select _ _ _ _).
Qed.

Lemma length_youtube_scores (self : model) (row : list Q) :
  length (youtube_scores self row) = length (item_weights self).
Proof. unfold youtube_scores. by rewrite !length_fmap. Qed.

Lemma select_window_too_large (self : model) (recos : list Q)
    (consumed : list nat) (n_rec : nat) :
  (0 < length recos < n_rec + length consumed)%nat ->
  select self recos consumed n_rec = Raise ValueError.
Proof.
  intros H. unfold select, argpartition.
  assert ((- Z.of_nat (n_rec + length consumed) <? 0)%Z = true) as ->
    by (apply Z.ltb_lt; lia).
  rewrite decide_True; [done|]. lia.
Qed.

Lemma select_scalar_window_too_large (self : model) (x : Q)
    (consumed : list nat) (n_rec : nat) :
  (1 < n_rec + length consumed)%nat ->
  select_scalar self x consumed n_rec = Raise ValueError.
Proof.
  intros H. unfold select_scalar, argpartition.
  assert ((- Z.of_nat (n_rec + length consumed) <? 0)%Z = true) as ->
    by (apply Z.ltb_lt; lia).
  rewrite decide_True; [done|]. simpl. lia.
Qed.

(** ** C4: user 0 *)

(** C4 (the code departs from it): user 0 passes [_check_unknown_user] as a
    known user, and yet [recommend_user] returns no result for it, silently:
    [if not user] takes the id 0 for the missing result. *)
Theorem recommend_user_drops_user_zero (self : model) (n_rec : nat)
    (s : state) :
  (0 < n_users self)%nat ->
  _check_unknown_user self 0 s = (Ok (Some 0%Z), s) /\
  WideDeep.recommend_user self 0 n_rec s = (Ok None, s) /\
  YouTubeMatch.recommend_user self 0 n_rec s = (Ok None, s).
Proof.
  intros Hn.
  assert (Hc : _check_unknown_user self 0 s = (Ok (Some 0%Z), s))
    by (apply check_unknown_user_known; lia).
  split; [done|].
  unfold WideDeep.recommend_user, YouTubeMatch.recommend_user, mbind, M_bind.
  by rewrite Hc.
Qed.

Lemma recommend_user_drops_user_zero_witness :
  _check_unknown_user (sample_model ranking false) 0 empty_state
    = (Ok (Some 0%Z), empty_state) /\
  WideDeep.recommend_user (sample_model ranking false) 0 2 empty_state
    = (Ok None, empty_state) /\
  YouTubeMatch.recommend_user (sample_model ranking false) 0 2 empty_state
    = (Ok None, empty_state).
Proof.
  apply (recommend_user_drops_user_zero (sample_model ranking false) 2
           empty_state).
  simpl. lia.
Defined.

(** ** C2: a selection window larger than the catalog *)

(** C2, as stated, fails: with three items and a request for four,
    [np.argpartition] is asked for position -4 of an array of length 3 and
    [recommend_user] raises. *)
Lemma recommend_user_window_raises :
  WideDeep.recommend_user (sample_model rating false) 1 4 empty_state
    = (Raise ValueError, empty_state) /\
  YouTubeMatch.recommend_user (sample_model rating false) 1 4 empty_state
    = (Raise ValueError, empty_state).
Proof. split; reflexivity. Qed.

(** C2, amended: nothing clamps the window.  For a known user other than 0
    and a non-empty catalog, [n_rec + len(consumed) > n_items] makes
    [recommend_user] raise [ValueError], in both models, with the state left
    as it was. *)
Theorem recommend_user_window_exceeds_catalog (self : model) (user : Z)
    (n_rec : nat) (s : state) (consumed : list nat) (row : list Q) :
  (0 < user < Z.of_nat (n_users self))%Z ->
  user_consumed self !! Z.to_nat user = Some consumed ->
  user_vector self !! Z.to_nat user = Some row ->
  length (item_weights self) = n_items self ->
  (0 < n_items self < n_rec + length consumed)%nat ->
  WideDeep.recommend_user self user n_rec s = (Raise ValueError, s) /\
  YouTubeMatch.recommend_user self user n_rec s = (Raise ValueError, s).
Proof.
  intros Hu Hc Hr Hw Hn. split.
  - destruct (decide (n_items self = 1%nat)) as [H1|H1].
    + destruct (widedeep_recommend_one_item self user n_rec s consumed
                  Hu Hc H1) as (x & ->).
      rewrite select_scalar_window_too_large; [done | lia].
    + rewrite (widedeep_recommend_known self user n_rec s consumed Hu Hc H1).
      rewrite select_window_too_large; [done|].
      by rewrite length_widedeep_scores.
  - rewrite (youtube_recommend_known self user n_rec s consumed row Hu Hc Hr).
    rewrite select_window_too_large; [done|].
    by rewrite length_youtube_scores, Hw.
Qed.

Lemma recommend_user_window_exceeds_catalog_witness :
  WideDeep.recommend_user (sample_model ranking false) 1 4 empty_state
    = (Raise ValueError, empty_state) /\
  YouTubeMatch.recommend_user (sample_model ranking false) 1 4 empty_state
    = (Raise ValueError, empty_state).
Proof.
  apply (recommend_user_window_exceeds_catalog (sample_model ranking false)
           1 4 empty_state [] [1%Q]); simpl; first [lia | reflexivity].
Defined.

(** ** C9: the sampling guard of [fit] *)

(** C9, as stated, fails: in a ranking task without batch sampling, [fit] on
    data that was never sampled does not raise, and the metrics are printed
    after each epoch. *)
Lemma fit_unsampled_without_batch_sampling :
  WideDeep.fit (sample_model ranking false) (mkData false) 2 empty_state
    = (Ok tt,
       mkState []
         [ShowStartTime; BuildModel; BuildTrainOps;
          TrainEpoch 1 false; PrintMetrics 1;
          TrainEpoch 2 false; PrintMetrics 2]).
Proof. reflexivity. Qed.

(** C9, amended: the guard is there for a ranking task trained with batch
    sampling.  Then, when the metrics are to be printed after the epochs
    ([verbose > 1]) and the data has not been sampled,
    [_check_has_sampled] raises [NotSamplingError] and [fit] stops with it
    once the graph is built, before any epoch is trained or evaluated; the
    arrays of the store are not touched. *)
Theorem fit_guards_unsampled_data (self : model) (train_data : dataset)
    (verbose : Z) (s : state) :
  task self = ranking ->
  batch_sampling self = true ->
  has_sampled train_data = false ->
  (1 < verbose)%Z ->
  _check_has_sampled train_data verbose = Raise NotSamplingError /\
  WideDeep.fit self train_data verbose s =
    (Raise NotSamplingError,
     mkState (arrays s)
       (trace s ++ [ShowStartTime; BuildModel; BuildTrainOps])).
Proof.
  intros Ht Hb Hs Hv.
  assert (Hc : _check_has_sampled train_data verbose = Raise NotSamplingError).
  { unfold _check_has_sampled. rewrite Hs. simpl.
    by apply Z.ltb_lt in Hv as ->. }
  split; [done|].
  unfold WideDeep.fit, mbind, M_bind, emit, lift. simpl.
  rewrite Ht, Hb, Hc. by rewrite <- !app_assoc.
Qed.

Lemma fit_guards_unsampled_data_witness :
  _check_has_sampled (mkData false) 2 = Raise NotSamplingError /\
  WideDeep.fit (sample_model ranking true) (mkData false) 2 empty_state =
    (Raise NotSamplingError,
     mkState (arrays empty_state)
       (trace empty_state ++ [ShowStartTime; BuildModel; BuildTrainOps])).
Proof.
  apply (fit_guards_unsampled_data (sample_model ranking true) (mkData false)
           2 empty_state); first [reflexivity | lia].
Defined.

(** ** Sorting by insertion: permutation, order and stability *)
Section Sorting.
Context {A : Type} (leb : A -> A -> bool).
Hypothesis leb_total : forall x y, leb x y = false -> leb y x = true.
Hypothesis leb_trans : forall x y z,
  leb x y = true -> leb y z = true -> leb x z = true.

Lemma insert_by_perm (x : A) (l : list A) : insert_by leb x l ≡ₚ x :: l.
Proof.
  induction l as [|y l IH]; simpl; [done|].
  destruct (leb x y); [done|]. rewrite IH. apply Permutation_swap.
Qed.

Lemma sort_by_perm (l : list A) : sort_by leb l ≡ₚ l.
Proof.
  induction l as [|x l IH]; simpl; [done|].
  unfold sort_by in *. simpl. by rewrite insert_by_perm, IH.
Qed.

Lemma insert_by_sorted (x : A) (l : list A) :
  StronglySorted (λ a b, leb a b = true) l ->
  StronglySorted (λ a b, leb a b = true) (insert_by leb x l).
Proof.
  induction 1 as [|y l Hs IH Hy]; simpl.
  - repeat constructor.
  - destruct (leb x y) eqn:Hxy.
    + constructor; [by constructor|].
      constructor; [done|].
      eapply Forall_impl; [exact Hy|]. intros z Hz. by eapply leb_trans.
    + constructor; [done|].
      rewrite insert_by_perm. constructor; [by apply leb_total | done].
Qed.

Lemma sort_by_sorted (l : list A) :
  StronglySorted (λ a b, leb a b = true) (sort_by leb l).
Proof.
  induction l as [|x l IH]; [constructor|].
  by apply insert_by_sorted.
Qed.

Lemma sorted_before (l : list A) (x y : A) :
  StronglySorted (λ a b, leb a b = true) l ->
  before l x y -> leb x y = true.
Proof.
  unfold before. induction 1 as [|a l Hs IH Ha]; intros Hb.
  - by apply sublist_nil_r in Hb.
  - apply sublist_cons_r in Hb as [Hb|(l' & [= -> <-] & Hy)]; [by apply IH|].
    apply singleton_sublist_l in Hy.
    rewrite Forall_forall in Ha. by apply Ha.
Qed.

(** Where a pair of an insertion comes from. *)
Lemma insert_by_before (a : A) (l : list A) (x y : A) :
  before (insert_by leb a l) x y ->
  before l x y \/ (x = a /\ y ∈ l) \/ (y = a /\ x ∈ l /\ leb a x = false).
Proof.
  unfold before. induction l as [|z l IH]; simpl; intros Hb.
  - apply sublist_cons_r in Hb as [Hb|(l' & [= -> <-] & Hy)].
    + by apply sublist_nil_r in Hb.
    + by apply sublist_nil_r in Hy.
  - destruct (leb a z) eqn:Haz.
    + apply sublist_cons_r in Hb as [Hb|(l' & [= -> <-] & Hy)]; [by left|].
      right; left. split; [done|]. by apply singleton_sublist_l.
    + apply sublist_cons_r in Hb as [Hb|(l' & [= -> <-] & Hy)].
      * destruct (IH Hb) as [H|[[-> H]|(-> & H & Hl)]].
        -- left. by apply sublist_cons.
        -- right; left. split; [done|]. by apply list_elem_of_further.
        -- right; right. split; [done|].
           split; [by apply list_elem_of_further | done].
      * apply singleton_sublist_l in Hy.
        apply (elem_of_Permutation_proper _ _ _ (insert_by_perm a l)) in Hy.
        apply elem_of_cons in Hy as [->|Hy].
        -- right; right. split; [done|].
           split; [apply list_elem_of_here | done].
        -- left. apply sublist_skip. by apply singleton_sublist_l.
Qed.

(** Stability: two entries that the order does not separate keep the
    relative position they had before sorting. *)
Lemma sort_by_stable (l : list A) (x y : A) :
  before (sort_by leb l) x y -> leb y x = true -> before l x y.
Proof.
  induction l as [|a l IH]; intros Hb Hyx.
  - by apply sublist_nil_r in Hb.
  - change (sort_by leb (a :: l)) with (insert_by leb a (sort_by leb l)) in Hb.
    destruct (insert_by_before _ _ _ _ Hb) as [H|[[-> H]|(-> & H & Hl)]].
    + apply sublist_cons. by apply IH.
    + apply sublist_skip, singleton_sublist_l.
      by rewrite <- (sort_by_perm l).
    + congruence.
Qed.
End Sorting.

(** ** The selection behind [recommend_user] *)

Lemma by_neg_score_total (x y : nat * Q) :
  by_neg_score x y = false -> by_neg_score y x = true.
Proof.
  unfold by_neg_score. intros H. apply Qle_bool_iff.
  destruct (Qlt_le_dec (- y.2) (- x.2)) as [Hlt|Hle]; [by apply Qlt_le_weak|].
  apply Qle_bool_iff in Hle. congruence.
Qed.

Lemma by_neg_score_trans (x y z : nat * Q) :
  by_neg_score x y = true -> by_neg_score y z = true ->
  by_neg_score x z = true.
Proof.
  unfold by_neg_score. rewrite !Qle_bool_iff. apply Qle_trans.
Qed.

Lemma by_neg_score_le (x y : nat * Q) :
  by_neg_score x y = true <-> (y.2 <= x.2)%Q.
Proof.
  unfold by_neg_score. rewrite Qle_bool_iff. split; intros H.
  - apply Qopp_le_compat in H. by rewrite !Qopp_involutive in H.
  - by apply Qopp_le_compat.
Qed.

Lemma take_items_ok (a : list Q) (ids : list nat) :
  Forall (λ i, i < length a)%nat ids ->
  exists scores,
    take_items a ids = Ok scores /\
    length scores = length ids /\
    forall i x, (i, x) ∈ zip ids scores -> a !! i = Some x.
Proof.
  induction 1 as [|i ids Hi _ IH]; simpl.
  - exists []. split_and!; [done | done |]. intros i x H. by apply not_elem_of_nil in H.
  - destruct (lookup_lt_is_Some_2 a i Hi) as [x Hx].
    destruct IH as (scores & -> & Hlen & Hin). rewrite Hx. simpl.
    exists (x :: scores). split_and!; [done | by simpl; rewrite Hlen |].
    intros j y [[= -> ->]|H]%elem_of_cons; [done | by apply Hin].
Qed.

Lemma argpartition_in_window (self : model) (recos : list Q) (count : nat) :
  (count <= length recos)%nat ->
  argpartition self recos (- Z.of_nat count)
    = Ok (partition_call self recos count).
Proof.
  intros Hc. unfold argpartition, partition_call.
  destruct count as [|c].
  - simpl. rewrite decide_False by lia. done.
  - assert ((- Z.of_nat (S c) <? 0)%Z = true) as -> by (apply Z.ltb_lt; lia).
    rewrite decide_False by lia. do 2 f_equal. lia.
Qed.

Lemma slice_from_window {A} (part : list A) (count : nat) :
  (count <= length part)%nat ->
  slice_from part (- Z.of_nat count)
    = drop (match count with O => 0 | _ => length part - count end) part.
Proof.
  intros Hc. unfold slice_from. destruct count as [|c].
  - simpl. f_equal. lia.
  - assert ((- Z.of_nat (S c) <? 0)%Z = true) as -> by (apply Z.ltb_lt; lia).
    f_equal. lia.
Qed.

Lemma length_filter_split {A} (P : A -> Prop) `{!forall x, Decision (P x)}
    (l : list A) :
  (length (filter P l) + length (filter (λ x, ¬ P x) l) = length l)%nat.
Proof.
  rewrite <- length_app. apply Permutation_length, filter_app_complement.
Qed.

(** Everything the claims need about the list [select] returns, for a
    window inside the catalog and an index array that is a permutation of
    the item ids. *)
Lemma select_spec (self : model) (recos : list Q) (consumed : list nat)
    (n_rec : nat) :
  (n_rec + length consumed <= length recos)%nat ->
  partition_call self recos (n_rec + length consumed)
    ≡ₚ seq 0 (length recos) ->
  exists res,
    select self recos consumed n_rec = Ok res /\
    length res = n_rec /\
    NoDup res.*1 /\
    (forall i x, (i, x) ∈ res -> (i ∉ consumed) /\ (recos !! i = Some x)) /\
    (forall a sa b sb, before res (a, sa) (b, sb) -> (sb <= sa)%Q) /\
    (forall a sa b sb, before res (a, sa) (b, sb) -> (sa == sb)%Q ->
       before (partition_call self recos (n_rec + length consumed)) a b).
Proof.
  intros Hwin Hperm.
  set (count := (n_rec + length consumed)%nat) in *.
  set (part := partition_call self recos count) in *.
  assert (Hplen : length part = length recos)
    by (by rewrite (Permutation_length Hperm), length_seq).
  set (ids := drop (match count with O => 0 | _ => length part - count end)%nat part).
  assert (Hsub : ids `sublist_of` part) by apply sublist_drop.
  assert (Hnd : NoDup ids).
  { eapply sublist_NoDup; [|exact Hsub]. rewrite Hperm. apply NoDup_seq. }
  assert (Hlt : Forall (λ i, i < length recos)%nat ids).
  { apply Forall_forall. intros i Hi.
    eapply elem_of_sublist in Hi; [|exact Hsub].
    rewrite Hperm in Hi. apply elem_of_seq in Hi. lia. }
  assert (Hidlen : (count <= length ids)%nat).
  { unfold ids. rewrite length_drop. destruct count; lia. }
  destruct (take_items_ok recos ids Hlt) as (scores & Htake & Hslen & Hsc).
  set (pairs := zip ids scores).
  set (rank := sorted_by_neg_score pairs).
  set (keep := λ rec : nat * Q, rec.1 ∉ consumed).
  assert (Hfst : pairs.*1 = ids) by (apply fst_zip; lia).
  assert (Hrank : rank ≡ₚ pairs) by apply sort_by_perm.
  exists (take n_rec (filter keep rank)).
  assert (Hres : take n_rec (filter keep rank) `sublist_of` rank).
  { etrans; [apply sublist_take | apply sublist_filter]. }
  split_and!.
  - unfold select. fold count.
    rewrite argpartition_in_window by done. simpl. fold part.
    rewrite slice_from_window by lia. fold ids.
    rewrite Htake. done.
  - rewrite length_take. apply Nat.min_l.
    pose proof (length_filter_split keep rank) as Hsplit.
    assert (Hbad : (length (filter (λ x, ¬ keep x) rank) <= length consumed)%nat).
    { rewrite <- (length_fmap fst). apply submseteq_length, NoDup_submseteq.
      - eapply sublist_NoDup; [|apply fmap_sublist, sublist_filter].
        by rewrite Hrank, Hfst.
      - intros i (p & -> & Hp)%list_elem_of_fmap.
        apply list_elem_of_filter in Hp as [Hp _].
        unfold keep in Hp. by apply dec_stable in Hp. }
    assert (length rank = length ids).
    { rewrite (Permutation_length Hrank). unfold pairs.
      rewrite length_zip. lia. }
    lia.
  - eapply sublist_NoDup; [|apply fmap_sublist, Hres].
    by rewrite Hrank, Hfst.
  - intros i x Hin. split.
    + apply elem_of_take in Hin as (j & Hj & _).
      apply list_elem_of_lookup_2, list_elem_of_filter in Hj. apply Hj.
    + apply Hsc. fold pairs. rewrite <- Hrank.
      by eapply elem_of_sublist.
  - intros a sa b sb Hb.
    assert (Hb' : before rank (a, sa) (b, sb)) by (unfold before; by etrans).
    apply (sorted_before by_neg_score) in Hb';
      [by apply by_neg_score_le in Hb' |].
    apply sort_by_sorted; [apply by_neg_score_total | apply by_neg_score_trans].
  - intros a sa b sb Hb Heq.
    assert (Hb' : before rank (a, sa) (b, sb)) by (unfold before; by etrans).
    apply (sort_by_stable by_neg_score) in Hb'.
    + unfold before. etrans; [|exact Hsub]. rewrite <- Hfst.
      by apply (fmap_sublist fst) in Hb'.
    + apply by_neg_score_le. simpl. rewrite Heq. apply Qle_refl.
Qed.

(** ** C5: the list [recommend_user] returns *)




(** ** C3: ties *)

(** C3, as stated, fails: items 0 and 1 have the same score 9/10 and the
    list returned has item 1 ahead of item 0. *)
Lemma recommend_user_tie_not_by_item_id :
  WideDeep.recommend_user (sample_model rating false) 1 2 empty_state
    = (Ok (Some [(1%nat, 9 # 10); (0%nat, 9 # 10)]), empty_state) /\
  ~ ties_by_ascending_id [(1%nat, 9 # 10); (0%nat, 9 # 10)].
Proof.
  split; [reflexivity|]. intros H.
  assert (1 < 0)%nat; [|lia].
  apply (H 1%nat (9 # 10) 0%nat (9 # 10)); [|done].
  unfold before. done.
Qed.

(** C3, amended: the order among equal scores is whatever
    [np.argpartition] left.  [sorted] compares the scores only and is
    stable, so two returned items with equal scores appear in the order in
    which the index array of [np.argpartition] holds them; their item ids
    play no part.  (In [WideDeep] for a catalog that does not consist of a
    single item, where [recos] is a score vector.) *)
Theorem recommend_user_ties_keep_selection_order (self : model) (user : Z)
    (n_rec : nat) (s : state) (consumed : list nat) (row : list Q) :
  (0 < user < Z.of_nat (n_users self))%Z ->
  user_consumed self !! Z.to_nat user = Some consumed ->
  user_vector self !! Z.to_nat user = Some row ->
  length (item_weights self) = n_items self ->
  (n_rec + length consumed <= n_items self)%nat ->
  partition_call self (widedeep_scores self (Z.to_nat user))
    (n_rec + length consumed) ≡ₚ seq 0 (n_items self) ->
  partition_call self (youtube_scores self row)
    (n_rec + length consumed) ≡ₚ seq 0 (n_items self) ->
  (n_items self <> 1%nat ->
   exists res,
     WideDeep.recommend_user self user n_rec s = (Ok (Some res), s) /\
     ties_in_selection_order
       (partition_call self (widedeep_scores self (Z.to_nat user))
          (n_rec + length consumed)) res)
  /\
  (exists res,
     YouTubeMatch.recommend_user self user n_rec s = (Ok (Some res), s) /\
     ties_in_selection_order
       (partition_call self (youtube_scores self row)
          (n_rec + length consumed)) res).
Proof.
  intros Hu Hc Hr Hw Hn Hpw Hpy. split.
  - intros H1.
    destruct (select_spec self (widedeep_scores self (Z.to_nat user))
                consumed n_rec)
      as (res & Hsel & _ & _ & _ & _ & Hties).
    { by rewrite length_widedeep_scores. }
    { by rewrite length_widedeep_scores. }
    exists res.
    by rewrite (widedeep_recommend_known self user n_rec s consumed Hu Hc H1),
      Hsel.
  - destruct (select_spec self (youtube_scores self row) consumed n_rec)
      as (res & Hsel & _ & _ & _ & _ & Hties).
    { by rewrite length_youtube_scores, Hw. }
    { by rewrite length_youtube_scores, Hw. }
    exists res.
    by rewrite (youtube_recommend_known self user n_rec s consumed row
                  Hu Hc Hr), Hsel.
Qed.

Lemma recommend_user_ties_keep_selection_order_witness :
  let self := sample_model rating false in
  (exists res,
     WideDeep.recommend_user self 1 2 empty_state
       = (Ok (Some res), empty_state) /\
     ties_in_selection_order
       (partition_call self (widedeep_scores self 1) 2) res)
  /\
  (exists res,
     YouTubeMatch.recommend_user self 1 2 empty_state
       = (Ok (Some res), empty_state) /\
     ties_in_selection_order
       (partition_call self (youtube_scores self [1%Q]) 2) res).
Proof.
  destruct (recommend_user_ties_keep_selection_order
              (sample_model rating false) 1 2 empty_state [] [1%Q])
    as [Hw Hy].
  - simpl. lia.
  - reflexivity.
  - reflexivity.
  - reflexivity.
  - simpl. lia.
  - by apply (bool_decide_unpack _).
  - by apply (bool_decide_unpack _).
  - split; [apply Hw; simpl; lia | exact Hy].
Defined.

(** ** The loop over the users and the mean *)

Import Metrics.



Lemma for_each_length {A B} (f : A -> result B) (l : list A) (vs : list B) :
  for_each f l = Ok vs -> length vs = length l.
Proof.
  revert vs. induction l as [|x l IH]; intros vs H; simpl in *.
  - by injection H as <-.
  - destruct (f x) as [y|]; simpl in *; [|done].
    destruct (for_each f l) as [ys|]; simpl in *; [|done].
    injection H as <-. simpl. by rewrite (IH ys).
Qed.

Lemma for_each_Forall {A B} (f : A -> result B) (P : B -> Prop) (l : list A) :
  (forall x, x ∈ l -> exists y, f x = Ok y /\ P y) ->
  exists vs, for_each f l = Ok vs /\ Forall P vs.
Proof.
  induction l as [|x l IH]; intros H; simpl.
  - by exists [].
  - destruct (H x) as (y & -> & Hy); [apply list_elem_of_here|].
    destruct IH as (vs & -> & Hvs).
    { intros z Hz. apply H. by apply list_elem_of_further. }
    exists (y :: vs). split; [done | by constructor].
Qed.

Lemma finite_all_fin {T} (xs : list T) : finite_all (fin <$> xs) = Some xs.
Proof.
  induction xs as [|x xs IH]; [done|].
  change (finite_all (fin <$> x :: xs))
    with (cons x <$> finite_all (fin <$> xs)).
  by rewrite IH.
Qed.








(** ** C7: a user without hits *)




(** ** Means of values between 0 and 1 *)

Lemma sumQ_bounds (l : list Q) :
  Forall (λ x, 0 <= x <= 1)%Q l ->
  (0 <= sumQ l <= inject_Z (Z.of_nat (length l)))%Q.
Proof.
  induction 1 as [|x l [Hx0 Hx1] _ [IH0 IH1]]; simpl length; simpl sumQ.
  - split; apply Qle_refl.
  - rewrite Nat2Z.inj_succ. unfold Z.succ. rewrite inject_Z_plus.
    split.
    + rewrite <- (Qplus_0_l 0). by apply Qplus_le_compat.
    + rewrite (Qplus_comm (inject_Z _)). by apply Qplus_le_compat.
Qed.

Lemma sumR_bounds (l : list R) :
  Forall (λ x, 0 <= x <= 1)%R l -> (0 <= sumR l <= INR (length l))%R.
Proof.
  induction 1 as [|x l [Hx0 Hx1] _ [IH0 IH1]]; simpl length; simpl sumR.
  - simpl. lra.
  - rewrite S_INR. lra.
Qed.

Lemma mean_arr_unit (l : list Q) :
  l <> [] -> Forall (λ x, 0 <= x <= 1)%Q l -> unit_value (mean_arr l).
Proof.
  intros Hne Hl. destruct (sumQ_bounds l Hl) as [H0 H1].
  destruct l as [|y l']; [done|]. set (l := y :: l') in *.
  exists (sumQ l / inject_Z (Z.of_nat (length l)))%Q. split; [done|].
  assert (Hpos : (0 < inject_Z (Z.of_nat (length l)))%Q).
  { rewrite <- (Zlt_Qlt 0). simpl. lia. }
  split.
  - apply Qle_shift_div_l; [done|]. by rewrite Qmult_0_l.
  - apply Qle_shift_div_r; [done|]. by rewrite Qmult_1_l.
Qed.

Lemma mean_arrR_unit (l : list R) :
  l <> [] -> Forall (λ x, 0 <= x <= 1)%R l -> unit_valueR (mean_arrR l).
Proof.
  intros Hne Hl. destruct (sumR_bounds l Hl) as [H0 H1].
  destruct l as [|y l']; [done|]. set (l := y :: l') in *.
  exists (sumR l / INR (length l))%R. split; [done|].
  assert (Hpos : (0 < INR (length l))%R) by (apply lt_0_INR; simpl; lia).
  split.
  - apply Rmult_le_pos; [done|]. left. by apply Rinv_0_lt_compat.
  - apply (Rmult_le_reg_r (INR (length l))); [done|].
    unfold Rdiv. rewrite Rmult_assoc, Rinv_l by lra. lra.
Qed.

Lemma unit_values_finite (vs : list (npfloat Q)) :
  Forall unit_value vs ->
  exists xs, vs = fin <$> xs /\ Forall (λ x, 0 <= x <= 1)%Q xs.
Proof.
  induction 1 as [|v vs (x & -> & Hx) _ (xs & -> & Hxs)].
  - by exists [].
  - exists (x :: xs). split; [done | by constructor].
Qed.

Lemma unit_values_finiteR (vs : list (npfloat R)) :
  Forall unit_valueR vs ->
  exists xs, vs = fin <$> xs /\ Forall (λ x, 0 <= x <= 1)%R xs.
Proof.
  induction 1 as [|v vs (x & -> & Hx) _ (xs & -> & Hxs)].
  - by exists [].
  - exists (x :: xs). split; [done | by constructor].
Qed.

Lemma mean_unit (vs : list (npfloat Q)) :
  vs <> [] -> Forall unit_value vs -> unit_value (mean vs).
Proof.
  intros Hne (xs & -> & Hxs)%unit_values_finite.
  unfold mean. rewrite finite_all_fin. apply mean_arr_unit; [|done].
  by destruct xs.
Qed.

Lemma meanR_unit (vs : list (npfloat R)) :
  vs <> [] -> Forall unit_valueR vs -> unit_valueR (meanR vs).
Proof.
  intros Hne (xs & -> & Hxs)%unit_values_finiteR.
  unfold meanR. rewrite finite_all_fin. apply mean_arrR_unit; [|done].
  by destruct xs.
Qed.

(** The macro-average of values between 0 and 1 over at least one user. *)
Lemma macro_average_unit (body : nat -> result (npfloat Q)) (users : list nat) :
  users <> [] ->
  (forall u, u ∈ users -> exists v, body u = Ok v /\ unit_value v) ->
  exists v, (vs ← for_each body users; Ok (mean vs)) = Ok v /\ unit_value v.
Proof.
  intros Hne H.
  destruct (for_each_Forall body unit_value users H) as (vs & Hrun & Hvs).
  rewrite Hrun. simpl. eexists. split; [done|].
  apply mean_unit; [|done].
  apply for_each_length in Hrun. destruct vs; [|done].
  destruct users; [done | simpl in Hrun; lia].
Qed.

Lemma macro_average_unitR (body : nat -> result (npfloat R)) (users : list nat) :
  users <> [] ->
  (forall u, u ∈ users -> exists v, body u = Ok v /\ unit_valueR v) ->
  exists v, (vs ← for_each body users; Ok (meanR vs)) = Ok v /\ unit_valueR v.
Proof.
  intros Hne H.
  destruct (for_each_Forall body unit_valueR users H) as (vs & Hrun & Hvs).
  rewrite Hrun. simpl. eexists. split; [done|].
  apply meanR_unit; [|done].
  apply for_each_length in Hrun. destruct vs; [|done].
  destruct users; [done | simpl in Hrun; lia].
Qed.

(** ** The indicator vector [rank_list] *)

Lemma index_of_lookup (x : nat) (l : list nat) :
  x ∈ l -> l !! index_of x l = Some x.
Proof.
  induction l as [|y l IH]; intros H; [by apply not_elem_of_nil in H|].
  simpl. case_decide as E; [by subst|].
  apply elem_of_cons in H as [->|H]; [done|]. by apply IH.
Qed.

(** What [np.intersect1d] hands to the metrics, for duplicate-free
    arguments. *)
Lemma intersect1d_spec (y_true y_reco : list nat) :
  NoDup y_true ->
  exists common idx_true idx,
    intersect1d y_true y_reco = (common, idx_true, idx) /\
    length idx = length common /\
    (length common <= length y_true)%nat /\
    NoDup idx /\
    Forall (λ i, i < length y_reco)%nat idx.
Proof.
  intros Hnd. unfold intersect1d.
  set (common := sort_by Nat.leb (filter (λ x, x ∈ y_reco) y_true)).
  assert (Hperm : common ≡ₚ filter (λ x, x ∈ y_reco) y_true)
    by apply sort_by_perm.
  assert (Hin : forall x, x ∈ common -> x ∈ y_reco).
  { intros x Hx. rewrite Hperm in Hx. by apply list_elem_of_filter in Hx as [? _]. }
  eexists common, _, _. split; [done|]. split_and!.
  - by rewrite length_fmap.
  - rewrite (Permutation_length Hperm). apply length_filter.
  - apply NoDup_fmap_2_strong.
    + intros x y Hx%Hin Hy%Hin Heq.
      apply index_of_lookup in Hx, Hy. rewrite Heq in Hx. congruence.
    + rewrite Hperm. by apply NoDup_filter.
  - apply Forall_forall. intros i (x & -> & Hx%Hin)%list_elem_of_fmap.
    apply index_of_lookup in Hx. by apply lookup_lt_Some in Hx.
Qed.

Lemma zeros_length (k : nat) : length (zeros k) = k.
Proof. apply length_replicate. Qed.

Lemma rank_list_lookup (idx : list nat) (k j : nat) :
  (j < k)%nat ->
  mask idx 1%Q (zeros k) !! j = Some (if decide (j ∈ idx) then 1%Q else 0%Q).
Proof.
  intros Hj. rewrite lookup_mask. unfold zeros.
  by rewrite lookup_replicate_2.
Qed.

Lemma rank_list_binary (idx : list nat) (k : nat) :
  Forall (λ x, x = 0%Q \/ x = 1%Q) (mask idx 1%Q (zeros k)).
Proof.
  apply Forall_lookup. intros j x Hj.
  assert (j < k)%nat as Hlt.
  { apply lookup_lt_Some in Hj. by rewrite length_mask, zeros_length in Hj. }
  rewrite rank_list_lookup in Hj by done. injection Hj as <-.
  case_decide; auto.
Qed.

Lemma binary_unit (l : list Q) :
  Forall (λ x, x = 0%Q \/ x = 1%Q) l -> Forall (λ x, 0 <= x <= 1)%Q l.
Proof.
  intros H. eapply Forall_impl; [exact H|].
  intros x [->| ->]; split; done.
Qed.

(** [rank_list[indices_in_reco] = 1] succeeds when the recommendation list
    has at most [k] entries. *)
Lemma rank_list_set (idx : list nat) (k n : nat) :
  Forall (λ i, i < n)%nat idx -> (n <= k)%nat ->
  set_items (zeros k) idx 1%Q = Ok (mask idx 1%Q (zeros k)).
Proof.
  intros Hidx Hn. apply set_items_mask. rewrite zeros_length.
  eapply Forall_impl; [exact Hidx|]. simpl. lia.
Qed.

(** ** Bounds of the per-user values *)

Lemma precision_user_unit (y_true y_reco : list nat) (k : nat) :
  NoDup y_true -> (length y_reco <= k)%nat ->
  exists v, precision_user y_true y_reco k = Ok v /\ unit_value v.
Proof.
  intros Hnd Hk.
  destruct (intersect1d_spec y_true y_reco Hnd)
    as (common & it & idx & Hint & Hlen & _ & _ & Hidx).
  unfold precision_user. rewrite Hint.
  case_decide as Hpos; [|exists (fin 0%Q); split; [done|]; by exists 0%Q].
  rewrite (rank_list_set idx k (length y_reco)) by done. simpl.
  eexists. split; [done|]. apply mean_arr_unit.
  - intros Hnil. apply (f_equal length) in Hnil.
    rewrite length_mask, zeros_length in Hnil. simpl in Hnil. subst k.
    destruct idx as [|i idx]; [simpl in Hlen; lia|].
    apply Forall_cons in Hidx as [Hi _]. lia.
  - apply binary_unit, rank_list_binary.
Qed.

Lemma recall_user_unit (y_true y_reco : list nat) :
  NoDup y_true ->
  exists v, recall_user y_true y_reco = Ok v /\ unit_value v.
Proof.
  intros Hnd.
  destruct (intersect1d_spec y_true y_reco Hnd)
    as (common & it & idx & Hint & _ & Hle & _ & _).
  unfold recall_user. rewrite Hint.
  case_decide as Hpos; [|exists (fin 0%Q); split; [done|]; by exists 0%Q].
  rewrite decide_False by lia.
  eexists. split; [done|]. eexists. split; [done|].
  assert (Hd : (0 < inject_Z (Z.of_nat (length y_true)))%Q).
  { rewrite <- (Zlt_Qlt 0). lia. }
  split.
  - apply Qle_shift_div_l; [done|]. rewrite Qmult_0_l.
    rewrite <- (Zle_Qle 0). lia.
  - apply Qle_shift_div_r; [done|]. rewrite Qmult_1_l.
    rewrite <- Zle_Qle. lia.
Qed.

Lemma for_each_pure {A B} (f : A -> result B) (h : A -> B) (l : list A) :
  (forall x, x ∈ l -> f x = Ok (h x)) -> for_each f l = Ok (h <$> l).
Proof.
  induction l as [|x l IH]; intros H; [done|]. simpl.
  rewrite (H x) by apply list_elem_of_here. simpl.
  rewrite IH; [done|]. intros y Hy. apply H. by apply list_elem_of_further.
Qed.

Lemma concat_picked {A B} (P : A -> Prop) `{!forall x, Decision (P x)}
    (g : A -> B) (l : list A) :
  List.concat ((λ i, if decide (P i) then [g i] else []) <$> l)
    = g <$> filter P l.
Proof.
  induction l as [|x l IH]; [done|].
  rewrite fmap_cons. simpl. rewrite IH.
  destruct (decide (P x)).
  - by rewrite filter_cons_True.
  - by rewrite filter_cons_False.
Qed.

Lemma prefix_precisions_spec (idx : list nat) (k : nat) :
  let rl := mask idx 1%Q (zeros k) in
  prefix_precisions rl k
    = Ok ((λ i, mean_arr (take (i + 1) rl))
            <$> filter (λ i, i ∈ idx) (seq 0 k)).
Proof.
  intros rl. unfold prefix_precisions.
  rewrite (for_each_pure _
    (λ i, if decide (i ∈ idx) then [mean_arr (take (i + 1) rl)] else [])).
  - simpl. f_equal. apply (concat_picked (λ i, i ∈ idx)).
  - intros i Hi. apply elem_of_seq in Hi.
    unfold rl. rewrite rank_list_lookup by lia.
    by case_decide.
Qed.

Lemma hits_in_range (idx : list nat) (k : nat) :
  NoDup idx -> Forall (λ i, i < k)%nat idx ->
  length (filter (λ i, i ∈ idx) (seq 0 k)) = length idx.
Proof.
  intros Hnd Hlt. apply Permutation_length, NoDup_Permutation.
  - apply NoDup_filter, NoDup_seq.
  - done.
  - intros i. rewrite list_elem_of_filter, elem_of_seq.
    rewrite Forall_forall in Hlt. split; [by intros [? _]|].
    intros Hi. split; [done|]. specialize (Hlt i Hi). lia.
Qed.

Lemma average_precision_unit (y_true y_reco : list nat) (k : nat) :
  NoDup y_true -> (length y_reco <= k)%nat ->
  exists v, average_precision_at_k y_true y_reco k = Ok v /\ unit_value v.
Proof.
  intros Hnd Hk.
  destruct (intersect1d_spec y_true y_reco Hnd)
    as (common & it & idx & Hint & Hlen & _ & Hndi & Hidx).
  unfold average_precision_at_k. rewrite Hint.
  case_decide as Hpos; [|exists (fin 0%Q); split; [done|]; by exists 0%Q].
  rewrite (rank_list_set idx k (length y_reco)) by done. simpl.
  rewrite prefix_precisions_spec. simpl.
  assert (Hltk : Forall (λ i, i < k)%nat idx).
  { eapply Forall_impl; [exact Hidx|]. simpl. lia. }
  rewrite decide_True
    by (by rewrite length_fmap, hits_in_range, Hlen).
  eexists. split; [done|]. apply mean_unit.
  - intros Hnil. apply (f_equal length) in Hnil.
    rewrite length_fmap, hits_in_range in Hnil by done. simpl in Hnil. lia.
  - apply Forall_fmap, Forall_forall. intros i Hi. simpl.
    apply list_elem_of_filter in Hi as [_ Hi%elem_of_seq].
    apply mean_arr_unit.
    + intros Hnil. apply (f_equal length) in Hnil.
      rewrite length_take, length_mask, zeros_length in Hnil.
      simpl in Hnil. lia.
    + apply binary_unit, Forall_take, rank_list_binary.
Qed.

(** ** DCG as a weighted sum *)

Lemma ln2_pos : (0 < ln 2)%R.
Proof. rewrite <- ln_1. apply ln_increasing; lra. Qed.

Lemma log2_2 : log2 2 = 1%R.
Proof. unfold log2. field. pose proof ln2_pos. lra. Qed.

Lemma log2_pos (x : R) : (1 < x)%R -> (0 < log2 x)%R.
Proof.
  intros Hx. unfold log2. apply Rdiv_lt_0_compat; [|apply ln2_pos].
  rewrite <- ln_1. apply ln_increasing; lra.
Qed.

Lemma log2_le (x y : R) : (0 < x)%R -> (x <= y)%R -> (log2 x <= log2 y)%R.
Proof.
  intros Hx Hxy. unfold log2, Rdiv.
  apply Rmult_le_compat_r; [left; apply Rinv_0_lt_compat, ln2_pos|].
  destruct Hxy as [Hlt| ->]; [left; by apply ln_increasing | lra].
Qed.

Lemma INR_succ_gt_1 (i : nat) : (1 <= i)%nat -> (1 < INR (i + 1))%R.
Proof.
  intros Hi. replace 1%R with (INR 1) by done. apply lt_INR. lia.
Qed.

Lemma discount_pos (i : nat) : (0 < discount i)%R.
Proof.
  destruct i as [|i]; unfold discount; [lra|].
  apply Rinv_0_lt_compat, log2_pos, INR_succ_gt_1. lia.
Qed.

Lemma discount_antitone (i : nat) : (discount (S i) <= discount i)%R.
Proof.
  destruct i as [|i].
  - unfold discount. replace (INR (1 + 1)) with 2%R by (simpl; lra).
    rewrite log2_2. lra.
  - unfold discount. apply Rinv_le_contravar.
    + apply log2_pos, INR_succ_gt_1. lia.
    + apply log2_le.
      * apply lt_0_INR. lia.
      * apply le_INR. lia.
Qed.

Lemma weighted_from (s : nat) (l : list R) :
  (1 <= s)%nat ->
  sumR (zip_with Rdiv l ((λ j, log2 (INR j)) <$> seq (s + 1) (length l)))
    = weighted s l.
Proof.
  revert s. induction l as [|x l IH]; intros s Hs; [done|].
  simpl. rewrite <- (IH (S s)) by lia. f_equal.
  destruct s as [|s]; [lia|]. done.
Qed.

Lemma dcg_weighted (l : list R) (k : nat) :
  length l = k -> (1 <= k)%nat -> dcg l k = Ok (weighted 0 l).
Proof.
  intros Hlen Hk. destruct l as [|l0 l]; [simpl in Hlen; lia|].
  simpl in Hlen. unfold dcg. simpl lookup. cbn iota.
  assert (arange 2 (k + 1) = seq (1 + 1) (length l)) as ->.
  { unfold arange. f_equal. lia. }
  change (drop 1 (l0 :: l)) with l.
  rewrite decide_True by (by rewrite length_fmap, length_seq).
  rewrite weighted_from by lia. simpl. f_equal. lra.
Qed.

Lemma weighted_nonneg (s : nat) (l : list R) :
  Forall (λ x, 0 <= x)%R l -> (0 <= weighted s l)%R.
Proof.
  intros H. revert s. induction H as [|x l Hx _ IH]; intros s; cbn [weighted top_discounts]; [lra|].
  specialize (IH (S s)). pose proof (discount_pos s). nra.
Qed.

Lemma top_discounts_nonneg (s h : nat) : (0 <= top_discounts s h)%R.
Proof.
  revert s. induction h as [|h IH]; intros s; cbn [weighted top_discounts]; [lra|].
  specialize (IH (S s)). pose proof (discount_pos s). lra.
Qed.

Lemma top_discounts_shift (s h : nat) :
  (top_discounts (S s) h <= top_discounts s h)%R.
Proof.
  revert s. induction h as [|h IH]; intros s; cbn [weighted top_discounts]; [lra|].
  specialize (IH (S s)). pose proof (discount_antitone s). lra.
Qed.

(** No arrangement of [h] ones over the positions weighs more than the
    first [h] positions. *)
Lemma weighted_le_top (l : list R) : forall (s h : nat),
  Forall (λ x, x = 0 \/ x = 1)%R l -> sumR l = INR h ->
  (weighted s l <= top_discounts s h)%R.
Proof.
  induction l as [|x l IH]; intros s h Hb Hsum.
  - cbn [weighted]. apply top_discounts_nonneg.
  - change (sumR (x :: l)) with (x + sumR l)%R in Hsum.
    apply Forall_cons in Hb as [[-> | ->] Hb]; cbn [weighted].
    + rewrite Rplus_0_l in Hsum. rewrite Rmult_0_l, Rplus_0_l.
      etrans; [by apply IH | apply top_discounts_shift].
    + destruct h as [|h].
      * exfalso. simpl in Hsum.
        assert (0 <= sumR l)%R; [|lra].
        clear -Hb. induction Hb as [|y l [-> | ->] _ IH'];
          [simpl; lra | |];
          change (sumR (?a :: l)) with (a + sumR l)%R; lra.
      * rewrite S_INR in Hsum. cbn [top_discounts].
        assert (sumR l = INR h) as Hs by lra.
        specialize (IH (S s) h Hb Hs). lra.
Qed.

Lemma weighted_ones_zeros (s h z : nat) :
  weighted s (replicate h 1%R ++ replicate z 0%R) = top_discounts s h.
Proof.
  revert s. induction h as [|h IH]; intros s.
  - cbn [replicate app top_discounts]. revert s.
    induction z as [|z IHz]; intros s; [done|].
    cbn [replicate weighted]. rewrite IHz. lra.
  - cbn [replicate app weighted top_discounts]. rewrite IH. lra.
Qed.

Lemma sumR_perm (l l' : list R) : l ≡ₚ l' -> sumR l = sumR l'.
Proof. induction 1; simpl; lra. Qed.

Lemma sumR_zeros_ones (z h : nat) :
  sumR (replicate z 0%R ++ replicate h 1%R) = INR h.
Proof.
  induction z as [|z IH]; simpl.
  - induction h as [|h IH]; [done|].
    change (replicate (S h) 1%R) with (1%R :: replicate h 1%R).
    simpl sumR. rewrite IH, S_INR. lra.
  - rewrite IH. lra.
Qed.

(** ** The ideal ordering of an indicator vector *)

Lemma Qle_bool_total (x y : Q) : Qle_bool x y = false -> Qle_bool y x = true.
Proof.
  intros H. apply Qle_bool_iff.
  destruct (Qlt_le_dec y x) as [Hlt|Hle]; [by apply Qlt_le_weak|].
  apply Qle_bool_iff in Hle. congruence.
Qed.

Lemma Qle_bool_trans (x y z : Q) :
  Qle_bool x y = true -> Qle_bool y z = true -> Qle_bool x z = true.
Proof. rewrite !Qle_bool_iff. apply Qle_trans. Qed.

Lemma sorted_binary (l : list Q) :
  StronglySorted (λ a b, Qle_bool a b = true) l ->
  Forall (λ x, x = 0%Q \/ x = 1%Q) l ->
  exists z h, l = replicate z 0%Q ++ replicate h 1%Q.
Proof.
  induction 1 as [|x l Hs IH Hx]; intros Hb.
  - by exists 0%nat, 0%nat.
  - apply Forall_cons in Hb as [Hx01 Hb].
    destruct (IH Hb) as (z & h & ->).
    destruct Hx01 as [-> | ->]; [by exists (S z), h|].
    destruct z as [|z]; [by exists 0%nat, (S h)|].
    apply Forall_cons in Hx as [Hx _]. done.
Qed.

Lemma ideal_list_spec (rl : list Q) :
  Forall (λ x, x = 0%Q \/ x = 1%Q) rl ->
  exists z h,
    reverse (sort rl) = replicate h 1%Q ++ replicate z 0%Q /\
    (h + z = length rl)%nat /\
    sumR (Q2R <$> rl) = INR h /\
    (1%Q ∈ rl -> 1 <= h)%nat.
Proof.
  intros Hb.
  assert (Hperm : sort rl ≡ₚ rl) by apply sort_by_perm.
  destruct (sorted_binary (sort rl)) as (z & h & Hs).
  { apply sort_by_sorted; [apply Qle_bool_total | apply Qle_bool_trans]. }
  { by rewrite Hperm. }
  exists z, h. split_and!.
  - by rewrite Hs, reverse_app, !reverse_replicate.
  - rewrite <- (Permutation_length Hperm), Hs.
    rewrite length_app, !length_replicate. lia.
  - rewrite <- (sumR_perm _ _ (fmap_Permutation Q2R _ _ Hperm)), Hs.
    rewrite fmap_app, !fmap_replicate, RMicromega.Q2R_0, RMicromega.Q2R_1.
    apply sumR_zeros_ones.
  - intros H1. rewrite <- Hperm, Hs in H1.
    apply elem_of_app in H1 as [H1|H1].
    + by apply elem_of_replicate in H1 as [? _].
    + apply elem_of_replicate in H1 as [_ ?]. lia.
Qed.

Lemma top_discounts_ge_1 (h : nat) : (1 <= h)%nat -> (1 <= top_discounts 0 h)%R.
Proof.
  destruct h as [|h]; [lia|]. intros _. cbn [top_discounts].
  pose proof (top_discounts_nonneg 1 h). unfold discount. lra.
Qed.

Lemma ndcg_user_unit (y_true y_reco : list nat) (k : nat) :
  NoDup y_true -> (length y_reco <= k)%nat ->
  exists v, ndcg_user y_true y_reco k = Ok v /\ unit_valueR v.
Proof.
  intros Hnd Hk.
  destruct (intersect1d_spec y_true y_reco Hnd)
    as (common & it & idx & Hint & Hlen & _ & _ & Hidx).
  unfold ndcg_user. rewrite Hint.
  case_decide as Hpos; [|exists (fin 0%R); split; [done|]; exists 0%R; split; [done | lra]].
  rewrite (rank_list_set idx k (length y_reco)) by done. simpl.
  set (rl := mask idx 1%Q (zeros k)).
  assert (Hrl : length rl = k) by (unfold rl; by rewrite length_mask, zeros_length).
  assert (Hbin : Forall (λ x, x = 0%Q \/ x = 1%Q) rl) by apply rank_list_binary.
  destruct idx as [|i idx]; [simpl in Hlen; lia|].
  assert (Hi : (i < k)%nat) by (apply Forall_cons in Hidx as [? _]; lia).
  destruct (ideal_list_spec rl Hbin) as (z & h & Hideal & Hhz & Hsum & Hh).
  assert (1 <= h)%nat as Hh'.
  { apply Hh. apply list_elem_of_lookup. exists i. unfold rl.
    rewrite rank_list_lookup by done.
    by rewrite decide_True by apply list_elem_of_here. }
  rewrite (dcg_weighted (Q2R <$> rl) k) by (rewrite ?length_fmap; lia).
  rewrite (dcg_weighted (Q2R <$> reverse (sort rl)) k)
    by (rewrite ?length_fmap, ?Hideal, ?length_app, ?length_replicate; lia).
  simpl. rewrite Hideal, fmap_app, !fmap_replicate.
  rewrite RMicromega.Q2R_0, RMicromega.Q2R_1, weighted_ones_zeros.
  pose proof (top_discounts_ge_1 h Hh') as Hge.
  assert (HbinR : Forall (λ x, x = 0 \/ x = 1)%R (Q2R <$> rl)).
  { apply Forall_fmap. eapply Forall_impl; [exact Hbin|].
    intros x [-> | ->]; simpl;
      [left; apply RMicromega.Q2R_0 | right; apply RMicromega.Q2R_1]. }
  pose proof (weighted_le_top (Q2R <$> rl) 0 h HbinR Hsum) as Hle.
  assert (0 <= weighted 0 (Q2R <$> rl))%R as H0.
  { apply weighted_nonneg. eapply Forall_impl; [exact HbinR|].
    intros x [-> | ->]; lra. }
  destruct (Req_dec_T (top_discounts 0 h) 0) as [E|_]; [lra|].
  eexists. split; [done|]. eexists. split; [done|]. split.
  - apply Rmult_le_pos; [done|]. left. apply Rinv_0_lt_compat. lra.
  - apply (Rmult_le_reg_r (top_discounts 0 h)); [lra|].
    unfold Rdiv. rewrite Rmult_assoc, Rinv_l by lra. lra.
Qed.

(** ** C6: the four metrics lie between 0 and 1 *)

(** C6, as stated, fails: over an empty list of users each metric is the
    mean of an empty list, which is [nan]. *)
Lemma metrics_of_no_user_are_nan :
  precision_at_k sample_true sample_reco [] 3 = Ok nan /\
  recall_at_k sample_true sample_reco [] 3 = Ok nan /\
  map_at_k sample_true sample_reco [] 3 = Ok nan /\
  ndcg_at_k sample_true sample_reco [] 3 = Ok nan /\
  ~ unit_value nan /\ ~ unit_valueR nan.
Proof.
  split_and!; try reflexivity.
  - by intros (x & ? & _).
  - by intros (x & ? & _).
Qed.

(** C6, amended: over a non-empty list of users, each with a duplicate-free
    ground truth and a recommendation list of at most [k] entries, the four
    metrics return a finite value between 0 and 1. *)
Theorem metrics_in_unit_interval
    (y_true_list y_reco_list : gmap nat (list nat)) (users : list nat)
    (k : nat) :
  (1 <= k)%nat ->
  users <> [] ->
  Forall (λ u, exists y_true y_reco,
            y_true_list !! u = Some y_true /\
            y_reco_list !! u = Some y_reco /\
            NoDup y_true /\ NoDup y_reco /\
            (length y_reco <= k)%nat) users ->
  (exists v, precision_at_k y_true_list y_reco_list users k = Ok v
             /\ unit_value v) /\
  (exists v, recall_at_k y_true_list y_reco_list users k = Ok v
             /\ unit_value v) /\
  (exists v, map_at_k y_true_list y_reco_list users k = Ok v
             /\ unit_value v) /\
  (exists v, ndcg_at_k y_true_list y_reco_list users k = Ok v
             /\ unit_valueR v).
Proof.
  intros _ Hne Hus. rewrite Forall_forall in Hus.
  split_and!.
  - apply (macro_average_unit
             (per_user (λ t r, precision_user t r k) y_true_list y_reco_list));
      [done|].
    intros u (t & r & Ht & Hr & Hnt & _ & Hk)%Hus.
    unfold per_user, getitem. rewrite Ht, Hr. simpl.
    by apply precision_user_unit.
  - apply (macro_average_unit
             (per_user recall_user y_true_list y_reco_list)); [done|].
    intros u (t & r & Ht & Hr & Hnt & _ & Hk)%Hus.
    unfold per_user, getitem. rewrite Ht, Hr. simpl.
    by apply recall_user_unit.
  - apply (macro_average_unit
             (per_user (λ t r, average_precision_at_k t r k)
                y_true_list y_reco_list)); [done|].
    intros u (t & r & Ht & Hr & Hnt & _ & Hk)%Hus.
    unfold per_user, getitem. rewrite Ht, Hr. simpl.
    by apply average_precision_unit.
  - apply (macro_average_unitR
             (per_user (λ t r, ndcg_user t r k) y_true_list y_reco_list));
      [done|].
    intros u (t & r & Ht & Hr & Hnt & _ & Hk)%Hus.
    unfold per_user, getitem. rewrite Ht, Hr. simpl.
    by apply ndcg_user_unit.
Qed.

Lemma metrics_in_unit_interval_witness :
  (exists v, precision_at_k sample_true sample_reco [0; 1; 2]%nat 3 = Ok v
             /\ unit_value v) /\
  (exists v, recall_at_k sample_true sample_reco [0; 1; 2]%nat 3 = Ok v
             /\ unit_value v) /\
  (exists v, map_at_k sample_true sample_reco [0; 1; 2]%nat 3 = Ok v
             /\ unit_value v) /\
  (exists v, ndcg_at_k sample_true sample_reco [0; 1; 2]%nat 3 = Ok v
             /\ unit_valueR v).
Proof.
  apply (metrics_in_unit_interval sample_true sample_reco [0; 1; 2]%nat 3).
  - lia.
  - discriminate.
  - repeat apply Forall_cons_2; [| | |apply Forall_nil_2];
      eexists _, _; (split_and!; [reflexivity | reflexivity | | | simpl; lia]);
      by apply (bool_decide_unpack _).
Defined.

(** ** C1: the discount of NDCG *)

Lemma weighted_by_position (l : list R) (s : nat) :
  (1 <= s)%nat ->
  weighted s l
    = sumR ((λ i, nth (i - s) l 0 / log2 (INR (i + 1)))%R <$> seq s (length l)).
Proof.
  revert s. induction l as [|x l IH]; intros s Hs; [done|].
  cbn [weighted length seq]. rewrite fmap_cons. cbn [sumR foldr].
  rewrite (IH (S s)) by lia. f_equal.
  - rewrite Nat.sub_diag. simpl nth. destruct s as [|s]; [lia|]. done.
  - f_equal. apply list_fmap_ext. intros j i Hi.
    apply lookup_seq in Hi as [-> _].
    by replace (S s + j - s)%nat with (S (S s + j - S s)) by lia.
Qed.

Lemma dcg_is_by_position (rel : list R) (k : nat) :
  length rel = k -> (1 <= k)%nat -> dcg rel k = Ok (dcg_by_position rel k).
Proof.
  intros Hlen Hk. rewrite (dcg_weighted rel k Hlen Hk). f_equal.
  destruct rel as [|r0 rel]; [simpl in Hlen; lia|].
  unfold dcg_by_position. cbn [weighted]. unfold discount at 1.
  rewrite (weighted_by_position rel 1) by lia.
  simpl nth at 1. simpl in Hlen.
  replace (k - 1)%nat with (length rel) by lia.
  rewrite Rmult_1_r. f_equal. f_equal.
  apply list_fmap_ext. intros j i Hi. apply lookup_seq in Hi as [-> _].
  by replace (1 + j)%nat with (S j) by lia; rewrite Nat.sub_succ, Nat.sub_0_r.
Qed.

Lemma pow_lt_ln (a b : R) (m n : nat) :
  (0 < a)%R -> (0 < b)%R -> (a ^ m < b ^ n)%R ->
  (INR m * ln a < INR n * ln b)%R.
Proof.
  intros Ha Hb Hlt. rewrite <- !ln_pow by done.
  apply ln_increasing; [by apply pow_lt | done].
Qed.

Lemma ln3_pos : (0 < ln 3)%R.
Proof. rewrite <- ln_1. apply ln_increasing; lra. Qed.

(** [1 / log2 3] lies between 0.63 and 0.632. *)
Lemma inv_log2_3_bounds : (63 / 100 < / log2 3 < 632 / 1000)%R.
Proof.
  pose proof ln2_pos as H2. pose proof ln3_pos as H3.
  assert (/ log2 3 = ln 2 / ln 3)%R as -> by (unfold log2; field; lra).
  assert (INR 63 * ln 3 < INR 100 * ln 2)%R as Hlo.
  { apply pow_lt_ln; [lra | lra |].
    rewrite !pow_IZR. apply IZR_lt. by vm_compute. }
  assert (INR 125 * ln 2 < INR 79 * ln 3)%R as Hhi.
  { apply pow_lt_ln; [lra | lra |].
    rewrite !pow_IZR. apply IZR_lt. by vm_compute. }
  rewrite !INR_IZR_INZ in Hlo, Hhi.
  change (Z.of_nat 63) with 63%Z in Hlo.
  change (Z.of_nat 100) with 100%Z in Hlo.
  change (Z.of_nat 125) with 125%Z in Hhi.
  change (Z.of_nat 79) with 79%Z in Hhi.
  split.
  - apply (Rmult_lt_reg_r (ln 3)); [done|].
    unfold Rdiv at 2. rewrite Rmult_assoc, Rinv_l by lra. lra.
  - apply (Rmult_lt_reg_r (ln 3)); [done|].
    unfold Rdiv at 1. rewrite Rmult_assoc, Rinv_l by lra. lra.
Qed.

Lemma log2_4 : log2 4 = 2%R.
Proof.
  unfold log2. replace 4%R with (2 ^ 2)%R by lra.
  rewrite ln_pow by lra. simpl INR. field. pose proof ln2_pos. lra.
Qed.

Lemma INR_2 : INR 2 = 2%R.
Proof. simpl. lra. Qed.

Lemma INR_3 : INR 3 = 3%R.
Proof. simpl. lra. Qed.

Lemma INR_4 : INR 4 = 4%R.
Proof. simpl. lra. Qed.

Lemma log2_3_pos : (0 < log2 3)%R.
Proof. apply log2_pos. lra. Qed.

Lemma example_indicator :
  intersect1d [3; 7]%nat [7; 1; 3]%nat = ([3; 7]%nat, [0; 1]%nat, [2; 0]%nat) /\
  set_items (zeros 3) [2; 0]%nat 1%Q = Ok [1%Q; 0%Q; 1%Q] /\
  reverse (sort [1%Q; 0%Q; 1%Q]) = [1%Q; 1%Q; 0%Q].
Proof. split_and!; reflexivity. Qed.

Lemma example_dcg :
  dcg_by_position (Q2R <$> [1%Q; 0%Q; 1%Q]) 3 = (1 + / log2 3)%R.
Proof.
  unfold dcg_by_position. cbn -[log2 Q2R INR].
  rewrite RMicromega.Q2R_0, RMicromega.Q2R_1, INR_2, INR_3, log2_2.
  pose proof log2_3_pos. field. lra.
Qed.

Lemma example_idcg :
  dcg_by_position (Q2R <$> [1%Q; 1%Q; 0%Q]) 3 = 2%R.
Proof.
  unfold dcg_by_position. cbn -[log2 Q2R INR].
  rewrite RMicromega.Q2R_0, RMicromega.Q2R_1, INR_2, INR_3, log2_2.
  pose proof log2_3_pos. field. lra.
Qed.

Lemma example_dcg_spec :
  dcg_spec (Q2R <$> [1%Q; 0%Q; 1%Q]) 3 = (3 / 2)%R.
Proof.
  unfold dcg_spec. cbn -[log2 Q2R INR].
  rewrite RMicromega.Q2R_0, RMicromega.Q2R_1, INR_3, INR_4, log2_4.
  pose proof log2_3_pos. field. lra.
Qed.

Lemma example_ndcg_user :
  ndcg_user [3; 7]%nat [7; 1; 3]%nat 3 = Ok (fin ((1 + / log2 3) / 2)%R).
Proof.
  destruct example_indicator as (Hint & Hset & Hideal).
  unfold ndcg_user. rewrite Hint. rewrite decide_True by (simpl; lia).
  rewrite Hset. cbn [mbind result_bind]. rewrite Hideal.
  rewrite !dcg_is_by_position by (rewrite ?length_fmap; simpl; lia).
  cbn [mbind result_bind]. rewrite example_dcg, example_idcg.
  by destruct (Req_dec_T 2 0) as [E|_]; [lra|].
Qed.

Lemma example_ndcg_at_k :
  exists v,
    ndcg_at_k example_true example_reco [0%nat] 3 = Ok (fin v) /\
    v = ((1 + / log2 3) / 2)%R /\
    (815 / 1000 < v < 816 / 1000)%R.
Proof.
  exists ((1 + / log2 3) / 2)%R. split; [|split; [done|]].
  - unfold ndcg_at_k. cbn [for_each].
    assert (getitem example_true 0%nat = Ok [3; 7]%nat) as -> by reflexivity.
    assert (getitem example_reco 0%nat = Ok [7; 1; 3]%nat) as -> by reflexivity.
    cbn [mbind result_bind]. rewrite example_ndcg_user.
    cbn [mbind result_bind]. unfold meanR, mean_arrR. cbn -[log2].
    do 2 f_equal. field. pose proof log2_3_pos. lra.
  - pose proof inv_log2_3_bounds. lra.
Qed.

(** C1, as stated, fails: by the formula of the claim the example has
    DCG 1.5, the code computes [1 + 1/log2 3], which is larger, and the
    NDCG it returns is below 0.816, not near 0.9197. *)
Lemma ndcg_example_is_not_as_claimed :
  dcg_spec (Q2R <$> [1%Q; 0%Q; 1%Q]) 3 = (3 / 2)%R /\
  (exists d, dcg (Q2R <$> [1%Q; 0%Q; 1%Q]) 3 = Ok d /\ (3 / 2 < d)%R) /\
  (exists v, ndcg_at_k example_true example_reco [0%nat] 3 = Ok (fin v) /\
             (v < 816 / 1000)%R).
Proof.
  split_and!.
  - apply example_dcg_spec.
  - exists (1 + / log2 3)%R. split.
    + rewrite dcg_is_by_position by (rewrite ?length_fmap; simpl; lia).
      by rewrite example_dcg.
    + pose proof inv_log2_3_bounds. lra.
  - destruct example_ndcg_at_k as (v & Hv & _ & Hb). exists v. split; [done | lra].
Qed.

(** * Further properties of the guard, of [predict] and of [recommend_user] *)

(** ** [recommend_user] for a user outside the vocabulary *)

(** X1: for a user id below 0 or not below [n_users], [recommend_user]
    returns [None] in both models; the one thing it does is to print the
    diagnostic of [_check_unknown_user] for that id; no array is touched
    and nothing is raised, whatever [n_rec] and the model's tables are. *)
Theorem recommend_user_unknown_user (self : model) (user : Z) (n_rec : nat)
    (s : state) :
  (user < 0 \/ Z.of_nat (n_users self) <= user)%Z ->
  WideDeep.recommend_user self user n_rec s
    = (Ok None, mkState (arrays s) (trace s ++ [PrintUnknownUser user])) /\
  YouTubeMatch.recommend_user self user n_rec s
    = (Ok None, mkState (arrays s) (trace s ++ [PrintUnknownUser user])).
Proof.
  intros Hu.
  unfold WideDeep.recommend_user, YouTubeMatch.recommend_user, mbind, M_bind.
  unfold _check_unknown_user. rewrite decide_False by lia. done.
Qed.

Lemma recommend_user_unknown_user_witness :
  WideDeep.recommend_user (sample_model ranking false) 2 4 empty_state
    = (Ok None, mkState (arrays empty_state)
                  (trace empty_state ++ [PrintUnknownUser 2])) /\
  YouTubeMatch.recommend_user (sample_model ranking false) 2 4 empty_state
    = (Ok None, mkState (arrays empty_state)
                  (trace empty_state ++ [PrintUnknownUser 2])).
Proof.
  apply (recommend_user_unknown_user (sample_model ranking false) 2 4
           empty_state).
  simpl. lia.
Defined.

(** ** What [_check_unknown] reports *)

Lemma items_at_where_from (p : Z -> bool) (a pre : list Z) :
  items_at (pre ++ a) (where_from p (length pre) a)
    = filter (λ x, p x = true) a.
Proof.
  revert pre. induction a as [|x a IH]; intros pre; [done|].
  pose proof (IH (pre ++ [x])) as IH'.
  rewrite <- app_assoc, length_app, Nat.add_1_r in IH'. simpl in IH'.
  simpl. destruct (p x) eqn:Hp.
  - rewrite filter_cons_True by done. unfold items_at in *.
    assert ((pre ++ x :: a) !! length pre = Some x) as Hl
      by (by rewrite lookup_app_r, Nat.sub_diag).
    cbn [omap list_omap]. rewrite Hl. by rewrite IH'.
  - rewrite filter_cons_False by (by rewrite Hp). apply IH'.
Qed.

Lemma where_from_nil (p : Z -> bool) (a : list Z) (k : nat) :
  where_from p k a = [] <-> filter (λ x, p x = true) a = [].
Proof.
  revert k. induction a as [|x a IH]; intros k; [done|].
  simpl. destruct (p x) eqn:Hp.
  - rewrite filter_cons_True by done. done.
  - rewrite filter_cons_False by (by rewrite Hp). apply IH.
Qed.

(** The ids a diagnostic lists: [None] when there is none. *)
Lemma reported_ids (p : Z -> bool) (a : list Z) :
  match where_from p 0 a with
  | [] => None
  | _ => Some (items_at a (where_from p 0 a))
  end
  = match filter (λ x, p x = true) a with
    | [] => None
    | l => Some l
    end.
Proof.
  pose proof (items_at_where_from p a []) as H. simpl in H.
  pose proof (where_from_nil p a 0) as Hnil.
  destruct (where_from p 0 a) as [|i l] eqn:E.
  - by rewrite (proj1 Hnil eq_refl).
  - rewrite H. destruct (filter _ a) eqn:E'; [|done].
    discriminate (proj2 Hnil eq_refl).
Qed.

(** The whole effect of [_check_unknown] on a batch of pairs. *)
Lemma check_unknown_effect (self : model) (user item : loc) (s : state)
    (uv iv : list Z) :
  arrays s !! user = Some uv ->
  arrays s !! item = Some iv ->
  length uv = length iv ->
  exists idx,
    NoDup idx /\
    (forall i, i ∈ idx <-> flagged self uv iv i = true) /\
    _check_unknown self user item s
    = (Ok (length idx, idx, user, item),
       mkState
         (<[item := mask idx 0%Z iv]> (<[user := mask idx 0%Z uv]> (arrays s)))
         (trace s ++
            match idx with
            | [] => []
            | _ =>
              [PrintUnknownInteractions (length idx)
                 match filter (λ x, unknown_id (n_users self) x = true) uv with
                 | [] => None
                 | l => Some l
                 end
                 match filter (λ x, unknown_id (n_items self) x = true) iv with
                 | [] => None
                 | l => Some l
                 end]
            end)).
Proof.
  intros Hu Hi Hlen.
  destruct (unknown_index_spec self uv iv) as (Hnd & Hin & Hlt).
  set (idx := elements _) in Hnd, Hin, Hlt.
  rewrite <- Hlen, Nat.max_id in Hlt.
  assert (Hlt' : Forall (λ i, i < length iv)%nat idx) by (by rewrite <- Hlen).
  exists idx. split; [done|]. split; [done|].
  unfold _check_unknown, mbind, M_bind, load. simpl.
  rewrite Hu, Hi. simpl. fold idx.
  rewrite !reported_ids.
  destruct (decide (0 < length idx)%nat) as [Hpos|Hpos].
  - unfold setitems at 1. simpl. rewrite Hu. simpl.
    rewrite (set_items_mask idx uv 0%Z Hlt).
    unfold setitems at 1. simpl.
    assert (Hitem : exists w, <[user:=mask idx 0%Z uv]> (arrays s) !! item = Some w
                    /\ mask idx 0%Z w = mask idx 0%Z iv /\ length w = length iv).
    { destruct (decide (user = item)) as [->|Hne].
      - exists (mask idx 0%Z uv). rewrite list_lookup_insert_eq
          by (by apply lookup_lt_Some in Hu).
        assert (uv = iv) by congruence. subst iv.
        by rewrite mask_idemp, length_mask.
      - exists iv. by rewrite list_lookup_insert_ne. }
    destruct Hitem as (w & Hw & Hmask & Hwlen).
    rewrite Hw. simpl.
    rewrite (set_items_mask idx w 0%Z) by (by rewrite Hwlen).
    rewrite Hmask. unfold emit, mret, M_ret. simpl.
    destruct idx; [simpl in Hpos; lia | done].
  - unfold mret, M_ret. simpl.
    assert (idx = []) as -> by (destruct idx; [done | simpl in Hpos; lia]).
    rewrite !mask_nil, app_nil_r.
    rewrite (list_insert_id _ user uv Hu), (list_insert_id _ item iv Hi).
    by destruct s.
Qed.

(** The number of positions of a batch that [flagged] holds at. *)
Lemma length_flagged (self : model) (uv iv : list Z) (idx : list nat) :
  length uv = length iv ->
  NoDup idx ->
  (forall i, i ∈ idx <-> flagged self uv iv i = true) ->
  length idx
  = length (filter (λ i, flagged self uv iv i = true) (seq 0 (length uv))).
Proof.
  intros Hlen Hnd Hin. apply Permutation_length, NoDup_Permutation.
  - done.
  - apply NoDup_filter, NoDup_seq.
  - intros i. rewrite list_elem_of_filter, elem_of_seq, Hin.
    split; [|by intros [? _]]. intros Hf. split; [done|].
    unfold flagged in Hf. apply orb_true_iff in Hf as [Hf|Hf].
    + destruct (uv !! i) eqn:E; [|done]. apply lookup_lt_Some in E. lia.
    + destruct (iv !! i) eqn:E; [|done]. apply lookup_lt_Some in E. lia.
Qed.

(** X2: the diagnostic of [_check_unknown].  On a batch of pairs it prints
    nothing when every id is known, and otherwise exactly one line, which
    gives: the number of positions with an unknown user id or item id, each
    position counted once; the unknown user ids and the unknown item ids as
    the caller passed them (read before they are overwritten), in batch
    order, and [None] for a side without unknown id. *)
Theorem check_unknown_reports_original_ids (self : model) (user item : loc)
    (s : state) (uv iv : list Z) :
  arrays s !! user = Some uv ->
  arrays s !! item = Some iv ->
  length uv = length iv ->
  exists r s',
    _check_unknown self user item s = (Ok r, s') /\
    let n := length (filter (λ i, flagged self uv iv i = true)
                       (seq 0 (length uv))) in
    r.1.1.1 = n /\
    trace s' = trace s ++
      match n with
      | O => []
      | _ =>
        [PrintUnknownInteractions n
           match filter (λ x, unknown_id (n_users self) x = true) uv with
           | [] => None
           | l => Some l
           end
           match filter (λ x, unknown_id (n_items self) x = true) iv with
           | [] => None
           | l => Some l
           end]
      end.
Proof.
  intros Hu Hi Hlen.
  destruct (check_unknown_effect self user item s uv iv Hu Hi Hlen)
    as (idx & Hnd & Hin & Hrun).
  pose proof (length_flagged self uv iv idx Hlen Hnd Hin) as Hn.
  eexists _, _. split; [exact Hrun|]. simpl. split; [done|].
  rewrite <- Hn. by destruct idx.
Qed.

Lemma check_unknown_reports_original_ids_witness :
  exists r s',
    _check_unknown (sample_model rating false) 0%nat 1%nat sample_batch
      = (Ok r, s') /\
    let n := length (filter (λ i, flagged (sample_model rating false)
                                    [0; 5; 1; -1]%Z [0; 1; 7; 2]%Z i = true)
                       (seq 0 (length [0; 5; 1; -1]%Z))) in
    r.1.1.1 = n /\
    trace s' = trace sample_batch ++
      match n with
      | O => []
      | _ =>
        [PrintUnknownInteractions n
           match filter (λ x, unknown_id
                                (n_users (sample_model rating false)) x = true)
                   [0; 5; 1; -1]%Z with
           | [] => None
           | l => Some l
           end
           match filter (λ x, unknown_id
                                (n_items (sample_model rating false)) x = true)
                   [0; 1; 7; 2]%Z with
           | [] => None
           | l => Some l
           end]
      end.
Proof.
  apply (check_unknown_reports_original_ids (sample_model rating false)
           0%nat 1%nat sample_batch); reflexivity.
Defined.

(** ** Running the guard twice *)

Lemma flagged_after_mask (self : model) (uv iv : list Z) (idx : list nat) :
  (forall i, i ∈ idx <-> flagged self uv iv i = true) ->
  (0 < n_users self)%nat -> (0 < n_items self)%nat ->
  forall i, flagged self (mask idx 0%Z uv) (mask idx 0%Z iv) i = false.
Proof.
  intros Hin Hnu Hni i.
  destruct (mask_known self uv iv idx Hin Hnu Hni) as [Hu Hi].
  rewrite forallb_forall in Hu, Hi.
  unfold flagged. apply orb_false_iff. split.
  - destruct (mask idx 0%Z uv !! i) as [x|] eqn:E; [|done]. simpl.
    apply negb_true_iff, Hu, list_elem_of_In. by eapply list_elem_of_lookup_2.
  - destruct (mask idx 0%Z iv !! i) as [x|] eqn:E; [|done]. simpl.
    apply negb_true_iff, Hi, list_elem_of_In. by eapply list_elem_of_lookup_2.
Qed.

(** X3: [_check_unknown] is idempotent on the store.  After one run on a
    batch of pairs (with a vocabulary that is not empty, so that the id 0
    written in is itself known), a second run on the same two arrays finds
    no unknown id: it returns the count 0 with an empty index list, prints
    nothing and leaves the state as the first run left it. *)
Theorem check_unknown_twice (self : model) (user item : loc) (s : state)
    (uv iv : list Z) :
  (0 < n_users self)%nat ->
  (0 < n_items self)%nat ->
  arrays s !! user = Some uv ->
  arrays s !! item = Some iv ->
  length uv = length iv ->
  exists r s',
    _check_unknown self user item s = (Ok r, s') /\
    _check_unknown self user item s' = (Ok (0%nat, [], user, item), s').
Proof.
  intros Hnu Hni Hu Hi Hlen.
  destruct (check_unknown_lookup self user item s uv iv Hu Hi Hlen)
    as (idx & s' & Hrun & _ & Hin & Hus & His & _ & _ & _).
  exists (length idx, idx, user, item), s'. split; [done|].
  destruct (check_unknown_lookup self user item s'
              (mask idx 0%Z uv) (mask idx 0%Z iv) Hus His)
    as (idx2 & s2 & Hrun2 & _ & Hin2 & _ & _ & _ & _ & Hnil).
  { by rewrite !length_mask. }
  assert (idx2 = []) as ->.
  { destruct idx2 as [|i l]; [done|]. exfalso.
    assert (Hi2 : flagged self (mask idx 0%Z uv) (mask idx 0%Z iv) i = true)
      by (apply Hin2, list_elem_of_here).
    by rewrite (flagged_after_mask self uv iv idx Hin Hnu Hni i) in Hi2. }
  by rewrite Hrun2, (Hnil eq_refl).
Qed.

Lemma check_unknown_twice_witness :
  exists r s',
    _check_unknown (sample_model rating false) 0%nat 1%nat sample_batch
      = (Ok r, s') /\
    _check_unknown (sample_model rating false) 0%nat 1%nat s'
      = (Ok (0%nat, [], 0%nat, 1%nat), s').
Proof.
  apply (check_unknown_twice (sample_model rating false) 0%nat 1%nat
           sample_batch [0; 5; 1; -1]%Z [0; 1; 7; 2]%Z);
    simpl; first [lia | reflexivity].
Defined.

(** ** Arrays of different lengths *)

Lemma set_items_raise {A} (idx : list nat) : forall (a : list A) (v : A),
  Exists (λ i, length a <= i)%nat idx -> set_items a idx v = Raise IndexError.
Proof.
  induction idx as [|i idx IH]; intros a v H; [by apply Exists_nil in H|].
  simpl. destruct (decide (i < length a)%nat) as [Hi|Hi]; [|done].
  apply IH. rewrite length_insert.
  apply Exists_cons in H as [H|H]; [lia | done].
Qed.

(** X4: a batch whose item array is shorter than its user array.  When an
    unknown user id sits at a position the item array does not have,
    [_check_unknown] raises [IndexError] on [item[unknown_index] = 0]; by
    then [user[unknown_index] = 0] has been carried out, so the caller's
    user array is left overwritten at every recorded position, the item
    array is as it was, and no diagnostic has been printed. *)
Theorem check_unknown_short_item_array (self : model) (user item : loc)
    (s : state) (uv iv : list Z) (i : nat) (x : Z) :
  arrays s !! user = Some uv ->
  arrays s !! item = Some iv ->
  (length iv <= i)%nat ->
  uv !! i = Some x ->
  unknown_id (n_users self) x = true ->
  exists idx,
    (forall j, j ∈ idx <-> flagged self uv iv j = true) /\
    _check_unknown self user item s
    = (Raise IndexError,
       mkState (<[user := mask idx 0%Z uv]> (arrays s)) (trace s)).
Proof.
  intros Hu Hi Hlen Hx Hunk.
  assert (Hlt_i : (i < length uv)%nat) by (by apply lookup_lt_Some in Hx).
  assert (Hne : user <> item).
  { intros ->. assert (uv = iv) by congruence. subst. lia. }
  destruct (unknown_index_spec self uv iv) as (Hnd & Hin & Hlt).
  set (idx := elements _) in Hnd, Hin, Hlt.
  rewrite Nat.max_l in Hlt by lia.
  assert (Hi_in : i ∈ idx).
  { apply Hin. unfold flagged. by rewrite Hx; simpl; rewrite Hunk. }
  exists idx. split; [done|].
  unfold _check_unknown, mbind, M_bind, load. simpl.
  rewrite Hu, Hi. simpl. fold idx.
  rewrite decide_True
    by (destruct idx; [by apply not_elem_of_nil in Hi_in | simpl; lia]).
  unfold setitems at 1. simpl. rewrite Hu. simpl.
  rewrite (set_items_mask idx uv 0%Z Hlt).
  unfold setitems at 1. simpl.
  rewrite list_lookup_insert_ne by done. rewrite Hi. simpl.
  rewrite set_items_raise; [done|].
  apply Exists_exists. exists i. split; [done | simpl; lia].
Qed.

Lemma check_unknown_short_item_array_witness :
  exists idx,
    (forall j, j ∈ idx <->
       flagged (sample_model rating false) [0; 1; 7]%Z [0; 1]%Z j = true) /\
    _check_unknown (sample_model rating false) 0%nat 1%nat
      (mkState [[0; 1; 7]%Z; [0; 1]%Z] [])
    = (Raise IndexError,
       mkState (<[0%nat := mask idx 0%Z [0; 1; 7]%Z]>
                  (arrays (mkState [[0; 1; 7]%Z; [0; 1]%Z] [])))
         (trace (mkState [[0; 1; 7]%Z; [0; 1]%Z] []))).
Proof.
  apply (check_unknown_short_item_array (sample_model rating false)
           0%nat 1%nat (mkState [[0; 1; 7]%Z; [0; 1]%Z] [])
           [0; 1; 7]%Z [0; 1]%Z 2%nat 7%Z);
    simpl; first [lia | reflexivity].
Defined.

(** ** The predictions of [WideDeep.predict] *)

Lemma entries_squeeze (l : list Q) : entries (squeeze l) = l.
Proof. by destruct l as [|x [|y l]]. Qed.

(** What [WideDeep.predict] returns for a batch of pairs, a single pair
    with an unknown id apart. *)
Lemma predict_returns (other : list Z -> list Z -> result tensor)
    (self : model) (user item : pyarg) (s : state) (uv iv : list Z) :
  (0 < n_users self)%nat ->
  (0 < n_items self)%nat ->
  denotes s user uv ->
  denotes s item iv ->
  dtype_of user = int64 ->
  dtype_of item = int64 ->
  length uv = length iv ->
  (length uv = 1%nat -> flagged self uv iv 0 = false) ->
  exists idx r s',
    (forall i, i ∈ idx <-> flagged self uv iv i = true) /\
    WideDeep.predict other self user item s = (Ok r, s') /\
    entries r
    = mask idx (default_prediction self)
        ((match task self with
          | rating => WideDeep.clip (lower_bound self) (upper_bound self)
          | ranking => sigmoid self
          end)
         <$> zip_with (λ u i, output self (Z.to_nat u) (Z.to_nat i))
               (mask idx 0%Z uv) (mask idx 0%Z iv)).
Proof.
  intros Hnu Hni Hdu Hdi Htu Hti Hlen Hone.
  destruct (predict_run other self user item s uv iv Hnu Hni Hdu Hdi Htu Hti
              Hlen)
    as (idx & ur & ir & s' & Hin & Hlt & _ & _ & _ & _ & Hrun).
  set (post := match task self with
               | rating => WideDeep.clip (lower_bound self) (upper_bound self)
               | ranking => sigmoid self
               end) in *.
  set (scores := post <$> zip_with (λ u i, output self (Z.to_nat u) (Z.to_nat i))
                            (mask idx 0%Z uv) (mask idx 0%Z iv)) in *.
  assert (Hslen : length scores = length uv).
  { unfold scores. rewrite length_fmap, length_zip_with, !length_mask. lia. }
  cbv zeta in Hrun.
  destruct (decide (0 < length idx)%nat) as [Hpos|Hpos].
  - assert (H1 : length uv <> 1%nat).
    { intros H1. destruct idx as [|i idx]; [simpl in Hpos; lia|].
      apply Forall_cons in Hlt as [Hi _].
      assert (i = 0%nat) as -> by lia.
      specialize (Hone H1).
      assert (flagged self uv iv 0 = true) by (apply Hin, list_elem_of_here).
      congruence. }
    rewrite squeeze_array in Hrun by (by rewrite Hslen).
    rewrite <- Hslen in Hlt. simpl in Hrun.
    rewrite (set_items_mask idx scores _ Hlt) in Hrun.
    by exists idx, (One_d (mask idx (default_prediction self) scores)), s'.
  - assert (idx = []) as Hnil by (destruct idx; [done | simpl in Hpos; lia]).
    exists idx, (squeeze scores), s'. split_and!; [done | done |].
    rewrite entries_squeeze. fold scores. by rewrite Hnil at 1; rewrite mask_nil.
Qed.

(** The entry of the returned array at a position that is not flagged. *)
Lemma predict_run_lookup (self : model) (uv iv : list Z) (idx : list nat)
    (post : Q -> Q) (i : nat) (u v : Z) :
  (forall i, i ∈ idx <-> flagged self uv iv i = true) ->
  uv !! i = Some u -> iv !! i = Some v ->
  flagged self uv iv i = false ->
  mask idx (default_prediction self)
    (post <$> zip_with (λ u i, output self (Z.to_nat u) (Z.to_nat i))
       (mask idx 0%Z uv) (mask idx 0%Z iv)) !! i
  = Some (post (output self (Z.to_nat u) (Z.to_nat v))).
Proof.
  intros Hin Hu Hv Hf.
  assert (Hni : i ∉ idx) by (rewrite Hin, Hf; done).
  rewrite lookup_mask, list_lookup_fmap, lookup_zip_with, !lookup_mask.
  rewrite Hu, Hv. simpl. by rewrite !decide_False.
Qed.

(** X5: sanitising a batch leaves the other pairs alone.  At every position
    of a batch of pairs where both ids are known, what [WideDeep.predict]
    returns holds the output of the network for that very pair, clipped to
    the rating bounds in a rating task and passed through the logistic
    function in a ranking task, whatever unknown ids the rest of the batch
    holds.  (The ids are held in [int64] arrays; the batch is not a single
    pair with an unknown id, on which [predict] raises; for a single pair
    of known ids the result is the bare float.) *)
Theorem predict_scores_known_pairs
    (other : list Z -> list Z -> result tensor) (self : model)
    (user item : pyarg) (s : state) (uv iv : list Z) :
  (0 < n_users self)%nat ->
  (0 < n_items self)%nat ->
  denotes s user uv ->
  denotes s item iv ->
  dtype_of user = int64 ->
  dtype_of item = int64 ->
  length uv = length iv ->
  (length uv = 1%nat -> flagged self uv iv 0 = false) ->
  exists preds s',
    WideDeep.predict other self user item s = (Ok preds, s') /\
    forall i u v,
      uv !! i = Some u -> iv !! i = Some v ->
      flagged self uv iv i = false ->
      entries preds !! i
      = Some (match task self with
              | rating =>
                  WideDeep.clip (lower_bound self) (upper_bound self)
                    (output self (Z.to_nat u) (Z.to_nat v))
              | ranking => sigmoid self (output self (Z.to_nat u) (Z.to_nat v))
              end).
Proof.
  intros Hnu Hni Hdu Hdi Htu Hti Hlen Hone.
  destruct (predict_returns other self user item s uv iv Hnu Hni Hdu Hdi
              Htu Hti Hlen Hone)
    as (idx & r & s' & Hin & Hrun & Hr).
  exists r, s'. split; [exact Hrun|].
  intros i u v Hu Hv Hf. rewrite Hr.
  rewrite (predict_run_lookup self uv iv idx _ i u v Hin Hu Hv Hf).
  by destruct (task self).
Qed.

Lemma predict_scores_known_pairs_witness :
  exists preds s',
    WideDeep.predict (λ _ _, Raise ValueError) (sample_model ranking false)
      (NdArray 0%nat) (PyList [0; 1; 7; 2]%Z) sample_batch = (Ok preds, s') /\
    forall i u v,
      [0; 5; 1; -1]%Z !! i = Some u -> [0; 1; 7; 2]%Z !! i = Some v ->
      flagged (sample_model ranking false)
        [0; 5; 1; -1]%Z [0; 1; 7; 2]%Z i = false ->
      entries preds !! i
      = Some (match task (sample_model ranking false) with
              | rating =>
                  WideDeep.clip (lower_bound (sample_model ranking false))
                    (upper_bound (sample_model ranking false))
                    (output (sample_model ranking false)
                       (Z.to_nat u) (Z.to_nat v))
              | ranking =>
                  sigmoid (sample_model ranking false)
                    (output (sample_model ranking false)
                       (Z.to_nat u) (Z.to_nat v))
              end).
Proof.
  apply (predict_scores_known_pairs (λ _ _, Raise ValueError)
           (sample_model ranking false)
           (NdArray 0%nat) (PyList [0; 1; 7; 2]%Z) sample_batch);
    simpl; first [lia | reflexivity].
Defined.

Lemma clip_bounds (lo hi x : Q) :
  (lo <= hi)%Q -> (lo <= WideDeep.clip lo hi x <= hi)%Q.
Proof.
  intros H. unfold WideDeep.clip. split.
  - apply Q.min_glb; [apply Q.le_max_r | done].
  - apply Q.le_min_r.
Qed.

(** X6: the range of rating predictions.  In a rating task whose bounds
    are in order, every prediction that [WideDeep.predict] returns for a
    batch of pairs lies between [lower_bound] and [upper_bound], the
    predictions at the positions of unknown ids apart: those are
    [default_prediction], which is not clipped.  (The ids are held in
    [int64] arrays; the batch is not a single pair with an unknown id, on
    which [predict] raises.) *)
Theorem predict_rating_within_bounds
    (other : list Z -> list Z -> result tensor) (self : model)
    (user item : pyarg) (s : state) (uv iv : list Z) :
  task self = rating ->
  (lower_bound self <= upper_bound self)%Q ->
  (0 < n_users self)%nat ->
  (0 < n_items self)%nat ->
  denotes s user uv ->
  denotes s item iv ->
  dtype_of user = int64 ->
  dtype_of item = int64 ->
  length uv = length iv ->
  (length uv = 1%nat -> flagged self uv iv 0 = false) ->
  exists preds s',
    WideDeep.predict other self user item s = (Ok preds, s') /\
    length (entries preds) = length uv /\
    forall i p, entries preds !! i = Some p ->
      if flagged self uv iv i then p = default_prediction self
      else (lower_bound self <= p <= upper_bound self)%Q.
Proof.
  intros Ht Hb Hnu Hni Hdu Hdi Htu Hti Hlen Hone.
  destruct (predict_returns other self user item s uv iv Hnu Hni Hdu Hdi
              Htu Hti Hlen Hone)
    as (idx & r & s' & Hin & Hrun & Hr).
  exists r, s'. split; [exact Hrun|]. rewrite Hr. split.
  - rewrite length_mask, length_fmap, length_zip_with, !length_mask. lia.
  - intros i p Hp.
    assert (Hlt : (i < length uv)%nat).
    { apply lookup_lt_Some in Hp.
      rewrite length_mask, length_fmap, length_zip_with, !length_mask in Hp.
      lia. }
    destruct (lookup_lt_is_Some_2 uv i Hlt) as [u Hu].
    destruct (lookup_lt_is_Some_2 iv i) as [v Hv]; [lia|].
    destruct (flagged self uv iv i) eqn:Hf.
    + apply Hin in Hf. rewrite lookup_mask in Hp.
      destruct (_ !! i) as [q|]; [|done]. simpl in Hp.
      rewrite decide_True in Hp by done. congruence.
    + rewrite (predict_run_lookup self uv iv idx _ i u v Hin Hu Hv Hf) in Hp.
      injection Hp as <-. rewrite Ht. by apply clip_bounds.
Qed.

Lemma predict_rating_within_bounds_witness :
  exists preds s',
    WideDeep.predict (λ _ _, Raise ValueError) (sample_model rating false)
      (NdArray 0%nat) (PyList [0; 1; 7; 2]%Z) sample_batch = (Ok preds, s') /\
    length (entries preds) = length [0; 5; 1; -1]%Z /\
    forall i p, entries preds !! i = Some p ->
      if flagged (sample_model rating false)
           [0; 5; 1; -1]%Z [0; 1; 7; 2]%Z i
      then p = default_prediction (sample_model rating false)
      else (lower_bound (sample_model rating false) <= p
            <= upper_bound (sample_model rating false))%Q.
Proof.
  apply (predict_rating_within_bounds (λ _ _, Raise ValueError)
           (sample_model rating false)
           (NdArray 0%nat) (PyList [0; 1; 7; 2]%Z) sample_batch);
    simpl; first [lia | reflexivity | done].
Defined.

(** ** The items [recommend_user] returns are the best ones *)

Lemma lookup_lt_before {A} (l : list A) (p q : nat) (a b : A) :
  l !! p = Some a -> l !! q = Some b -> (p < q)%nat -> before l a b.
Proof.
  unfold before. revert p q. induction l as [|z l IH]; intros p q Ha Hb Hpq.
  - done.
  - destruct p as [|p]; simpl in Ha.
    + injection Ha as ->. destruct q as [|q]; [lia|]. simpl in Hb.
      apply sublist_skip, singleton_sublist_l.
      by eapply list_elem_of_lookup_2.
    + destruct q as [|q]; [lia|]. simpl in Hb.
      apply sublist_cons. apply (IH p q); [done | done | lia].
Qed.

Lemma is_partitioned_spec (a : list Q) (kth : nat) (p : list nat) :
  is_partitioned a kth p = true ->
  p ≡ₚ seq 0 (length a) /\
  forall x y vx vy,
    x ∈ take (S kth) p -> y ∈ drop kth p ->
    a !! x = Some vx -> a !! y = Some vy -> (vx <= vy)%Q.
Proof.
  unfold is_partitioned. intros [Hp Hle]%andb_true_iff.
  split; [by apply bool_decide_eq_true in Hp|].
  intros x y vx vy Hx Hy Hvx Hvy.
  rewrite forallb_forall in Hle.
  specialize (Hle x (proj1 (list_elem_of_In _ _) Hx)).
  rewrite forallb_forall in Hle.
  specialize (Hle y (proj1 (list_elem_of_In _ _) Hy)).
  rewrite Hvx, Hvy in Hle. by apply Qle_bool_iff in Hle.
Qed.

(** The list [select] returns, for a window inside the catalog and an index
    array that is a permutation of the item ids. *)
Lemma select_run (self : model) (recos : list Q) (consumed : list nat)
    (n_rec : nat) :
  (n_rec + length consumed <= length recos)%nat ->
  partition_call self recos (n_rec + length consumed)
    ≡ₚ seq 0 (length recos) ->
  exists ids scores,
    ids = drop (match (n_rec + length consumed)%nat with
                | O => 0
                | _ => length recos - (n_rec + length consumed)
                end)%nat
            (partition_call self recos (n_rec + length consumed)) /\
    length scores = length ids /\
    (forall i x, (i, x) ∈ zip ids scores -> recos !! i = Some x) /\
    select self recos consumed n_rec
    = Ok (take n_rec (filter (λ rec : nat * Q, rec.1 ∉ consumed)
                        (sorted_by_neg_score (zip ids scores)))).
Proof.
  intros Hwin Hperm.
  set (count := (n_rec + length consumed)%nat) in *.
  set (part := partition_call self recos count) in *.
  assert (Hplen : length part = length recos)
    by (by rewrite (Permutation_length Hperm), length_seq).
  set (ids := drop (match count with O => 0 | _ => length recos - count end)%nat part).
  assert (Hsub : ids `sublist_of` part) by apply sublist_drop.
  assert (Hlt : Forall (λ i, i < length recos)%nat ids).
  { apply Forall_forall. intros i Hi.
    eapply elem_of_sublist in Hi; [|exact Hsub].
    rewrite Hperm in Hi. apply elem_of_seq in Hi. lia. }
  destruct (take_items_ok recos ids Hlt) as (scores & Htake & Hslen & Hsc).
  exists ids, scores. split_and!; [done | done | done |].
  unfold select. fold count.
  rewrite argpartition_in_window by done. simpl. fold part.
  rewrite slice_from_window by lia. rewrite Hplen. fold ids.
  by rewrite Htake.
Qed.

Lemma select_best (self : model) (recos : list Q) (consumed : list nat)
    (n_rec : nat) :
  (n_rec + length consumed <= length recos)%nat ->
  is_partitioned recos (length recos - (n_rec + length consumed))
    (partition_call self recos (n_rec + length consumed)) = true ->
  exists res,
    select self recos consumed n_rec = Ok res /\
    length res = n_rec /\
    best_unconsumed recos consumed res.
Proof.
  intros Hwin [Hperm Hpart]%is_partitioned_spec.
  destruct (select_spec self recos consumed n_rec Hwin Hperm)
    as (res & Hsel & Hlen & _).
  exists res. split_and!; [done | done |].
  destruct (select_run self recos consumed n_rec Hwin Hperm)
    as (ids & scores & Hids & Hslen & Hsc & Hsel').
  rewrite Hsel in Hsel'. injection Hsel' as ->.
  set (count := (n_rec + length consumed)%nat) in *.
  set (part := partition_call self recos count) in *.
  set (keep := λ rec : nat * Q, rec.1 ∉ consumed) in *.
  set (rank := sorted_by_neg_score (zip ids scores)) in *.
  assert (Hrank : rank ≡ₚ zip ids scores) by apply sort_by_perm.
  intros j y Hj Hjc Hjr i x Hix.
  destruct n_rec as [|n]; [by apply not_elem_of_nil in Hix|].
  assert (Hids' : ids = drop (length recos - count) part) by done.
  apply elem_of_take in Hix as (p & Hp & Hpn).
  assert (Hi_rank : (i, x) ∈ rank).
  { apply list_elem_of_lookup_2 in Hp.
    by apply list_elem_of_filter in Hp as [_ ?]. }
  assert (Hi_ids : i ∈ ids).
  { rewrite Hrank in Hi_rank. by apply elem_of_zip_l in Hi_rank. }
  assert (Hxi : recos !! i = Some x) by (apply Hsc; by rewrite <- Hrank).
  assert (Hj_part : j ∈ part).
  { rewrite Hperm. apply elem_of_seq. apply lookup_lt_Some in Hj. lia. }
  rewrite <- (take_drop (length recos - count) part) in Hj_part.
  apply elem_of_app in Hj_part as [Hjt|Hjd].
  - apply (Hpart j i y x); [|by rewrite <- Hids' | done | done].
    apply elem_of_take in Hjt as (q & Hq & Hqn).
    apply elem_of_take. exists q. split; [done | lia].
  - rewrite <- Hids' in Hjd.
    apply list_elem_of_lookup in Hjd as (q & Hq).
    destruct (lookup_lt_is_Some_2 scores q) as [y' Hy'].
    { rewrite Hslen. by apply lookup_lt_Some in Hq. }
    assert (Hzip : zip ids scores !! q = Some (j, y'))
      by (by apply lookup_zip_Some).
    apply list_elem_of_lookup_2 in Hzip.
    assert (y' = y) as -> by (apply Hsc in Hzip; congruence).
    assert (Hj_kept : (j, y) ∈ filter keep rank).
    { apply list_elem_of_filter. split; [done | by rewrite Hrank]. }
    apply list_elem_of_lookup in Hj_kept as (q' & Hq').
    assert (Hq'n : (S n <= q')%nat).
    { destruct (decide (q' < S n)%nat) as [Hlt|]; [|lia]. exfalso.
      apply Hjr. apply list_elem_of_fmap. exists (j, y). split; [done|].
      apply elem_of_take. by exists q'. }
    assert (Hb : before (filter keep rank) (i, x) (j, y))
      by (apply (lookup_lt_before _ p q'); [done | done | lia]).
    assert (Hb' : before rank (i, x) (j, y)).
    { unfold before. etrans; [exact Hb | apply sublist_filter]. }
    apply (sorted_before by_neg_score) in Hb';
      [by apply by_neg_score_le in Hb' |].
    apply sort_by_sorted; [apply by_neg_score_total | apply by_neg_score_trans].
Qed.

(** X7: [recommend_user] returns the best items.  For a known user (other
    than 0) whose window [n_rec + len(consumed)] fits the catalog, and an
    index array from [np.argpartition] that meets NumPy's contract for the
    position [n_items - count], the [n_rec] items returned are the top of
    the catalog among the items the user has not consumed: whatever item is
    neither consumed nor returned has a score that is at most the score of
    every returned item.  This holds in [YouTubeMatch] and, for a catalog
    that does not consist of a single item, in [WideDeep]. *)
Theorem recommend_user_returns_best_items (self : model) (user : Z)
    (n_rec : nat) (s : state) (consumed : list nat) (row : list Q) :
  (0 < user < Z.of_nat (n_users self))%Z ->
  user_consumed self !! Z.to_nat user = Some consumed ->
  user_vector self !! Z.to_nat user = Some row ->
  length (item_weights self) = n_items self ->
  (n_rec + length consumed <= n_items self)%nat ->
  is_partitioned (widedeep_scores self (Z.to_nat user))
    (n_items self - (n_rec + length consumed))
    (partition_call self (widedeep_scores self (Z.to_nat user))
       (n_rec + length consumed)) = true ->
  is_partitioned (youtube_scores self row)
    (n_items self - (n_rec + length consumed))
    (partition_call self (youtube_scores self row)
       (n_rec + length consumed)) = true ->
  (n_items self <> 1%nat ->
   exists res,
     WideDeep.recommend_user self user n_rec s = (Ok (Some res), s) /\
     length res = n_rec /\
     best_unconsumed (widedeep_scores self (Z.to_nat user)) consumed res)
  /\
  (exists res,
     YouTubeMatch.recommend_user self user n_rec s = (Ok (Some res), s) /\
     length res = n_rec /\
     best_unconsumed (youtube_scores self row) consumed res).
Proof.
  intros Hu Hc Hr Hw Hn Hpw Hpy. split.
  - intros H1.
    destruct (select_best self (widedeep_scores self (Z.to_nat user))
                consumed n_rec)
      as (res & Hsel & Hlen & Hbest).
    { by rewrite length_widedeep_scores. }
    { by rewrite length_widedeep_scores. }
    exists res.
    by rewrite (widedeep_recommend_known self user n_rec s consumed Hu Hc H1),
      Hsel.
  - destruct (select_best self (youtube_scores self row) consumed n_rec)
      as (res & Hsel & Hlen & Hbest).
    { by rewrite length_youtube_scores, Hw. }
    { by rewrite length_youtube_scores, Hw. }
    exists res.
    by rewrite (youtube_recommend_known self user n_rec s consumed row
                  Hu Hc Hr), Hsel.
Qed.

Lemma recommend_user_returns_best_items_witness :
  let self := sample_model ranking false in
  (exists res,
     WideDeep.recommend_user self 1 2 empty_state
       = (Ok (Some res), empty_state) /\
     length res = 2%nat /\
     best_unconsumed (widedeep_scores self (Z.to_nat 1)) [] res)
  /\
  (exists res,
     YouTubeMatch.recommend_user self 1 2 empty_state
       = (Ok (Some res), empty_state) /\
     length res = 2%nat /\
     best_unconsumed (youtube_scores self [1%Q]) [] res).
Proof.
  destruct (recommend_user_returns_best_items (sample_model ranking false)
              1 2 empty_state [] [1%Q]) as [Hw Hy].
  - simpl. lia.
  - reflexivity.
  - reflexivity.
  - reflexivity.
  - simpl. lia.
  - reflexivity.
  - reflexivity.
  - split; [apply Hw; simpl; lia | exact Hy].
Defined.

(** * Further properties of the metrics *)

(** ** Precision and recall count the hits *)

Lemma rank_list_fmap (idx : list nat) (k : nat) :
  mask idx 1%Q (zeros k)
  = (λ j, if decide (j ∈ idx) then 1%Q else 0%Q) <$> seq 0 k.
Proof.
  apply list_eq. intros j. rewrite list_lookup_fmap.
  destruct (decide (j < k)%nat) as [Hj|Hj].
  - rewrite rank_list_lookup by done.
    by rewrite (lookup_seq_lt 0 k j Hj).
  - rewrite (lookup_ge_None_2 (mask _ _ _))
      by (rewrite length_mask, zeros_length; lia).
    by rewrite lookup_seq_ge by lia.
Qed.

Lemma sumQ_indicator (P : nat -> Prop) `{!forall x, Decision (P x)}
    (l : list nat) :
  (sumQ ((λ j, if decide (P j) then 1%Q else 0%Q) <$> l)
   == inject_Z (Z.of_nat (length (filter P l))))%Q.
Proof.
  induction l as [|x l IH]; [done|].
  rewrite fmap_cons. change (sumQ (?a :: ?r)) with (a + sumQ r)%Q.
  rewrite IH. destruct (decide (P x)).
  - rewrite filter_cons_True by done. simpl length.
    rewrite Nat2Z.inj_succ. unfold Z.succ. rewrite inject_Z_plus. ring.
  - rewrite filter_cons_False by done. ring.
Qed.

(** The entries of the indicator vector add up to the number of hits. *)
Lemma sumQ_rank_list (idx : list nat) (k : nat) :
  NoDup idx -> Forall (λ i, i < k)%nat idx ->
  (sumQ (mask idx 1%Q (zeros k)) == inject_Z (Z.of_nat (length idx)))%Q.
Proof.
  intros Hnd Hlt. rewrite rank_list_fmap.
  rewrite (sumQ_indicator (λ j, j ∈ idx)). by rewrite hits_in_range.
Qed.

Lemma intersect1d_hits (y_true y_reco : list nat) :
  length (intersect1d y_true y_reco).1.1
  = length (filter (λ x, x ∈ y_reco) y_true).
Proof. unfold intersect1d. simpl. apply Permutation_length, sort_by_perm. Qed.

(** X8: precision and recall as counts.  For a duplicate-free ground truth
    and a duplicate-free recommendation list of at most [k] entries
    ([k >= 1]), the value of
    a user in [precision_at_k] is the number of ground-truth items that were
    recommended divided by [k] (by [k] even when fewer than [k] items were
    recommended), and the value in [recall_at_k] is that number divided by
    the size of the ground truth. *)
Theorem precision_recall_count_hits (y_true y_reco : list nat) (k : nat) :
  NoDup y_true ->
  NoDup y_reco ->
  (length y_reco <= k)%nat ->
  (1 <= k)%nat ->
  let hits := length (filter (λ x, x ∈ y_reco) y_true) in
  (exists v, precision_user y_true y_reco k = Ok (fin v) /\
     (v == inject_Z (Z.of_nat hits) / inject_Z (Z.of_nat k))%Q) /\
  (exists v, recall_user y_true y_reco = Ok (fin v) /\
     (v == inject_Z (Z.of_nat hits) / inject_Z (Z.of_nat (length y_true)))%Q).
Proof.
  intros Hnd _ Hk Hk1 hits.
  pose proof (intersect1d_hits y_true y_reco) as Hhits. fold hits in Hhits.
  destruct (intersect1d_spec y_true y_reco Hnd)
    as (common & it & idx & Hint & Hlen & Hle & Hndi & Hidx).
  rewrite Hint in Hhits. simpl in Hhits.
  split.
  - unfold precision_user. rewrite Hint.
    case_decide as Hpos.
    + rewrite (rank_list_set idx k (length y_reco)) by done. simpl.
      assert (Hltk : Forall (λ i, i < k)%nat idx).
      { eapply Forall_impl; [exact Hidx|]. simpl. lia. }
      unfold mean_arr.
      destruct (mask idx 1%Q (zeros k)) as [|r0 rl] eqn:E.
      { apply (f_equal length) in E.
        rewrite length_mask, zeros_length in E. simpl in E. lia. }
      rewrite <- E. eexists. split; [done|].
      rewrite sumQ_rank_list by done.
      by rewrite length_mask, zeros_length, Hlen, Hhits.
    + exists 0%Q. split; [done|].
      assert (hits = 0)%nat as -> by lia.
      unfold Qdiv. by rewrite Qmult_0_l.
  - unfold recall_user. rewrite Hint.
    case_decide as Hpos.
    + rewrite decide_False by lia. eexists. split; [done|].
      by rewrite Hhits.
    + exists 0%Q. split; [done|].
      assert (hits = 0)%nat as -> by lia.
      unfold Qdiv. by rewrite Qmult_0_l.
Qed.

Lemma precision_recall_count_hits_witness :
  let hits := length (filter (λ x, x ∈ [7; 1; 3]%nat) [3; 7; 8]%nat) in
  (exists v, precision_user [3; 7; 8]%nat [7; 1; 3]%nat 4 = Ok (fin v) /\
     (v == inject_Z (Z.of_nat hits) / inject_Z (Z.of_nat 4))%Q) /\
  (exists v, recall_user [3; 7; 8]%nat [7; 1; 3]%nat = Ok (fin v) /\
     (v == inject_Z (Z.of_nat hits)
           / inject_Z (Z.of_nat (length [3; 7; 8]%nat)))%Q).
Proof.
  apply (precision_recall_count_hits [3; 7; 8]%nat [7; 1; 3]%nat 4).
  - by apply (bool_decide_unpack _).
  - by apply (bool_decide_unpack _).
  - simpl. lia.
  - lia.
Defined.

(** ** A recommendation list with all its hits in front *)

Lemma index_of_NoDup (l : list nat) (i x : nat) :
  NoDup l -> l !! i = Some x -> index_of x l = i.
Proof.
  intros Hnd. revert i. induction Hnd as [|y l Hy Hnd IH]; intros i Hi; [done|].
  simpl. destruct i as [|i]; simpl in Hi.
  - injection Hi as ->. by rewrite decide_True.
  - rewrite decide_False.
    + f_equal. by apply IH.
    + intros ->. apply Hy. by eapply list_elem_of_lookup_2.
Qed.

(** The positions [np.intersect1d] gives for the recommendation list are
    the positions of the recommended items that are in the ground truth. *)
Lemma intersect1d_positions (y_true y_reco : list nat) (i : nat) :
  NoDup y_reco ->
  i ∈ (intersect1d y_true y_reco).2 <->
  exists x, y_reco !! i = Some x /\ x ∈ y_true.
Proof.
  intros Hnd. unfold intersect1d. simpl.
  rewrite list_elem_of_fmap. split.
  - intros (x & -> & Hx). rewrite sort_by_perm in Hx.
    apply list_elem_of_filter in Hx as [Hr Ht].
    exists x. split; [by apply index_of_lookup | done].
  - intros (x & Hi & Ht). exists x. split.
    + symmetry. by apply index_of_NoDup.
    + rewrite sort_by_perm. apply list_elem_of_filter. split; [|done].
      by eapply list_elem_of_lookup_2.
Qed.

Lemma rank_list_hits_first (idx : list nat) (k h : nat) :
  (h <= k)%nat -> (forall i, i ∈ idx <-> (i < h)%nat) ->
  mask idx 1%Q (zeros k) = replicate h 1%Q ++ replicate (k - h) 0%Q.
Proof.
  intros Hh Hin. apply list_eq. intros j.
  destruct (decide (j < k)%nat) as [Hj|Hj].
  - rewrite rank_list_lookup by done.
    destruct (decide (j < h)%nat) as [Hjh|Hjh].
    + rewrite lookup_app_l by (by rewrite length_replicate).
      rewrite lookup_replicate_2 by done.
      by rewrite decide_True by (by apply Hin).
    + rewrite lookup_app_r by (rewrite length_replicate; lia).
      rewrite length_replicate, lookup_replicate_2 by lia.
      by rewrite decide_False by (by rewrite Hin).
  - rewrite !lookup_ge_None_2; [done | |].
    + rewrite length_app, !length_replicate. lia.
    + rewrite length_mask, zeros_length. lia.
Qed.

Lemma sumQ_ones (n : nat) :
  (sumQ (replicate n 1%Q) == inject_Z (Z.of_nat n))%Q.
Proof.
  induction n as [|n IH]; [done|].
  change (sumQ (replicate (S n) 1%Q)) with (1 + sumQ (replicate n 1%Q))%Q.
  rewrite IH, Nat2Z.inj_succ. unfold Z.succ. rewrite inject_Z_plus. ring.
Qed.

Lemma mean_arr_ones (n : nat) :
  (1 <= n)%nat ->
  exists v, mean_arr (replicate n 1%Q) = fin v /\ (v == 1)%Q.
Proof.
  intros Hn. destruct n as [|n]; [lia|].
  eexists. split; [done|].
  rewrite sumQ_ones, length_replicate.
  apply Qmult_inv_r. intros H. unfold Qeq in H. simpl in H. lia.
Qed.

Lemma sumQ_all_ones (xs : list Q) :
  Forall (λ x, x == 1)%Q xs ->
  (sumQ xs == inject_Z (Z.of_nat (length xs)))%Q.
Proof.
  induction 1 as [|x xs Hx _ IH]; [done|].
  change (sumQ (x :: xs)) with (x + sumQ xs)%Q.
  rewrite IH, Hx. simpl length.
  rewrite Nat2Z.inj_succ. unfold Z.succ. rewrite inject_Z_plus. ring.
Qed.

(** The mean of values that are all 1. *)
Lemma mean_all_ones (vs : list (npfloat Q)) :
  vs <> [] ->
  Forall (λ v, exists x, v = fin x /\ (x == 1)%Q) vs ->
  exists m, mean vs = fin m /\ (m == 1)%Q.
Proof.
  intros Hne Hvs.
  assert (exists xs, vs = fin <$> xs /\ Forall (λ x, x == 1)%Q xs)
    as (xs & -> & Hxs).
  { clear Hne. induction Hvs as [|v vs (x & -> & Hx) _ (xs & -> & Hxs)].
    - by exists [].
    - exists (x :: xs). split; [done | by constructor]. }
  unfold mean. rewrite finite_all_fin.
  destruct xs as [|x xs]; [done|]. eexists. split; [done|].
  rewrite (sumQ_all_ones _ Hxs).
  apply Qmult_inv_r. intros H. unfold Qeq in H. simpl in H. lia.
Qed.

Lemma sumR_ones_zeros (h z : nat) :
  sumR (replicate h 1%R ++ replicate z 0%R) = INR h.
Proof.
  induction h as [|h IH].
  - simpl. induction z as [|z IHz]; [done|]. simpl. rewrite IHz. lra.
  - change (replicate (S h) 1%R ++ replicate z 0%R)
      with (1%R :: (replicate h 1%R ++ replicate z 0%R)).
    change (sumR (?a :: ?r)) with (a + sumR r)%R.
    rewrite IH, S_INR. lra.
Qed.

(** X9: a list with all its hits in front is ideal.  When the first [h]
    entries of a duplicate-free recommendation list of at most [k] entries
    are ground-truth items and no later entry is ([h >= 1]), the user's
    average precision is 1 and the user's NDCG is exactly 1, however many
    ground-truth items were not recommended: both are normalised by what
    the recommended list itself holds, not by the size of the ground
    truth. *)
Theorem hits_in_front_score_one (y_true y_reco : list nat) (k h : nat) :
  NoDup y_true ->
  NoDup y_reco ->
  (length y_reco <= k)%nat ->
  (1 <= h <= length y_reco)%nat ->
  Forall (λ x, x ∈ y_true) (take h y_reco) ->
  Forall (λ x, x ∉ y_true) (drop h y_reco) ->
  (exists v, average_precision_at_k y_true y_reco k = Ok (fin v) /\
     (v == 1)%Q) /\
  ndcg_user y_true y_reco k = Ok (fin 1%R).
Proof.
  intros Hnt Hnr Hk Hh Hhit Hmiss.
  assert (Hfront : forall i x,
            y_reco !! i = Some x -> (x ∈ y_true <-> (i < h)%nat)).
  { intros i x Hx. rewrite Forall_forall in Hhit, Hmiss.
    destruct (decide (i < h)%nat) as [Hi|Hi].
    - split; [done|]. intros _. apply Hhit.
      apply elem_of_take. by exists i.
    - split; [|lia]. intros Hin. exfalso. apply (Hmiss x); [|done].
      apply (list_elem_of_lookup_2 _ (i - h)).
      rewrite lookup_drop. by replace (h + (i - h))%nat with i by lia. }
  destruct (intersect1d_spec y_true y_reco Hnt)
    as (common & it & idx & Hint & Hlen & _ & Hndi & Hidx).
  assert (Hin : forall i, i ∈ idx <-> (i < h)%nat).
  { intros i. pose proof (intersect1d_positions y_true y_reco i Hnr) as Hp.
    rewrite Hint in Hp. simpl in Hp. rewrite Hp. split.
    - intros (x & Hi & Hx). by apply (Hfront i x).
    - intros Hi. destruct (lookup_lt_is_Some_2 y_reco i) as [x Hx]; [lia|].
      exists x. split; [done|]. by apply (Hfront i x). }
  assert (Hidx_len : length idx = h).
  { transitivity (length (seq 0 h)); [|by rewrite length_seq].
    apply Permutation_length, NoDup_Permutation.
    - done.
    - apply NoDup_seq.
    - intros i. rewrite Hin, elem_of_seq. lia. }
  assert (Hltk : Forall (λ i, i < k)%nat idx).
  { eapply Forall_impl; [exact Hidx|]. simpl. lia. }
  assert (Hrl : mask idx 1%Q (zeros k)
                = replicate h 1%Q ++ replicate (k - h) 0%Q)
    by (apply rank_list_hits_first; [lia | done]).
  split.
  - unfold average_precision_at_k. rewrite Hint.
    rewrite decide_True by lia.
    rewrite (rank_list_set idx k (length y_reco)) by done. simpl.
    rewrite prefix_precisions_spec. simpl.
    rewrite decide_True
      by (by rewrite length_fmap, hits_in_range, Hlen).
    destruct (mean_all_ones
      ((λ i, mean_arr (take (i + 1) (mask idx 1%Q (zeros k))))
         <$> filter (λ i, i ∈ idx) (seq 0 k))) as (m & Hm & Hm1).
    + intros Hnil. apply (f_equal length) in Hnil.
      rewrite length_fmap, hits_in_range in Hnil by done.
      simpl in Hnil. lia.
    + apply Forall_fmap, Forall_forall. intros i Hi. simpl.
      apply list_elem_of_filter in Hi as [Hi%Hin _].
      rewrite Hrl, take_app_le by (rewrite length_replicate; lia).
      rewrite take_replicate, Nat.min_l by lia.
      apply mean_arr_ones. lia.
    + exists m. by rewrite Hm.
  - unfold ndcg_user. rewrite Hint.
    rewrite decide_True by lia.
    rewrite (rank_list_set idx k (length y_reco)) by done. simpl.
    set (rl := mask idx 1%Q (zeros k)) in *.
    assert (Hbin : Forall (λ x, x = 0%Q \/ x = 1%Q) rl) by apply rank_list_binary.
    destruct (ideal_list_spec rl Hbin) as (z & h' & Hideal & Hhz & Hsum & _).
    assert (Hrlen : length rl = k)
      by (unfold rl; by rewrite length_mask, zeros_length).
    assert (h' = h) as ->.
    { apply INR_eq. rewrite <- Hsum, Hrl, fmap_app, !fmap_replicate.
      by rewrite RMicromega.Q2R_0, RMicromega.Q2R_1, sumR_ones_zeros. }
    assert (z = (k - h)%nat) as -> by lia.
    rewrite Hideal, <- Hrl.
    rewrite (dcg_weighted (Q2R <$> rl) k) by (rewrite ?length_fmap; lia).
    simpl. rewrite Hrl, fmap_app, !fmap_replicate.
    rewrite RMicromega.Q2R_0, RMicromega.Q2R_1, weighted_ones_zeros.
    pose proof (top_discounts_ge_1 h (proj1 Hh)) as Hge.
    destruct (Req_dec_T (top_discounts 0 h) 0) as [E|_]; [lra|].
    do 2 f_equal. field. lra.
Qed.

Lemma hits_in_front_score_one_witness :
  (exists v, average_precision_at_k [3; 7; 8; 9]%nat [7; 3; 1]%nat 4
             = Ok (fin v) /\ (v == 1)%Q) /\
  ndcg_user [3; 7; 8; 9]%nat [7; 3; 1]%nat 4 = Ok (fin 1%R).
Proof.
  apply (hits_in_front_score_one [3; 7; 8; 9]%nat [7; 3; 1]%nat 4 2).
  - by apply (bool_decide_unpack _).
  - by apply (bool_decide_unpack _).
  - simpl. lia.
  - simpl. lia.
  - by apply (bool_decide_unpack _).
  - by apply (bool_decide_unpack _).
Defined.

(** ** Where the metrics raise *)

Lemma for_each_stops {A B} (f : A -> result B) (l1 l2 : list A) (x : A)
    (v1 : list B) (e : exn) :
  for_each f l1 = Ok v1 -> f x = Raise e ->
  for_each f (l1 ++ x :: l2) = Raise e.
Proof.
  revert v1. induction l1 as [|y l1 IH]; intros v1 H1 Hx; simpl in *.
  - by rewrite Hx.
  - destruct (f y) as [b|]; simpl in *; [|done].
    destruct (for_each f l1) as [bs|]; simpl in *; [|done].
    by rewrite (IH bs eq_refl Hx).
Qed.

(** The loop stops at a user without an entry. *)
Lemma macro_average_missing_key {T} (f : list nat -> list nat -> result (npfloat T))
    (y_true_list y_reco_list : gmap nat (list nat)) (us1 us2 : list nat)
    (u : nat) :
  (forall w, w ∈ us1 ->
     exists v, per_user f y_true_list y_reco_list w = Ok v) ->
  y_true_list !! u = None \/ y_reco_list !! u = None ->
  for_each (per_user f y_true_list y_reco_list) (us1 ++ u :: us2)
    = Raise KeyError.
Proof.
  intros Hok Hu.
  destruct (for_each_Forall (per_user f y_true_list y_reco_list)
              (λ _, True) us1) as (vs & Hvs & _).
  { intros w Hw. destruct (Hok w Hw) as (v & Hv). by exists v. }
  apply (for_each_stops _ us1 us2 u vs); [done|].
  unfold per_user, getitem.
  destruct (y_true_list !! u) as [t|]; [|done]. simpl.
  destruct Hu as [Hu|Hu]; [done|]. by rewrite Hu.
Qed.

(** X10: a user without an entry.  When the list of users reaches a user
    that has no entry in the ground-truth dict or in the recommendation
    dict, each of the four metrics raises [KeyError] and returns no value,
    whatever comes after that user.  (The users before it have both
    entries, without duplicates, and at most [k] recommended items, so that
    they are evaluated without an exception.) *)
Theorem metrics_raise_on_missing_user
    (y_true_list y_reco_list : gmap nat (list nat)) (us1 us2 : list nat)
    (u k : nat) :
  Forall (λ w, exists y_true y_reco,
            y_true_list !! w = Some y_true /\
            y_reco_list !! w = Some y_reco /\
            NoDup y_true /\ NoDup y_reco /\
            (length y_reco <= k)%nat) us1 ->
  y_true_list !! u = None \/ y_reco_list !! u = None ->
  precision_at_k y_true_list y_reco_list (us1 ++ u :: us2) k = Raise KeyError /\
  recall_at_k y_true_list y_reco_list (us1 ++ u :: us2) k = Raise KeyError /\
  map_at_k y_true_list y_reco_list (us1 ++ u :: us2) k = Raise KeyError /\
  ndcg_at_k y_true_list y_reco_list (us1 ++ u :: us2) k = Raise KeyError.
Proof.
  intros Hus Hu. rewrite Forall_forall in Hus.
  split_and!.
  - change (precision_at_k y_true_list y_reco_list (us1 ++ u :: us2) k)
      with (vs ← for_each (per_user (λ t r, precision_user t r k)
                             y_true_list y_reco_list) (us1 ++ u :: us2);
            Ok (mean vs)).
    rewrite macro_average_missing_key; [done | | done].
    intros w (t & r & Ht & Hr & Hnt & _ & Hk)%Hus.
    unfold per_user, getitem. rewrite Ht, Hr. simpl.
    destruct (precision_user_unit t r k Hnt Hk) as (v & Hv & _). by exists v.
  - change (recall_at_k y_true_list y_reco_list (us1 ++ u :: us2) k)
      with (vs ← for_each (per_user recall_user y_true_list y_reco_list)
                   (us1 ++ u :: us2);
            Ok (mean vs)).
    rewrite macro_average_missing_key; [done | | done].
    intros w (t & r & Ht & Hr & Hnt & _ & Hk)%Hus.
    unfold per_user, getitem. rewrite Ht, Hr. simpl.
    destruct (recall_user_unit t r Hnt) as (v & Hv & _). by exists v.
  - change (map_at_k y_true_list y_reco_list (us1 ++ u :: us2) k)
      with (vs ← for_each (per_user (λ t r, average_precision_at_k t r k)
                             y_true_list y_reco_list) (us1 ++ u :: us2);
            Ok (mean vs)).
    rewrite macro_average_missing_key; [done | | done].
    intros w (t & r & Ht & Hr & Hnt & _ & Hk)%Hus.
    unfold per_user, getitem. rewrite Ht, Hr. simpl.
    destruct (average_precision_unit t r k Hnt Hk) as (v & Hv & _).
    by exists v.
  - change (ndcg_at_k y_true_list y_reco_list (us1 ++ u :: us2) k)
      with (vs ← for_each (per_user (λ t r, ndcg_user t r k)
                             y_true_list y_reco_list) (us1 ++ u :: us2);
            Ok (meanR vs)).
    rewrite macro_average_missing_key; [done | | done].
    intros w (t & r & Ht & Hr & Hnt & _ & Hk)%Hus.
    unfold per_user, getitem. rewrite Ht, Hr. simpl.
    destruct (ndcg_user_unit t r k Hnt Hk) as (v & Hv & _). by exists v.
Qed.

Lemma metrics_raise_on_missing_user_witness :
  precision_at_k sample_true sample_reco ([0; 1] ++ 5 :: [2])%nat 3
    = Raise KeyError /\
  recall_at_k sample_true sample_reco ([0; 1] ++ 5 :: [2])%nat 3
    = Raise KeyError /\
  map_at_k sample_true sample_reco ([0; 1] ++ 5 :: [2])%nat 3
    = Raise KeyError /\
  ndcg_at_k sample_true sample_reco ([0; 1] ++ 5 :: [2])%nat 3
    = Raise KeyError.
Proof.
  apply (metrics_raise_on_missing_user sample_true sample_reco
           [0; 1]%nat [2]%nat 5%nat 3).
  - repeat apply Forall_cons_2; [| |apply Forall_nil_2];
      eexists _, _;
      (split_and!; [reflexivity | reflexivity | | | simpl; lia]);
      by apply (bool_decide_unpack _).
  - left. reflexivity.
Defined.

(** X11: a hit beyond position [k].  When the duplicate-free recommendation
    list is longer than [k] and one of its entries at a position [k] or
    later is an item of the duplicate-free ground truth, the assignment
    [rank_list[indices_in_reco] = 1]
    falls outside the [k] entries of [rank_list]: the user's precision,
    average precision and NDCG raise [IndexError].  Recall, which builds no
    [rank_list], returns a value for the same user. *)
Theorem hit_beyond_k_raises (y_true y_reco : list nat) (k i x : nat) :
  NoDup y_true ->
  NoDup y_reco ->
  y_reco !! i = Some x ->
  x ∈ y_true ->
  (k <= i)%nat ->
  precision_user y_true y_reco k = Raise IndexError /\
  average_precision_at_k y_true y_reco k = Raise IndexError /\
  ndcg_user y_true y_reco k = Raise IndexError /\
  exists v, recall_user y_true y_reco = Ok (fin v).
Proof.
  intros _ Hnr Hi Hx Hk.
  destruct (intersect1d y_true y_reco) as [[common it] idx] eqn:Hint.
  assert (Hi_idx : i ∈ idx).
  { pose proof (intersect1d_positions y_true y_reco i Hnr) as Hp.
    rewrite Hint in Hp. apply Hp. by exists x. }
  assert (Hlen : length idx = length common).
  { unfold intersect1d in Hint. injection Hint as <- _ <-.
    by rewrite length_fmap. }
  assert (Hpos : (0 < length common)%nat).
  { rewrite <- Hlen. destruct idx; [by apply not_elem_of_nil in Hi_idx|].
    simpl. lia. }
  assert (Hraise : set_items (zeros k) idx 1%Q = Raise IndexError).
  { apply set_items_raise, Exists_exists. exists i.
    split; [done|]. by rewrite zeros_length. }
  assert (Hne : length y_true <> 0%nat).
  { destruct y_true; [by apply not_elem_of_nil in Hx | done]. }
  split_and!.
  - unfold precision_user. rewrite Hint, decide_True by done.
    by rewrite Hraise.
  - unfold average_precision_at_k. rewrite Hint, decide_True by done.
    by rewrite Hraise.
  - unfold ndcg_user. rewrite Hint, decide_True by done.
    by rewrite Hraise.
  - unfold recall_user. rewrite Hint, decide_True by done.
    rewrite decide_False by done. by eexists.
Qed.

Lemma hit_beyond_k_raises_witness :
  precision_user [3; 7]%nat [7; 1; 3]%nat 2 = Raise IndexError /\
  average_precision_at_k [3; 7]%nat [7; 1; 3]%nat 2 = Raise IndexError /\
  ndcg_user [3; 7]%nat [7; 1; 3]%nat 2 = Raise IndexError /\
  exists v, recall_user [3; 7]%nat [7; 1; 3]%nat = Ok (fin v).
Proof.
  apply (hit_beyond_k_raises [3; 7]%nat [7; 1; 3]%nat 2 2 3).
  - by apply (bool_decide_unpack _).
  - by apply (bool_decide_unpack _).
  - reflexivity.
  - by apply (bool_decide_unpack _).
  - lia.
Defined.

(** * Further properties of [fit] *)

(** What one run of the epochs prints and trains. *)
Lemma train_epochs_run (sampling : bool) (verbose : Z) (epochs : list nat)
    (s : state) :
  train_epochs sampling verbose epochs s
  = (Ok tt,
     mkState (arrays s)
       (trace s ++
        flat_map (λ epoch,
            TrainEpoch epoch sampling
            :: (if (1 <? verbose)%Z then [PrintMetrics epoch] else []))
          epochs)).
Proof.
  revert s. induction epochs as [|epoch rest IH]; intros s.
  - simpl. unfold mret, M_ret. rewrite app_nil_r. by destruct s.
  - cbn [train_epochs flat_map]. unfold mbind, M_bind, emit.
    destruct (1 <? verbose)%Z.
    + rewrite IH. simpl. by rewrite <- !app_assoc.
    + unfold mret, M_ret. rewrite IH. simpl. by rewrite <- !app_assoc.
Qed.

(** X12: what a run of [WideDeep.fit] does when the sampling guard does not
    stop it (the task is not ranking with batch sampling, or the data has
    been sampled, or [verbose <= 1]).  It returns normally and leaves every
    array as it was; after the start time it builds the model and the
    training operations once, then trains the epochs 1 to [n_epochs] in
    order, each with batch sampling exactly in a ranking task with
    [batch_sampling], and prints the metrics after each epoch exactly when
    [verbose > 1]. *)
Theorem fit_trains_every_epoch (self : model) (train_data : dataset)
    (verbose : Z) (s : state) :
  task self = rating \/ batch_sampling self = false \/
    has_sampled train_data = true \/ (verbose <= 1)%Z ->
  WideDeep.fit self train_data verbose s
  = (Ok tt,
     mkState (arrays s)
       (trace s ++ [ShowStartTime; BuildModel; BuildTrainOps] ++
        flat_map (λ epoch,
            TrainEpoch epoch
              match task self with
              | ranking => batch_sampling self
              | rating => false
              end
            :: (if (1 <? verbose)%Z then [PrintMetrics epoch] else []))
          (seq 1 (n_epochs self)))).
Proof.
  intros Hguard.
  unfold WideDeep.fit, mbind, M_bind, emit, lift, train_feat. simpl.
  destruct (match task self with
            | ranking => batch_sampling self
            | rating => false
            end) eqn:Hs.
  - assert (_check_has_sampled train_data verbose = Ok tt) as ->.
    { unfold _check_has_sampled.
      destruct Hguard as [Ht|[Hb|[Hd|Hv]]].
      - by rewrite Ht in Hs.
      - destruct (task self); congruence.
      - by rewrite Hd.
      - assert ((1 <? verbose)%Z = false) as -> by (apply Z.ltb_ge; lia).
        by rewrite andb_false_r. }
    rewrite train_epochs_run. simpl. by rewrite <- !app_assoc.
  - rewrite train_epochs_run. simpl. by rewrite <- !app_assoc.
Qed.

Lemma fit_trains_every_epoch_witness :
  WideDeep.fit (sample_model ranking true) (mkData true) 2 empty_state
  = (Ok tt,
     mkState (arrays empty_state)
       (trace empty_state ++ [ShowStartTime; BuildModel; BuildTrainOps] ++
        flat_map (λ epoch,
            TrainEpoch epoch
              match task (sample_model ranking true) with
              | ranking => batch_sampling (sample_model ranking true)
              | rating => false
              end
            :: (if (1 <? 2)%Z then [PrintMetrics epoch] else []))
          (seq 1 (n_epochs (sample_model ranking true))))).
Proof.
  apply (fit_trains_every_epoch (sample_model ranking true) (mkData true) 2
           empty_state).
  right; right; left. reflexivity.
Defined.

(** * [YouTubeMatch.predict] *)

Lemma known_id_iff (n : nat) (x : Z) :
  unknown_id n x = false <-> (0 <= x < Z.of_nat n)%Z.
Proof.
  unfold unknown_id. rewrite orb_false_iff, Z.leb_gt, Z.ltb_ge. lia.
Qed.

(** Indexing a table with ids that are inside it. *)
Lemma take_rows_known (a : list (list Q)) (ids : list Z) :
  Forall (λ i, 0 <= i < Z.of_nat (length a))%Z ids ->
  take_rows a ids = Ok ((λ i, default [] (a !! Z.to_nat i)) <$> ids).
Proof.
  intros H. unfold take_rows. apply for_each_pure.
  intros i Hi. rewrite Forall_forall in H. specialize (H i Hi). simpl.
  assert ((i <? 0)%Z = false) as -> by (apply Z.ltb_ge; lia).
  assert ((i <? 0)%Z = false) as -> by (apply Z.ltb_ge; lia).
  destruct (lookup_lt_is_Some_2 a (Z.to_nat i)) as [r ->]; [lia | done].
Qed.

Lemma zip_with_zip_fmap {A B C} (g : A -> B -> C) (l : list A) (k : list B) :
  zip_with g l k = (λ p, g p.1 p.2) <$> zip l k.
Proof.
  revert k. induction l as [|x l IH]; intros [|y k]; simpl; [done..|].
  by rewrite IH.
Qed.

Lemma broadcast_same {A B C} (f : A -> B -> result C) (g : A -> B -> C)
    (l : list A) (k : list B) :
  length l = length k ->
  (forall x y, (x, y) ∈ zip l k -> f x y = Ok (g x y)) ->
  broadcast f l k = Ok (zip_with g l k).
Proof.
  intros Hlen Hf. unfold broadcast. rewrite decide_True by done.
  rewrite (zip_with_zip_fmap g). apply for_each_pure.
  intros [x y] Hp. simpl. by apply Hf.
Qed.

Lemma multiply_rows (u w : list Q) :
  length u = length w ->
  broadcast (λ x y, Ok (x * y)%Q) u w = Ok (zip_with Qmult u w).
Proof. intros H. by apply broadcast_same. Qed.

(** [np.multiply] on two batches of rows of one width. *)
Lemma multiply_same (d : nat) (us ws : list (list Q)) :
  length us = length ws ->
  Forall (λ r, length r = d) us ->
  Forall (λ r, length r = d) ws ->
  multiply us ws = Ok (zip_with (zip_with Qmult) us ws).
Proof.
  intros Hlen Hu Hw. unfold multiply. apply broadcast_same; [done|].
  intros x y Hxy. apply multiply_rows.
  rewrite Forall_forall in Hu, Hw.
  rewrite (Hu x) by (by eapply elem_of_zip_l).
  rewrite (Hw y) by (by eapply elem_of_zip_r). done.
Qed.

Lemma Forall_rows (d : nat) (a : list (list Q)) (ids : list Z) :
  Forall (λ r, length r = d) a ->
  Forall (λ i, 0 <= i < Z.of_nat (length a))%Z ids ->
  Forall (λ r, length r = d) ((λ i, default [] (a !! Z.to_nat i)) <$> ids).
Proof.
  intros Ha Hids. apply Forall_fmap, Forall_forall. intros i Hi. simpl.
  rewrite Forall_forall in Hids. specialize (Hids i Hi).
  destruct (lookup_lt_is_Some_2 a (Z.to_nat i)) as [r Hr]; [lia|].
  rewrite Hr. simpl. rewrite Forall_forall in Ha. apply Ha.
  by eapply list_elem_of_lookup_2.
Qed.

(** The scores of a batch of pairs of known ids. *)
Lemma youtube_batch_scores (self : model) (d : nat) (us vs : list Z) :
  length us = length vs ->
  Forall (λ r, length r = d) (user_vector self) ->
  Forall (λ r, length r = d) (item_weights self) ->
  Forall (λ i, 0 <= i < Z.of_nat (length (user_vector self)))%Z us ->
  Forall (λ i, 0 <= i < Z.of_nat (length (item_weights self)))%Z vs ->
  exists rows_u rows_v products,
    take_rows (user_vector self) us = Ok rows_u /\
    take_rows (item_weights self) vs = Ok rows_v /\
    multiply rows_u rows_v = Ok products /\
    sigmoid self <$> sum_axis1 products
    = zip_with (youtube_score self) us vs.
Proof.
  intros Hlen Hdu Hdv Hus Hvs.
  eexists _, _, _. split; [by apply take_rows_known|].
  split; [by apply take_rows_known|].
  split.
  - apply (multiply_same d); [by rewrite !length_fmap | |];
      by apply Forall_rows.
  - unfold sum_axis1, youtube_score, YouTubeMatch.dot.
    clear Hus Hvs. revert vs Hlen.
    induction us as [|u us IH]; intros [|v vs] Hlen; simpl in *; try done.
    f_equal. apply IH. lia.
Qed.

Lemma known_ids_in_table (n : nat) (len : nat) (l : list Z) :
  (n <= len)%nat ->
  forallb (λ u, negb (unknown_id n u)) l = true ->
  Forall (λ i, 0 <= i < Z.of_nat len)%Z l.
Proof.
  intros Hn H. rewrite forallb_forall in H. apply Forall_forall.
  intros i Hi. specialize (H i (proj1 (list_elem_of_In _ _) Hi)).
  apply negb_true_iff, known_id_iff in H. lia.
Qed.

(** X13: [YouTubeMatch.predict] on a batch of pairs.  With latent tables
    that have a row for every user and every item, all of one width, the
    call returns normally, a float when the batch has exactly one pair and
    an array of one prediction per pair otherwise.  The prediction of a
    pair is [default_prediction] when its user id or its item id is
    unknown, and otherwise the logistic function of the dot product of the
    user's vector and the item's weights, whatever ids the rest of the
    batch holds.  (The ids are held in [int64] arrays: a list of ids is not
    empty and each of its ids fits 64 bits.) *)
Theorem youtube_predict_scores (self : model) (user item : pyarg)
    (s : state) (uv iv : list Z) (d : nat) :
  (0 < n_users self <= length (user_vector self))%nat ->
  (0 < n_items self <= length (item_weights self))%nat ->
  Forall (λ r, length r = d) (user_vector self) ->
  Forall (λ r, length r = d) (item_weights self) ->
  denotes s user uv ->
  denotes s item iv ->
  dtype_of user = int64 ->
  dtype_of item = int64 ->
  length uv = length iv ->
  exists r s',
    YouTubeMatch.predict self user item s = (Ok r, s') /\
    ((exists x, r = YouTubeMatch.Scalar x) <-> length uv = 1%nat) /\
    length (as_array r) = length uv /\
    forall i u v, uv !! i = Some u -> iv !! i = Some v ->
      as_array r !! i
      = Some (if flagged self uv iv i then default_prediction self
              else youtube_score self u v).
Proof.
  intros [Hnu Hlu] [Hni Hli] Hdu Hdv Hdenu Hdeni Htu Hti Hlen.
  destruct (asarray_int64 s user uv Hdenu Htu)
    as (ur & s1 & Hau & Hur & Hkeep1).
  destruct (asarray_int64 s1 item iv (Hkeep1 _ _ Hdeni) Hti)
    as (ir & s2 & Hai & Hir & Hkeep2).
  assert (Hur2 : arrays s2 !! ur = Some uv) by apply (Hkeep2 (NdArray ur) uv Hur).
  destruct (check_unknown_lookup self ur ir s2 uv iv Hur2 Hir Hlen)
    as (idx & s' & Hrun & Hnd & Hin & Hus & His & _ & _ & _).
  destruct (mask_known self uv iv idx Hin Hnu Hni) as [Hku Hki].
  destruct (youtube_batch_scores self d (mask idx 0%Z uv) (mask idx 0%Z iv))
    as (rows_u & rows_v & products & Htu' & Htv & Hmul & Hscores).
  { by rewrite !length_mask. }
  { done. }
  { done. }
  { by eapply known_ids_in_table. }
  { by eapply known_ids_in_table. }
  set (scores := zip_with (youtube_score self)
                   (mask idx 0%Z uv) (mask idx 0%Z iv)) in *.
  assert (Hslen : length scores = length uv).
  { unfold scores. rewrite length_zip_with, !length_mask. lia. }
  set (preds := mask idx (default_prediction self) scores).
  assert (Hplen : length preds = length uv)
    by (unfold preds; by rewrite length_mask).
  assert (Hlt : Forall (λ i, i < length scores)%nat idx).
  { apply Forall_forall. intros i Hi%Hin. rewrite Hslen.
    unfold flagged in Hi. apply orb_true_iff in Hi as [Hi|Hi].
    - destruct (uv !! i) eqn:E; [|done]. by apply lookup_lt_Some in E.
    - destruct (iv !! i) eqn:E; [|done]. apply lookup_lt_Some in E. lia. }
  assert (Hlookup : forall i u v, uv !! i = Some u -> iv !! i = Some v ->
            preds !! i
            = Some (if flagged self uv iv i then default_prediction self
                    else youtube_score self u v)).
  { intros i u v Hu Hv. unfold preds, scores.
    rewrite lookup_mask, lookup_zip_with, !lookup_mask, Hu, Hv. simpl.
    destruct (flagged self uv iv i) eqn:Hf.
    - by rewrite decide_True by (by apply Hin).
    - assert (i ∉ idx) by (rewrite Hin, Hf; done).
      by rewrite !decide_False. }
  assert (Hbody : exists r,
    YouTubeMatch.predict self user item s = (Ok r, s') /\
    as_array r = preds /\
    ((exists x, r = YouTubeMatch.Scalar x) <-> length uv = 1%nat)).
  { unfold YouTubeMatch.predict, mbind, M_bind.
    rewrite Hau, Hai, Hrun. unfold load, lift. rewrite Hus, His. simpl.
    unfold index_rows. simpl.
    rewrite Htu', Htv, Hmul, Hscores. rewrite length_mask.
    assert (Hnil : ~ (0 < length idx)%nat -> scores = preds).
    { intros Hpos. unfold preds.
      destruct idx; [by rewrite mask_nil | simpl in Hpos; lia]. }
    destruct (decide (0 < length idx)%nat) as [Hpos|Hpos];
      [rewrite (set_items_mask idx scores _ Hlt) | rewrite (Hnil Hpos)];
      fold preds; unfold mret, M_ret; simpl.
    all: destruct (decide (length uv = 1%nat)) as [H1|H1].
    all: try (destruct preds as [|p [|p' l]] eqn:Hp; simpl in Hplen; try lia;
              simpl; exists (YouTubeMatch.Scalar p); split; [done|];
              split; [done|]; split; [done | by exists p]).
    all: exists (YouTubeMatch.Array preds); split; [done|];
      split; [done|]; split; [by intros [x ?] | done]. }
  destruct Hbody as (r & Hr & Hpr & Hsc).
  exists r, s'. rewrite Hpr. by split_and!.
Qed.

Lemma youtube_predict_scores_witness :
  exists r s',
    YouTubeMatch.predict (sample_model ranking false)
      (NdArray 0%nat) (PyList [0; 1; 7; 2]%Z) sample_batch = (Ok r, s') /\
    ((exists x, r = YouTubeMatch.Scalar x)
     <-> length [0; 5; 1; -1]%Z = 1%nat) /\
    length (as_array r) = length [0; 5; 1; -1]%Z /\
    forall i u v,
      [0; 5; 1; -1]%Z !! i = Some u -> [0; 1; 7; 2]%Z !! i = Some v ->
      as_array r !! i
      = Some (if flagged (sample_model ranking false)
                   [0; 5; 1; -1]%Z [0; 1; 7; 2]%Z i
              then default_prediction (sample_model ranking false)
              else youtube_score (sample_model ranking false) u v).
Proof.
  apply (youtube_predict_scores (sample_model ranking false)
           (NdArray 0%nat) (PyList [0; 1; 7; 2]%Z) sample_batch
           [0; 5; 1; -1]%Z [0; 1; 7; 2]%Z 1).
  - simpl. lia.
  - simpl. lia.
  - by apply (bool_decide_unpack _).
  - by apply (bool_decide_unpack _).
  - reflexivity.
  - reflexivity.
  - reflexivity.
  - reflexivity.
  - reflexivity.
Defined.

(** ** One user against several items *)

Lemma where_from_known (p : Z -> bool) (a : list Z) (k : nat) :
  Forall (λ x, p x = false) a -> where_from p k a = [].
Proof.
  intros H. revert k. induction H as [|x a Hx _ IH]; intros k; [done|].
  simpl. rewrite Hx. apply IH.
Qed.

(** On arrays that hold known ids only, of whatever lengths, the guard does
    nothing. *)
Lemma check_unknown_all_known (self : model) (user item : loc) (s : state)
    (uv iv : list Z) :
  arrays s !! user = Some uv ->
  arrays s !! item = Some iv ->
  Forall (λ x, 0 <= x < Z.of_nat (n_users self))%Z uv ->
  Forall (λ x, 0 <= x < Z.of_nat (n_items self))%Z iv ->
  _check_unknown self user item s = (Ok (0%nat, [], user, item), s).
Proof.
  intros Hu Hi Hku Hki.
  unfold _check_unknown, mbind, M_bind, load. simpl.
  rewrite Hu, Hi. simpl.
  rewrite (where_from_known _ uv), (where_from_known _ iv).
  - simpl. rewrite (left_id_L ∅ (∪)), elements_empty. done.
  - eapply Forall_impl; [exact Hki|]. intros x Hx. by apply known_id_iff.
  - eapply Forall_impl; [exact Hku|]. intros x Hx. by apply known_id_iff.
Qed.

(** X14: one user id with a list of several item ids.  NumPy broadcasts the
    user's vector against the rows of the items, so [YouTubeMatch.predict]
    computes a score for every item; but since the user array has length 1
    it returns [preds[0]] only: the call yields a single float, the score of
    the user for the first item of the list, and the scores of the other
    items are dropped.  (All ids are known and the latent tables have a row
    for every id, all of one width; the ids fit 64 bits, so that NumPy
    holds them in [int64] arrays.) *)
Theorem youtube_predict_one_user_many_items (self : model) (u v0 : Z)
    (rest : list Z) (s : state) (d : nat) :
  (0 <= u < Z.of_nat (n_users self))%Z ->
  Forall (λ v, 0 <= v < Z.of_nat (n_items self))%Z (v0 :: rest) ->
  rest <> [] ->
  dtype_of (PyInt u) = int64 ->
  dtype_of (PyList (v0 :: rest)) = int64 ->
  (n_users self <= length (user_vector self))%nat ->
  (n_items self <= length (item_weights self))%nat ->
  Forall (λ r, length r = d) (user_vector self) ->
  Forall (λ r, length r = d) (item_weights self) ->
  exists s',
    YouTubeMatch.predict self (PyInt u) (PyList (v0 :: rest)) s
    = (Ok (YouTubeMatch.Scalar (youtube_score self u v0)), s').
Proof.
  intros Hu Hitems Hrest Hut Hvt Hlu Hli Hdu Hdv.
  destruct (asarray_int64 s (PyInt u) [u] eq_refl Hut)
    as (ur & s1 & Hau & Hur & Hkeep1).
  destruct (asarray_int64 s1 (PyList (v0 :: rest)) (v0 :: rest) eq_refl Hvt)
    as (ir & s2 & Hai & Hir & Hkeep2).
  assert (Hur2 : arrays s2 !! ur = Some [u])
    by apply (Hkeep2 (NdArray ur) [u] Hur).
  assert (Hrun : _check_unknown self ur ir s2 = (Ok (0%nat, [], ur, ir), s2)).
  { apply (check_unknown_all_known self ur ir s2 [u] (v0 :: rest));
      [done | done | apply Forall_cons_2; [done | apply Forall_nil_2] | done]. }
  assert (Htu : take_rows (user_vector self) [u]
                = Ok [default [] (user_vector self !! Z.to_nat u)]).
  { rewrite take_rows_known; [done|].
    apply Forall_cons_2; [lia | apply Forall_nil_2]. }
  assert (Hin_v : Forall (λ i, 0 <= i < Z.of_nat (length (item_weights self)))%Z
                    (v0 :: rest)).
  { eapply Forall_impl; [exact Hitems|]. simpl. lia. }
  pose proof (take_rows_known (item_weights self) (v0 :: rest) Hin_v) as Htv.
  set (ru := default [] (user_vector self !! Z.to_nat u)) in *.
  set (rows := (λ i, default [] (item_weights self !! Z.to_nat i))
                 <$> v0 :: rest) in *.
  assert (Hru : length ru = d).
  { assert (Forall (λ r, length r = d) [ru]) as Hf.
    { apply (Forall_rows d (user_vector self) [u]); [done|].
      apply Forall_cons_2; [lia | apply Forall_nil_2]. }
    by apply Forall_cons in Hf as [? _]. }
  assert (Hrows : Forall (λ r, length r = d) rows)
    by (by apply Forall_rows).
  assert (Hmul : multiply [ru] rows = Ok (zip_with Qmult ru <$> rows)).
  { unfold multiply, broadcast.
    rewrite decide_False.
    - apply for_each_pure. intros w Hw.
      rewrite decide_True; [|rewrite Forall_forall in Hrows;
                              by rewrite Hru, (Hrows w Hw)].
      rewrite (zip_with_zip_fmap Qmult). apply for_each_pure. by intros [x y] _.
    - unfold rows. rewrite length_fmap. simpl. destruct rest; [done|].
      simpl. lia. }
  exists s2.
  unfold YouTubeMatch.predict, mbind, M_bind.
  rewrite Hau, Hai, Hrun. unfold load, lift. rewrite Hur2, Hir. simpl.
  unfold index_rows. simpl.
  rewrite Htu, Htv, Hmul. simpl. done.
Qed.

Lemma youtube_predict_one_user_many_items_witness :
  exists s',
    YouTubeMatch.predict (sample_model ranking false)
      (PyInt 1) (PyList (2 :: [0; 1])%Z) empty_state
    = (Ok (YouTubeMatch.Scalar
             (youtube_score (sample_model ranking false) 1 2)), s').
Proof.
  apply (youtube_predict_one_user_many_items (sample_model ranking false)
           1 2 [0; 1]%Z empty_state 1).
  - simpl. lia.
  - by apply (bool_decide_unpack _).
  - discriminate.
  - reflexivity.
  - reflexivity.
  - simpl. lia.
  - simpl. lia.
  - by apply (bool_decide_unpack _).
  - by apply (bool_decide_unpack _).
Defined.

(** * What [predict] and [recommend_user] leave behind *)

(** X16: [predict] does not restore the ids it overwrites.  When the two
    arguments are NumPy arrays holding a batch of pairs, the arrays
    themselves are handed to [_check_unknown]; after [predict], in both
    models, the caller's two arrays hold 0 at every position where the user
    id or the item id was unknown, and their old entries elsewhere: the
    conversion that [_check_unknown] calls temporary is never undone.
    [YouTubeMatch.predict] returns normally; [WideDeep.predict] returns
    normally or raises [TypeError] (on a single pair with an unknown id),
    and in either case leaves the arrays overwritten. *)
Theorem predict_leaves_arrays_sanitised
    (other : list Z -> list Z -> result tensor) (self : model)
    (user item : loc) (s : state) (uv iv : list Z) (d : nat) :
  (0 < n_users self <= length (user_vector self))%nat ->
  (0 < n_items self <= length (item_weights self))%nat ->
  Forall (λ r, length r = d) (user_vector self) ->
  Forall (λ r, length r = d) (item_weights self) ->
  arrays s !! user = Some uv ->
  arrays s !! item = Some iv ->
  length uv = length iv ->
  exists idx s',
    (forall i, i ∈ idx <-> flagged self uv iv i = true) /\
    arrays s' !! user = Some (mask idx 0%Z uv) /\
    arrays s' !! item = Some (mask idx 0%Z iv) /\
    (exists r,
       WideDeep.predict other self (NdArray user) (NdArray item) s = (r, s') /\
       (r = Raise TypeError \/ exists preds, r = Ok preds)) /\
    (exists r,
       YouTubeMatch.predict self (NdArray user) (NdArray item) s
       = (Ok r, s')).
Proof.
  intros [Hnu Hlu] [Hni Hli] Hdu Hdv Hu Hi Hlen.
  destruct (check_unknown_lookup self user item s uv iv Hu Hi Hlen)
    as (idx & s' & Hrun & Hnd & Hin & Hus & His & _ & _ & _).
  destruct (mask_known self uv iv idx Hin Hnu Hni) as [Hku Hki].
  assert (Hflag_lt : forall n, n = length uv -> Forall (λ i, i < n)%nat idx).
  { intros n ->. apply Forall_forall. intros i Hf%Hin.
    unfold flagged in Hf. apply orb_true_iff in Hf as [Hf|Hf].
    - destruct (uv !! i) eqn:E; [|done]. by apply lookup_lt_Some in E.
    - destruct (iv !! i) eqn:E; [|done]. apply lookup_lt_Some in E. lia. }
  exists idx, s'. split_and!; [done | done | done | |].
  - unfold WideDeep.predict, mbind, M_bind. simpl.
    unfold mret, M_ret. simpl.
    rewrite Hrun. unfold load, lift. rewrite Hus, His. simpl.
    rewrite decide_False by (rewrite !length_mask; intros ?; done).
    rewrite Hku, Hki. simpl.
    set (scores := zip_with (λ u i, output self (Z.to_nat u) (Z.to_nat i))
                     (mask idx 0%Z uv) (mask idx 0%Z iv)).
    set (post := match task self with
                 | rating => _
                 | ranking => _
                 end).
    assert (Hpost : exists f, post = squeeze (f <$> scores)).
    { unfold post. destruct (task self); rewrite tensor_map_squeeze;
        by eexists. }
    destruct Hpost as (f & ->).
    assert (Hslen : length (f <$> scores) = length uv).
    { unfold scores. rewrite length_fmap, length_zip_with, !length_mask. lia. }
    destruct (decide (0 < length idx)%nat) as [Hpos|Hpos]; [|by eauto].
    destruct (decide (length uv = 1%nat)) as [H1|H1].
    + destruct (squeeze_scalar (f <$> scores)) as (x & _ & ->);
        [by rewrite Hslen|].
      eexists. split; [done|]. by left.
    + rewrite squeeze_array by (by rewrite Hslen). simpl.
      rewrite (set_items_mask idx (f <$> scores) _ (Hflag_lt _ Hslen)).
      by eauto.
  - destruct (youtube_batch_scores self d (mask idx 0%Z uv) (mask idx 0%Z iv))
      as (rows_u & rows_v & products & Htu & Htv & Hmul & Hscores).
    { by rewrite !length_mask. }
    { done. }
    { done. }
    { by eapply known_ids_in_table. }
    { by eapply known_ids_in_table. }
    set (scores := zip_with (youtube_score self)
                     (mask idx 0%Z uv) (mask idx 0%Z iv)) in *.
    assert (Hslen : length scores = length uv).
    { unfold scores. rewrite length_zip_with, !length_mask. lia. }
    unfold YouTubeMatch.predict, mbind, M_bind. simpl.
    unfold mret, M_ret. simpl.
    rewrite Hrun. unfold load, lift. rewrite Hus, His. simpl.
    unfold index_rows. simpl.
    rewrite Htu, Htv, Hmul, Hscores. rewrite length_mask.
    destruct (decide (0 < length idx)%nat) as [Hpos|Hpos];
      [rewrite (set_items_mask idx scores _ (Hflag_lt _ Hslen))|];
      unfold mret, M_ret; simpl.
    + destruct (decide (length uv = 1%nat)) as [H1|H1]; [|by eexists].
      destruct (lookup_lt_is_Some_2
                  (mask idx (default_prediction self) scores) 0) as [p Hp];
        [rewrite length_mask; lia|].
      rewrite Hp. by eexists.
    + destruct (decide (length uv = 1%nat)) as [H1|H1]; [|by eexists].
      destruct (lookup_lt_is_Some_2 scores 0) as [p Hp]; [lia|].
      rewrite Hp. by eexists.
Qed.

Lemma predict_leaves_arrays_sanitised_witness :
  exists idx s',
    (forall i, i ∈ idx <->
       flagged (sample_model ranking false)
         [0; 5; 1; -1]%Z [0; 1; 7; 2]%Z i = true) /\
    arrays s' !! 0%nat = Some (mask idx 0%Z [0; 5; 1; -1]%Z) /\
    arrays s' !! 1%nat = Some (mask idx 0%Z [0; 1; 7; 2]%Z) /\
    (exists r,
       WideDeep.predict (λ _ _, Raise ValueError) (sample_model ranking false)
         (NdArray 0%nat) (NdArray 1%nat) sample_batch = (r, s') /\
       (r = Raise TypeError \/ exists preds, r = Ok preds)) /\
    (exists r,
       YouTubeMatch.predict (sample_model ranking false)
         (NdArray 0%nat) (NdArray 1%nat) sample_batch
       = (Ok r, s')).
Proof.
  apply (predict_leaves_arrays_sanitised (λ _ _, Raise ValueError)
           (sample_model ranking false)
           0%nat 1%nat sample_batch [0; 5; 1; -1]%Z [0; 1; 7; 2]%Z 1).
  - simpl. lia.
  - simpl. lia.
  - by apply (bool_decide_unpack _).
  - by apply (bool_decide_unpack _).
  - reflexivity.
  - reflexivity.
  - reflexivity.
Defined.

(** X17: a known user without an entry in [user_consumed].  For a user id
    from 1 to [n_users - 1] that the dict of consumed items has no key for,
    [recommend_user] raises [KeyError] at [self.user_consumed[user]], in
    both models, whatever the scores are; the state is left as it was. *)
Theorem recommend_user_without_history (self : model) (user : Z)
    (n_rec : nat) (s : state) :
  (0 < user < Z.of_nat (n_users self))%Z ->
  user_consumed self !! Z.to_nat user = None ->
  WideDeep.recommend_user self user n_rec s = (Raise KeyError, s) /\
  YouTubeMatch.recommend_user self user n_rec s = (Raise KeyError, s).
Proof.
  intros Hu Hc.
  unfold WideDeep.recommend_user, YouTubeMatch.recommend_user, mbind, M_bind.
  rewrite check_unknown_user_known by lia.
  assert (py_not (Some user) = false) as -> by (apply Z.eqb_neq; lia).
  unfold lift, getitem. simpl. by rewrite Hc.
Qed.

Lemma recommend_user_without_history_witness :
  WideDeep.recommend_user
    (mkModel ranking 3 3 0 5 (1 # 2) {[ 1%nat := [] ]} false 2
       (λ _ _, 0%Q) [] [] sample_sigmoid Select.dumb_select)
    2 2 empty_state
  = (Raise KeyError, empty_state) /\
  YouTubeMatch.recommend_user
    (mkModel ranking 3 3 0 5 (1 # 2) {[ 1%nat := [] ]} false 2
       (λ _ _, 0%Q) [] [] sample_sigmoid Select.dumb_select)
    2 2 empty_state
  = (Raise KeyError, empty_state).
Proof.
  apply (recommend_user_without_history
           (mkModel ranking 3 3 0 5 (1 # 2) {[ 1%nat := [] ]} false 2
              (λ _ _, 0%Q) [] [] sample_sigmoid Select.dumb_select)
           2 2 empty_state).
  - simpl. lia.
  - reflexivity.
Defined.

(** * NDCG of an arbitrary user *)

Lemma indicator_rank_list (y_true y_reco : list nat) (k : nat) :
  NoDup y_reco ->
  indicator y_true y_reco k
  = mask (intersect1d y_true y_reco).2 1%Q (zeros k).
Proof.
  intros Hnd. rewrite rank_list_fmap. unfold indicator.
  apply list_fmap_ext. intros j i _.
  pose proof (intersect1d_positions y_true y_reco i Hnd) as Hpos.
  destruct (y_reco !! i) as [x|] eqn:E.
  - destruct (decide (x ∈ y_true)) as [Hx|Hx].
    + rewrite decide_True; [done|]. apply Hpos. by exists x.
    + rewrite decide_False; [done|].
      intros (x' & Hx' & Hin)%Hpos. congruence.
  - rewrite decide_False; [done|]. by intros (x' & Hx' & _)%Hpos.
Qed.

Lemma Q2R_sumQ (l : list Q) : Q2R (sumQ l) = sumR (Q2R <$> l).
Proof.
  induction l as [|x l IH]; simpl; [apply RMicromega.Q2R_0|].
  by rewrite Q2R_plus, IH.
Qed.

Lemma sumR_rank_list (idx : list nat) (k : nat) :
  NoDup idx -> Forall (λ i, i < k)%nat idx ->
  sumR (Q2R <$> mask idx 1%Q (zeros k)) = INR (length idx).
Proof.
  intros Hnd Hlt. rewrite <- Q2R_sumQ.
  rewrite (Qeq_eqR _ _ (sumQ_rank_list idx k Hnd Hlt)).
  rewrite INR_IZR_INZ. unfold Q2R. simpl. field.
Qed.

(** The ideal ordering of the indicator has its ones in front. *)
Lemma ideal_of_rank_list (idx : list nat) (k : nat) :
  NoDup idx -> Forall (λ i, i < k)%nat idx ->
  reverse (sort (mask idx 1%Q (zeros k)))
  = replicate (length idx) 1%Q ++ replicate (k - length idx) 0%Q.
Proof.
  intros Hnd Hlt.
  destruct (ideal_list_spec (mask idx 1%Q (zeros k)) (rank_list_binary idx k))
    as (z & h & Hideal & Hhz & Hsum & _).
  rewrite sumR_rank_list in Hsum by done. apply INR_eq in Hsum.
  rewrite length_mask, zeros_length in Hhz.
  rewrite Hideal. by replace z with (k - length idx)%nat by lia; rewrite Hsum.
Qed.

Lemma dcg_by_position_ideal (h z : nat) :
  (1 <= h)%nat ->
  (1 <= dcg_by_position (Q2R <$> replicate h 1%Q ++ replicate z 0%Q)
          (h + z))%R.
Proof.
  intros Hh.
  assert (Hlen : length (Q2R <$> replicate h 1%Q ++ replicate z 0%Q)
                 = (h + z)%nat)
    by (by rewrite length_fmap, length_app, !length_replicate).
  pose proof (dcg_is_by_position _ _ Hlen ltac:(lia)) as Hpos.
  rewrite (dcg_weighted _ _ Hlen) in Hpos by lia.
  injection Hpos as <-.
  rewrite fmap_app, !fmap_replicate, RMicromega.Q2R_0, RMicromega.Q2R_1.
  rewrite weighted_ones_zeros. by apply top_discounts_ge_1.
Qed.

(** What [ndcg_at_k] computes for one user. *)
Lemma ndcg_user_by_position (y_true y_reco : list nat) (k : nat) :
  NoDup y_true -> NoDup y_reco -> (length y_reco <= k)%nat ->
  sorted_indicator y_true y_reco k
    = reverse (sort (indicator y_true y_reco k)) /\
  (hit_count y_true y_reco <> 0%nat ->
   (1 <= dcg_by_position (Q2R <$> sorted_indicator y_true y_reco k) k)%R) /\
  ndcg_user y_true y_reco k = Ok (ndcg_by_position y_true y_reco k).
Proof.
  intros Hnt Hnr Hk.
  pose proof (indicator_rank_list y_true y_reco k Hnr) as Hind.
  pose proof (intersect1d_hits y_true y_reco) as Hhits.
  destruct (intersect1d_spec y_true y_reco Hnt)
    as (common & it & idx & Hint & Hlen & _ & Hndi & Hidx).
  rewrite Hint in Hind, Hhits. simpl in Hind, Hhits.
  fold (hit_count y_true y_reco) in Hhits.
  assert (Hltk : Forall (λ i, i < k)%nat idx).
  { eapply Forall_impl; [exact Hidx|]. simpl. lia. }
  assert (Hhk : (hit_count y_true y_reco <= k)%nat).
  { rewrite <- Hhits, <- Hlen.
    rewrite <- (hits_in_range idx k Hndi Hltk).
    etransitivity; [apply length_filter|]. by rewrite length_seq. }
  assert (Hsorted : sorted_indicator y_true y_reco k
                    = reverse (sort (indicator y_true y_reco k))).
  { rewrite Hind, (ideal_of_rank_list idx k Hndi Hltk).
    unfold sorted_indicator. by rewrite <- Hhits, <- Hlen. }
  assert (Hge : hit_count y_true y_reco <> 0%nat ->
    (1 <= dcg_by_position (Q2R <$> sorted_indicator y_true y_reco k) k)%R).
  { intros Hne. unfold sorted_indicator.
    replace k with (hit_count y_true y_reco + (k - hit_count y_true y_reco))%nat
      at 2 by lia.
    apply dcg_by_position_ideal. lia. }
  split_and!; [done | done |].
  unfold ndcg_user, ndcg_by_position. rewrite Hint.
  destruct (decide (hit_count y_true y_reco = 0%nat)) as [H0|H0].
  - rewrite decide_False; [done|]. lia.
  - rewrite decide_True by lia.
    rewrite (rank_list_set idx k (length y_reco)) by done.
    cbn [mbind result_bind]. rewrite <- Hind, <- Hsorted.
    assert (1 <= k)%nat as Hk1 by lia.
    rewrite (dcg_is_by_position (Q2R <$> indicator y_true y_reco k) k)
      by (unfold indicator; by rewrite ?length_fmap, ?length_seq).
    rewrite (dcg_is_by_position (Q2R <$> sorted_indicator y_true y_reco k) k)
      by (unfold sorted_indicator;
          rewrite ?length_fmap, ?length_app, ?length_replicate; lia).
    cbn [mbind result_bind]. specialize (Hge H0).
    by destruct (Req_dec_T _ 0) as [E|_]; [lra|].
Qed.

(** C1, amended: the code divides the relevance at position [i >= 1]
    (counted from 0) by [log2 (i + 1)], not by [log2 (i + 2)].  For every
    vector [rel] of [k] relevances,
    [DCG = rel[0] + sum over i = 1..k-1 of rel[i] / log2 (i + 1)].  For
    every user with a ground truth and a recommendation list, both free of
    duplicates, the second of at most [k] items: the indicator sorted
    descending has its ones, as many as there are hits, in front; the value
    of the user is 0 when there is no hit and else the DCG of the indicator
    divided by the DCG of the sorted indicator (IDCG, which is 1 at least);
    and [ndcg_at_k] is the mean of these values over the users.  For ground
    truth 3, 7 and recommendations 7, 1, 3 with [k = 3] the indicator is
    1, 0, 1 and the sorted one 1, 1, 0, [DCG = 1 + 1/log2 3], [IDCG = 2],
    and NDCG is [(1 + 1/log2 3) / 2], between 0.815 and 0.816. *)
Theorem ndcg_discounts_by_log2_of_rank
    (y_true_list y_reco_list : gmap nat (list nat)) (users : list nat)
    (k : nat) :
  Forall (λ u, exists y_true y_reco,
            y_true_list !! u = Some y_true /\
            y_reco_list !! u = Some y_reco /\
            NoDup y_true /\ NoDup y_reco /\
            (length y_reco <= k)%nat) users ->
  (forall rel, length rel = k -> (1 <= k)%nat ->
     dcg rel k = Ok (dcg_by_position rel k)) /\
  (forall u y_true y_reco,
     u ∈ users ->
     y_true_list !! u = Some y_true ->
     y_reco_list !! u = Some y_reco ->
     sorted_indicator y_true y_reco k
       = reverse (sort (indicator y_true y_reco k)) /\
     (hit_count y_true y_reco <> 0%nat ->
      (1 <= dcg_by_position (Q2R <$> sorted_indicator y_true y_reco k) k)%R) /\
     ndcg_user y_true y_reco k
     = Ok (if decide (hit_count y_true y_reco = 0%nat) then fin 0%R
           else fin (dcg_by_position (Q2R <$> indicator y_true y_reco k) k
                     / dcg_by_position
                         (Q2R <$> sorted_indicator y_true y_reco k) k)%R)) /\
  ndcg_at_k y_true_list y_reco_list users k
  = Ok (meanR ((λ u, ndcg_by_position (default [] (y_true_list !! u))
                       (default [] (y_reco_list !! u)) k) <$> users)) /\
  indicator [3; 7]%nat [7; 1; 3]%nat 3 = [1%Q; 0%Q; 1%Q] /\
  sorted_indicator [3; 7]%nat [7; 1; 3]%nat 3 = [1%Q; 1%Q; 0%Q] /\
  dcg_by_position (Q2R <$> [1%Q; 0%Q; 1%Q]) 3 = (1 + / log2 3)%R /\
  dcg_by_position (Q2R <$> [1%Q; 1%Q; 0%Q]) 3 = 2%R /\
  (exists v,
     ndcg_at_k example_true example_reco [0%nat] 3 = Ok (fin v) /\
     v = ((1 + / log2 3) / 2)%R /\
     (815 / 1000 < v < 816 / 1000)%R).
Proof.
  intros Hus. rewrite Forall_forall in Hus.
  split_and!.
  - intros rel Hlen Hk. by apply dcg_is_by_position.
  - intros u y_true y_reco Hu Ht Hr.
    destruct (Hus u Hu) as (t & r & Ht' & Hr' & Hnt & Hnr & Hk).
    rewrite Ht in Ht'. rewrite Hr in Hr'.
    injection Ht' as <-. injection Hr' as <-.
    by apply ndcg_user_by_position.
  - unfold ndcg_at_k.
    rewrite (for_each_pure _
               (λ u, ndcg_by_position (default [] (y_true_list !! u))
                       (default [] (y_reco_list !! u)) k)); [done|].
    intros u Hu.
    destruct (Hus u Hu) as (t & r & Ht & Hr & Hnt & Hnr & Hk).
    unfold getitem. rewrite Ht, Hr. simpl.
    by apply ndcg_user_by_position.
  - reflexivity.
  - reflexivity.
  - apply example_dcg.
  - apply example_idcg.
  - apply example_ndcg_at_k.
Qed.

Lemma ndcg_discounts_by_log2_of_rank_witness :
  (forall rel, length rel = 3%nat -> (1 <= 3)%nat ->
     dcg rel 3 = Ok (dcg_by_position rel 3)) /\
  (forall u y_true y_reco,
     u ∈ [0%nat] ->
     partial_true !! u = Some y_true ->
     example_reco !! u = Some y_reco ->
     sorted_indicator y_true y_reco 3
       = reverse (sort (indicator y_true y_reco 3)) /\
     (hit_count y_true y_reco <> 0%nat ->
      (1 <= dcg_by_position (Q2R <$> sorted_indicator y_true y_reco 3) 3)%R) /\
     ndcg_user y_true y_reco 3
     = Ok (if decide (hit_count y_true y_reco = 0%nat) then fin 0%R
           else fin (dcg_by_position (Q2R <$> indicator y_true y_reco 3) 3
                     / dcg_by_position
                         (Q2R <$> sorted_indicator y_true y_reco 3) 3)%R)) /\
  ndcg_at_k partial_true example_reco [0%nat] 3
  = Ok (meanR ((λ u, ndcg_by_position (default [] (partial_true !! u))
                       (default [] (example_reco !! u)) 3) <$> [0%nat])) /\
  indicator [3; 7]%nat [7; 1; 3]%nat 3 = [1%Q; 0%Q; 1%Q] /\
  sorted_indicator [3; 7]%nat [7; 1; 3]%nat 3 = [1%Q; 1%Q; 0%Q] /\
  dcg_by_position (Q2R <$> [1%Q; 0%Q; 1%Q]) 3 = (1 + / log2 3)%R /\
  dcg_by_position (Q2R <$> [1%Q; 1%Q; 0%Q]) 3 = 2%R /\
  (exists v,
     ndcg_at_k example_true example_reco [0%nat] 3 = Ok (fin v) /\
     v = ((1 + / log2 3) / 2)%R /\
     (815 / 1000 < v < 816 / 1000)%R).
Proof.
  apply (ndcg_discounts_by_log2_of_rank partial_true example_reco [0%nat] 3).
  apply Forall_cons_2; [|apply Forall_nil_2].
  eexists _, _.
  split_and!; [reflexivity | reflexivity | | | simpl; lia];
    by apply (bool_decide_unpack _).
Defined.

(** * Ids that NumPy does not hold as integers *)

Lemma length_cast (t : dtype) (l : list Z) : length (cast t l) = length l.
Proof. destruct t; simpl; by rewrite ?length_fmap. Qed.

(** X18: lists of ids that make no index array.  [np.asarray] makes a
    [float64] array of the empty list and an array of Python objects of a
    list that holds an id of [2 ^ 64] or more; such an array does not index
    [self.user_vector].  When the user ids of a batch of pairs come in such
    a list, [YouTubeMatch.predict] raises [IndexError], after
    [_check_unknown] has run on the two arrays. *)
Theorem youtube_predict_rejects_non_integer_ids (self : model)
    (user item : pyarg) (s : state) (uv iv : list Z) :
  denotes s user uv ->
  denotes s item iv ->
  length uv = length iv ->
  is_index (dtype_of user) = false ->
  exists s', YouTubeMatch.predict self user item s = (Raise IndexError, s').
Proof.
  intros Hdu Hdi Hlen Ht.
  destruct (asarray_run s user uv Hdu) as (ur & s1 & Hau & Hur & Hkeep1).
  destruct (asarray_run s1 item iv (Hkeep1 _ _ Hdi))
    as (ir & s2 & Hai & Hir & Hkeep2).
  assert (Hur2 : arrays s2 !! ur = Some (cast (dtype_of user) uv))
    by apply (Hkeep2 (NdArray ur) _ Hur).
  destruct (check_unknown_lookup self ur ir s2 _ _ Hur2 Hir)
    as (idx & s' & Hrun & _); [by rewrite !length_cast|].
  exists s'. unfold YouTubeMatch.predict, mbind, M_bind.
  rewrite Hau, Hai, Hrun. unfold load, lift, index_rows. by rewrite Ht.
Qed.

Lemma youtube_predict_rejects_non_integer_ids_witness :
  exists s',
    YouTubeMatch.predict (sample_model ranking false)
      (PyList [18446744073709551616]%Z) (PyList [0]%Z) empty_state
    = (Raise IndexError, s').
Proof.
  apply (youtube_predict_rejects_non_integer_ids (sample_model ranking false)
           (PyList [18446744073709551616]%Z) (PyList [0]%Z) empty_state
           [18446744073709551616]%Z [0]%Z); reflexivity.
Defined.
